(** * MFIN7037 Assignment 1: statistics engine, data loaders and greedy
      factor selector

    A shallow embedding of the numerical core of the repository's Python
    scripts, with the properties its specification states about them.

    - [PyBase]: exceptions as a result type.
    - [Q1], [Q1Facts]: [stats_table], [summary_stats] and the
      annualised-return formulas of the Question 1 scripts.
    - [DataPrep], [DataPrepFacts]: the local loaders of [data_prep.py].
    - [ExternalFactors]: [fetch_all_external_factors] of [data_prep.py].
    - [RunAnalysis]: [_pick_best_model] of [run_analysis.py].

    Conventions.  A pandas/numpy [float64] is modelled as a real number
    or NaN: arithmetic is exact, there is no overflow and no infinity.
    A missing cell of a DataFrame is NaN, as in pandas.  Library calls
    whose code is not part of the repository (statsmodels' OLS, pandas'
    merge and CSV reader) are section variables. *)

From Stdlib Require Import Reals Lra Lia ZArith List Bool String Sorted Permutation.
From stdpp Require Import gmap strings.

Import ListNotations.

(** ** Python exceptions *)

Module PyBase.

Inductive exn : Type :=
| KeyError
| ZeroDivisionError
| IndexError
| RuntimeError
| ValueError.

Inductive pyresult (A : Type) : Type :=
| Ok (a : A)
| Raise (e : exn).

Arguments Ok {A} a.
Arguments Raise {A} e.

Definition bind {A B : Type} (m : pyresult A) (k : A -> pyresult B) : pyresult B :=
  match m with
  | Ok a => k a
  | Raise e => Raise e
  end.

End PyBase.

Import PyBase.

Notation "'try!' x <- m ; k" := (bind m (fun x => k))
  (at level 10, x name, m at level 100, k at level 200).

(** ** Question 1: summary statistics *)

Module Q1.

Local Open Scope R_scope.

(** [None] is NaN. *)
Abbreviation float := (option R).
Abbreviation NaN := (@None R).

Definition notna (x : float) : bool :=
  match x with Some _ => true | None => false end.

Definition fadd (a b : float) : float :=
  match a, b with Some x, Some y => Some (x + y) | _, _ => None end.

Definition fsub (a b : float) : float :=
  match a, b with Some x, Some y => Some (x - y) | _, _ => None end.

Definition fmul (a b : float) : float :=
  match a, b with Some x, Some y => Some (x * y) | _, _ => None end.

(** [a / b].  IEEE division by zero gives an infinity (or NaN for 0/0);
    the model has no infinity and maps both to NaN.  The divisor of a
    Sharpe ratio has gone through [replace0] and is never zero (lemma
    [replace0_nonzero]); the price ratios of [fetch_vt_annual_returns]
    are only stated for non-zero prices. *)
Definition fdiv (a b : float) : float :=
  match a, b with
  | Some x, Some y => if Req_EM_T y 0 then None else Some (x / y)
  | _, _ => None
  end.

(** [x ** y] for an exponent [0 < y <= 1] (here always [1 / n]): a
    negative base gives NaN unless the exponent is 1. *)
Definition fpow (a : float) (y : R) : float :=
  match a with
  | None => None
  | Some x =>
      if Rlt_dec 0 x then Some (Rpower x y)
      else if Req_EM_T x 0 then Some 0
      else if Req_EM_T y 1 then Some x
      else None
  end.

Definition fsqrt (a : float) : float :=
  match a with
  | None => None
  | Some x => if Rlt_dec x 0 then None else Some (sqrt x)
  end.

(** Python's [1 / n] on an [int]. *)
Definition py_inv (n : nat) : pyresult R :=
  match n with
  | O => Raise ZeroDivisionError
  | _ => Ok (/ INR n)
  end.

(** [Series.replace(0, np.nan)] on one value. *)
Definition replace0 (a : float) : float :=
  match a with
  | Some x => if Req_EM_T x 0 then None else Some x
  | None => None
  end.

(** Round half to even, as [numpy.rint]. *)
Definition rint (x : R) : Z :=
  let f := Int_part x in
  let d := x - IZR f in
  if Rlt_dec d (1 / 2) then f
  else if Rlt_dec (1 / 2) d then (f + 1)%Z
  else if Z.even f then f else (f + 1)%Z.

(** [DataFrame.round(4)] on one value: [rint(x * 10^4) / 10^4]. *)
Definition round4 (a : float) : float :=
  match a with
  | Some x => Some (IZR (rint (x * 10000)) / 10000)
  | None => None
  end.

(** *** Series reductions *)

(** [(1 + s).prod()] of a series without NaN. *)
Definition prod1p (rs : list R) : R :=
  fold_right (fun r acc => (1 + r) * acc) 1 rs.

Definition sum (rs : list R) : R := fold_right Rplus 0 rs.

(** The non-missing values of a series ([skipna=True]). *)
Definition dropna_values (s : list float) : list R :=
  flat_map (fun x => match x with Some r => [r] | None => [] end) s.

(** [Series.mean()]: NaN on an empty sample. *)
Definition mean (s : list float) : float :=
  let rs := dropna_values s in
  match rs with
  | [] => None
  | _ => Some (sum rs / INR (length rs))
  end.

(** [Series.std()] with [ddof=1]: NaN with fewer than two values. *)
Definition std (s : list float) : float :=
  let rs := dropna_values s in
  match rs with
  | [] | [_] => None
  | _ =>
      let m := sum rs / INR (length rs) in
      fsqrt (Some (sum (map (fun r => (r - m) * (r - m)) rs) / (INR (length rs) - 1)))
  end.

(** *** DataFrames *)

(** Column-major: the columns in order, each with its values. *)
Definition DataFrame : Type := list (string * list float).

Fixpoint lookup_row {A : Type} (c : string) (t : list (string * A)) : option A :=
  match t with
  | [] => None
  | (c', r) :: t' => if String.eqb c c' then Some r else lookup_row c t'
  end.

Definition df_columns (df : DataFrame) : list string := map fst df.

Definition in_columns (c : string) (df : DataFrame) : bool :=
  existsb (String.eqb c) (df_columns df).

Definition get_col (df : DataFrame) (c : string) : option (list float) :=
  lookup_row c df.

(** [df[cols]] for column names known to be present. *)
Definition select (df : DataFrame) (cols : list string) : DataFrame :=
  flat_map (fun c => match get_col df c with Some s => [(c, s)] | None => [] end) cols.

(** [len(df)] of a frame that has at least one column. *)
Definition len (df : DataFrame) : nat :=
  match df with
  | [] => O
  | (_, s) :: _ => length s
  end.

(** Row [i] has no NaN in any column. *)
Definition complete_at (df : DataFrame) (i : nat) : bool :=
  forallb (fun cs => match nth_error (snd cs) i with
                     | Some (Some _) => true
                     | _ => false
                     end) df.

(** The positions that [df.dropna()] keeps. *)
Definition kept_index (df : DataFrame) : list nat :=
  List.filter (complete_at df) (seq 0 (len df)).

Definition take_rows (idx : list nat) (s : list float) : list float :=
  map (fun i => nth i s NaN) idx.

(** [df.dropna()]: every row with a NaN in some column is dropped. *)
Definition dropna (df : DataFrame) : DataFrame :=
  map (fun cs => (fst cs, take_rows (kept_index df) (snd cs))) df.

(** *** Q1_1: [stats_table] *)

Definition ASSETS : list string :=
  ["SP500"; "SmallCap"; "TBill"; "TBond10Y"; "Baa"; "RealEstate"; "Gold"]%string.

Record StatsRow : Type := mkStatsRow {
  Annualized_Return : float;
  Volatility : float;
  Sharpe_Ratio : float
}.

Definition round_row (r : StatsRow) : StatsRow :=
  {| Annualized_Return := round4 (Annualized_Return r);
     Volatility := round4 (Volatility r);
     Sharpe_Ratio := round4 (Sharpe_Ratio r) |}.

(** [(1 + s).prod() ** (1 / n) - 1] for one column of [df_]. *)
Definition geo_ret (s : list float) (inv_n : R) : float :=
  fsub (fpow (Some (prod1p (dropna_values s))) inv_n) (Some 1).

(** One row of the result before [.round(4)]: the asset's series [s]
    of [df_], with [1 / n] and the mean of the risk-free column. *)
Definition asset_row (inv_n : R) (rf_mean : float) (s : list float) : StatsRow :=
  let g := geo_ret s inv_n in
  let v := std s in
  {| Annualized_Return := g;
     Volatility := v;
     Sharpe_Ratio := fdiv (fsub g rf_mean) (replace0 v) |}.

(** [cols]: the asset list of [stats_table], restricted to the frame. *)
Definition asset_cols (df : DataFrame) : list string :=
  List.filter (fun c => in_columns c df) ASSETS.

(** The positions of the rows of [df_ = df[cols].dropna()]. *)
Definition retained (df : DataFrame) : list nat :=
  kept_index (select df (asset_cols df)).

(** The three series of [stats_table] before [.round(4)].  With an
    empty [df_] the division [1 / n] fails inside [DataFrame.apply],
    which may report it differently; the model raises, and no stated
    property concerns that case. *)
Definition stats_table_raw (df : DataFrame) (rf_col : string)
  : pyresult (list (string * StatsRow)) :=
  let cols := asset_cols df in
  let df_ := dropna (select df cols) in
  match cols with
  | [] => Raise KeyError
  | _ =>
      try! inv_n <- py_inv (len df_);
      match get_col df_ rf_col with
      | None => Raise KeyError
      | Some rf =>
          Ok (map (fun cs => (fst cs, asset_row inv_n (mean rf) (snd cs))) df_)
      end
  end.

Definition stats_table (df : DataFrame) (rf_col : string)
  : pyresult (list (string * StatsRow)) :=
  try! rows <- stats_table_raw df rf_col;
  Ok (map (fun cr => (fst cr, round_row (snd cr))) rows).

(** *** Q1_2: [summary_stats] *)

Module Summary.

Record SummaryRow : Type := mkSummaryRow {
  Mean_Return : float;
  Volatility : float;
  Excess_Return : float;
  Sharpe_Ratio : float
}.

Definition round_summary (r : SummaryRow) : SummaryRow :=
  {| Mean_Return := round4 (Mean_Return r);
     Volatility := round4 (Volatility r);
     Excess_Return := round4 (Excess_Return r);
     Sharpe_Ratio := round4 (Sharpe_Ratio r) |}.

Definition summary_stats_raw (df : DataFrame) (risk_free_rate_annual : R)
  : list (string * SummaryRow) :=
  map (fun cs =>
         let mean_ret := mean (snd cs) in
         let vol := std (snd cs) in
         let excess := fsub mean_ret (Some risk_free_rate_annual) in
         (fst cs,
          {| Mean_Return := mean_ret;
             Volatility := vol;
             Excess_Return := excess;
             Sharpe_Ratio := fdiv excess (replace0 vol) |}))
      df.

Definition summary_stats (df : DataFrame) (risk_free_rate_annual : R)
  : list (string * SummaryRow) :=
  map (fun cr => (fst cr, round_summary (snd cr)))
      (summary_stats_raw df risk_free_rate_annual).

End Summary.

(** *** Q1_6 and Q1_7: terminal wealth and annualised return *)

(** [(1 + r).cumprod()[-1]] and [(1 + r).prod()] on a numpy array: NaN
    is not skipped. *)
Definition fprod1p (rs : list float) : float :=
  fold_left (fun acc r => fmul acc (fadd (Some 1) r)) rs (Some 1).

(** Q1_6 [main], lines 27-35, for one return column: the terminal value
    of one dollar and the annualised return. *)
Definition annualised (r : list float) : pyresult (float * float) :=
  match r with
  | [] => Raise IndexError
  | _ =>
      let terminal := fprod1p r in
      try! inv_n <- py_inv (length r);
      Ok (terminal, fsub (fpow terminal inv_n) (Some 1))
  end.

(** [p[1:] / p[:-1] - 1]. *)
Fixpoint price_returns (p : list float) : list float :=
  match p with
  | p0 :: ((p1 :: _) as tl) => fsub (fdiv p1 p0) (Some 1) :: price_returns tl
  | _ => []
  end.

Record VtData : Type := mkVtData {
  annual_returns : list float;
  n_years : nat;
  terminal_per_dollar : float;
  annualised_return : float
}.

(** Q1_7 [fetch_vt_annual_returns], lines 56-70, from the year-end
    closing prices [p]. *)
Definition fetch_vt_annual_returns (p : list float) : pyresult VtData :=
  if (length p <? 2)%nat then Raise RuntimeError
  else
    let rets := price_returns p in
    let n := length rets in
    let terminal := fprod1p rets in
    try! inv_n <- py_inv n;
    Ok {| annual_returns := rets;
          n_years := n;
          terminal_per_dollar := terminal;
          annualised_return := fsub (fpow terminal inv_n) (Some 1) |}.

(** *** Sample tables *)

(** The specification's example: annual returns 10%, -5%, 8%. *)
Definition ex_returns : DataFrame :=
  [("SP500"%string, [Some 0.10; Some (-0.05); Some 0.08]);
   ("TBill"%string, [Some 0.03; Some 0.03; Some 0.03])].

(** Two tables with the same equity and bill columns; gold has a gap in
    the first year of the first table only. *)
Definition df_gold_gap : DataFrame :=
  [("SP500"%string, [Some 0; Some 0.44]);
   ("TBill"%string, [Some 0.01; Some 0.03]);
   ("Gold"%string, [NaN; Some 0.1])].

Definition df_gold_full : DataFrame :=
  [("SP500"%string, [Some 0; Some 0.44]);
   ("TBill"%string, [Some 0.01; Some 0.03]);
   ("Gold"%string, [Some 0.3; Some 0.1])].

(** One MPF category with returns 0%, 3%, 6%. *)
Definition ex_fund : DataFrame :=
  [("Fund"%string, [Some 0; Some 0.03; Some 0.06])].

End Q1.

(** ** Facts about the statistics engine *)

Module Q1Facts.

Import Q1.
Local Open Scope R_scope.

(** *** Roots and rounding *)

Lemma Rpower_inv_pow (x : R) (n : nat) :
  0 < x -> n <> O -> Rpower x (/ INR n) ^ n = x.
Proof.
  intros Hx Hn.
  rewrite <- Rpower_pow by apply exp_pos.
  rewrite Rpower_mult, Rinv_l.
  - apply Rpower_1, Hx.
  - apply not_0_INR, Hn.
Qed.

Lemma pow_lt_base (a b : R) (n : nat) :
  0 <= a -> 0 <= b -> a ^ n < b ^ n -> a < b.
Proof.
  intros Ha Hb Hlt.
  destruct (Rlt_dec a b) as [|Hge]; [assumption|].
  exfalso. apply Rnot_lt_le in Hge.
  assert (b ^ n <= a ^ n) by (apply pow_incr; split; assumption).
  lra.
Qed.

Lemma Rpower_inv_gt (a x : R) (n : nat) :
  0 <= a -> 0 < x -> n <> O -> a ^ n < x -> a < Rpower x (/ INR n).
Proof.
  intros Ha Hx Hn Hlt.
  apply (pow_lt_base _ _ n); [assumption| |].
  - left. apply exp_pos.
  - rewrite Rpower_inv_pow by assumption. exact Hlt.
Qed.

Lemma Rpower_inv_lt (b x : R) (n : nat) :
  0 <= b -> 0 < x -> n <> O -> x < b ^ n -> Rpower x (/ INR n) < b.
Proof.
  intros Hb Hx Hn Hlt.
  apply (pow_lt_base _ _ n); [|assumption|].
  - left. apply exp_pos.
  - rewrite Rpower_inv_pow by assumption. exact Hlt.
Qed.

Lemma Rpower_inv_root (a : R) (n : nat) :
  0 < a -> n <> O -> Rpower (a ^ n) (/ INR n) = a.
Proof.
  intros Ha Hn.
  rewrite <- Rpower_pow by assumption.
  rewrite Rpower_mult, Rinv_r.
  - apply Rpower_1, Ha.
  - apply not_0_INR, Hn.
Qed.

Lemma Int_part_unique (x : R) (z : Z) :
  IZR z <= x < IZR z + 1 -> Int_part x = z.
Proof.
  intros [H1 H2]. symmetry. apply Int_part_spec. lra.
Qed.

Lemma rint_IZR (z : Z) : rint (IZR z) = z.
Proof.
  unfold rint. rewrite (Int_part_unique (IZR z) z) by lra.
  destruct (Rlt_dec _ _) as [|H]; [reflexivity|]. exfalso. apply H. lra.
Qed.

Lemma rint_near (x : R) (z : Z) :
  IZR z - 1 / 2 < x < IZR z + 1 / 2 -> rint x = z.
Proof.
  intros [H1 H2]. unfold rint.
  destruct (Rle_dec (IZR z) x) as [Hle|Hgt].
  - rewrite (Int_part_unique x z) by lra.
    destruct (Rlt_dec _ _) as [|H]; [reflexivity|]. exfalso. apply H. lra.
  - apply Rnot_le_lt in Hgt.
    assert (Hp : Int_part x = (z - 1)%Z).
    { apply Int_part_unique. rewrite minus_IZR. lra. }
    rewrite Hp, minus_IZR.
    destruct (Rlt_dec _ _) as [H|H]; [exfalso; lra|].
    destruct (Rlt_dec _ _) as [H'|H']; [lia|exfalso; lra].
Qed.

(** Rounding to four decimals moves a value by at most [5e-5]. *)
Lemma rint_error (x : R) : Rabs (IZR (rint x) - x) <= 1 / 2.
Proof.
  unfold rint.
  destruct (base_Int_part x) as [H1 H2].
  destruct (Rlt_dec _ _) as [H|H].
  - apply Rabs_le. lra.
  - destruct (Rlt_dec _ _) as [H'|H'].
    + rewrite plus_IZR. apply Rabs_le. lra.
    + destruct (Z.even _); [|rewrite plus_IZR]; apply Rabs_le; lra.
Qed.

Lemma round4_value (x : R) (z : Z) :
  IZR z - 1 / 2 < x * 10000 < IZR z + 1 / 2 ->
  round4 (Some x) = Some (IZR z / 10000).
Proof.
  intros H. unfold round4. rewrite (rint_near _ z H). reflexivity.
Qed.

Lemma replace0_nonzero (a : float) : replace0 a <> Some 0.
Proof.
  destruct a as [x|]; simpl; [|discriminate].
  destruct (Req_EM_T x 0); [discriminate|]. congruence.
Qed.

(** *** Frames *)

Lemma lookup_row_In {A : Type} (c : string) (t : list (string * A)) (r : A) :
  lookup_row c t = Some r -> In (c, r) t.
Proof.
  induction t as [|[c' r'] t IH]; simpl; [discriminate|].
  destruct (String.eqb c c') eqn:E.
  - apply String.eqb_eq in E. intros [= ->]. left. congruence.
  - intros H. right. apply IH, H.
Qed.

Lemma lookup_row_map {A B : Type} (F : A -> B) (c : string) (t : list (string * A)) :
  lookup_row c (map (fun cs => (fst cs, F (snd cs))) t)
  = option_map F (lookup_row c t).
Proof.
  induction t as [|[c' r'] t IH]; simpl; [reflexivity|].
  destruct (String.eqb c c'); [reflexivity|apply IH].
Qed.

Lemma lookup_row_select (df : DataFrame) (cols : list string) (c : string) :
  lookup_row c (select df cols)
  = if existsb (String.eqb c) cols then get_col df c else None.
Proof.
  unfold select. induction cols as [|c' cols IH]; simpl; [reflexivity|].
  destruct (String.eqb c c') eqn:E.
  - apply String.eqb_eq in E. subst c'. simpl.
    destruct (get_col df c) as [s|] eqn:G; simpl.
    + rewrite String.eqb_refl. reflexivity.
    + rewrite IH. destruct (existsb _ cols); reflexivity.
  - simpl. destruct (get_col df c') as [s|]; simpl; [|apply IH].
    rewrite E. apply IH.
Qed.

Lemma kept_index_present (df : DataFrame) (i : nat) (cs : string * list float) :
  In i (kept_index df) -> In cs df ->
  exists x, nth_error (snd cs) i = Some (Some x).
Proof.
  unfold kept_index. intros Hi Hcs.
  apply filter_In in Hi. destruct Hi as [_ Hc].
  unfold complete_at in Hc. rewrite forallb_forall in Hc.
  specialize (Hc cs Hcs). simpl in Hc.
  destruct (nth_error (snd cs) i) as [[x|]|]; [|discriminate Hc|discriminate Hc].
  exists x. reflexivity.
Qed.

(** A row is kept exactly when every column has a value there. *)
Lemma kept_index_iff (df : DataFrame) (i : nat) :
  In i (kept_index df) <->
  (i < len df)%nat /\
  forall cs, In cs df -> exists x, nth_error (snd cs) i = Some (Some x).
Proof.
  split.
  - intros Hi. split.
    + unfold kept_index in Hi. apply filter_In in Hi.
      destruct Hi as [Hi _]. apply in_seq in Hi. lia.
    + intros cs Hcs. apply (kept_index_present df i cs Hi Hcs).
  - intros [Hlt Hall]. unfold kept_index. apply filter_In. split.
    + apply in_seq. lia.
    + unfold complete_at. apply forallb_forall. intros cs Hcs.
      destruct (Hall cs Hcs) as [x ->]. reflexivity.
Qed.

Lemma take_rows_present (idx : list nat) (s : list float) :
  (forall i, In i idx -> exists x, nth_error s i = Some (Some x)) ->
  take_rows idx s = map Some (dropna_values (take_rows idx s))
  /\ length (dropna_values (take_rows idx s)) = length idx.
Proof.
  unfold take_rows, dropna_values.
  induction idx as [|i idx IH]; intros H; simpl; [split; reflexivity|].
  destruct (H i (or_introl eq_refl)) as [x Hx].
  rewrite (nth_error_nth _ _ NaN Hx). simpl.
  destruct IH as [IH1 IH2].
  - intros j Hj. apply H. right. exact Hj.
  - split; [f_equal; exact IH1|f_equal; exact IH2].
Qed.

Lemma len_dropna (df : DataFrame) :
  df <> [] -> len (dropna df) = length (kept_index df).
Proof.
  destruct df as [|[c s] df]; [congruence|]. intros _.
  unfold dropna. simpl. unfold take_rows. apply length_map.
Qed.

Lemma py_inv_pos (n : nat) : n <> O -> py_inv n = Ok (/ INR n).
Proof. destruct n; [congruence|reflexivity]. Qed.

Lemma in_select (df : DataFrame) (cols : list string) (c : string) (s : list float) :
  In (c, s) (select df cols) <-> In c cols /\ get_col df c = Some s.
Proof.
  unfold select. rewrite in_flat_map. split.
  - intros [c' [Hc' Hin]].
    destruct (get_col df c') as [s'|] eqn:G; simpl in Hin; [|contradiction].
    destruct Hin as [Heq|[]]. injection Heq as -> ->. split; assumption.
  - intros [Hc G]. exists c. split; [assumption|]. rewrite G. left. reflexivity.
Qed.

Lemma stats_table_raw_eq (df : DataFrame) (rf_col : string) (srf : list float) :
  lookup_row rf_col (select df (asset_cols df)) = Some srf ->
  retained df <> [] ->
  stats_table_raw df rf_col
  = Ok (map (fun cs => (fst cs,
                        asset_row (/ INR (length (retained df)))
                                  (mean (take_rows (retained df) srf))
                                  (take_rows (retained df) (snd cs))))
            (select df (asset_cols df))).
Proof.
  intros Hrf Hidx. unfold stats_table_raw.
  destruct (asset_cols df) as [|c0 cols0] eqn:Hcols.
  { simpl in Hrf. discriminate Hrf. }
  rewrite <- Hcols in *. clear Hcols c0 cols0.
  assert (Hne : select df (asset_cols df) <> []).
  { intros E. rewrite E in Hrf. discriminate Hrf. }
  rewrite (len_dropna _ Hne). fold (retained df).
  rewrite (py_inv_pos _ (fun E => Hidx (proj1 (length_zero_iff_nil _) E))).
  simpl. unfold get_col, dropna. rewrite lookup_row_map. fold (retained df).
  rewrite Hrf. simpl. rewrite map_map. reflexivity.
Qed.

(** Every row of the raw result comes from one asset column, cut down to
    the retained rows shared by all asset columns. *)
Lemma stats_table_raw_row (df : DataFrame) (rf_col : string)
      (out : list (string * StatsRow)) (c : string) (row : StatsRow) :
  stats_table_raw df rf_col = Ok out ->
  lookup_row c out = Some row ->
  exists s srf,
    In (c, s) (select df (asset_cols df)) /\
    In (rf_col, srf) (select df (asset_cols df)) /\
    retained df <> [] /\
    row = asset_row (/ INR (length (retained df)))
                    (mean (take_rows (retained df) srf))
                    (take_rows (retained df) s).
Proof.
  intros Hout Hrow.
  assert (Hidx : retained df <> []).
  { intros E. unfold stats_table_raw in Hout.
    destruct (asset_cols df) as [|c0 cols0] eqn:Hcols; [discriminate Hout|].
    rewrite <- Hcols in *.
    assert (Hne : select df (asset_cols df) <> []).
    { unfold select. rewrite Hcols. simpl.
      assert (Hin : In c0 (asset_cols df)) by (rewrite Hcols; left; reflexivity).
      unfold asset_cols in Hin. apply filter_In in Hin. destruct Hin as [_ Hin].
      destruct (get_col df c0) as [s0|] eqn:G; [simpl; discriminate|].
      exfalso. unfold in_columns, df_columns in Hin.
      apply existsb_exists in Hin. destruct Hin as [c1 [Hc1 He]].
      apply String.eqb_eq in He. subst c1.
      clear - G Hc1. unfold get_col in G.
      induction df as [|[c' s'] df IH]; simpl in *; [contradiction|].
      destruct (String.eqb c0 c') eqn:E; [discriminate G|].
      destruct Hc1 as [->|H1]; [rewrite String.eqb_refl in E; discriminate E|].
      apply IH; assumption. }
    rewrite (len_dropna _ Hne) in Hout. fold (retained df) in Hout.
    rewrite E in Hout. simpl in Hout. discriminate Hout. }
  destruct (lookup_row rf_col (select df (asset_cols df))) as [srf|] eqn:Hrf.
  - rewrite (stats_table_raw_eq df rf_col srf Hrf Hidx) in Hout.
    injection Hout as <-.
    rewrite (lookup_row_map
               (fun s => asset_row (/ INR (length (retained df)))
                                   (mean (take_rows (retained df) srf))
                                   (take_rows (retained df) s))) in Hrow.
    destruct (lookup_row c (select df (asset_cols df))) as [s|] eqn:Hc;
      [|discriminate Hrow].
    injection Hrow as <-.
    exists s, srf.
    split; [apply lookup_row_In, Hc|].
    split; [apply lookup_row_In, Hrf|].
    split; [assumption|reflexivity].
  - exfalso. unfold stats_table_raw in Hout.
    destruct (asset_cols df) as [|c0 cols0] eqn:Hcols; [discriminate Hout|].
    rewrite <- Hcols in *.
    destruct (py_inv _) in Hout; [|discriminate Hout]. simpl in Hout.
    unfold get_col, dropna in Hout. rewrite lookup_row_map in Hout.
    rewrite Hrf in Hout. discriminate Hout.
Qed.

Lemma stats_table_row (df : DataFrame) (rf_col : string)
      (out : list (string * StatsRow)) (c : string) (row : StatsRow) :
  stats_table df rf_col = Ok out ->
  lookup_row c out = Some row ->
  exists raw rrow,
    stats_table_raw df rf_col = Ok raw /\ lookup_row c raw = Some rrow /\
    row = round_row rrow.
Proof.
  unfold stats_table. intros Hout Hrow.
  destruct (stats_table_raw df rf_col) as [raw|e]; [|discriminate Hout].
  simpl in Hout. injection Hout as <-.
  rewrite (lookup_row_map round_row) in Hrow.
  destruct (lookup_row c raw) as [rrow|] eqn:Hraw; [|discriminate Hrow].
  injection Hrow as <-. exists raw, rrow. split; [reflexivity|]. split; [exact Hraw|reflexivity].
Qed.

Lemma stats_table_eq (df : DataFrame) (rf_col : string) (srf : list float) :
  lookup_row rf_col (select df (asset_cols df)) = Some srf ->
  retained df <> [] ->
  stats_table df rf_col
  = Ok (map (fun cs => (fst cs,
                        round_row
                          (asset_row (/ INR (length (retained df)))
                                     (mean (take_rows (retained df) srf))
                                     (take_rows (retained df) (snd cs)))))
            (select df (asset_cols df))).
Proof.
  intros Hrf Hidx. unfold stats_table.
  rewrite (stats_table_raw_eq df rf_col srf Hrf Hidx). simpl.
  rewrite map_map. reflexivity.
Qed.

Lemma dropna_values_map_Some (rs : list R) : dropna_values (map Some rs) = rs.
Proof.
  unfold dropna_values. induction rs as [|r rs IH]; simpl; [reflexivity|].
  f_equal. exact IH.
Qed.

Lemma prod1p_nonneg (rs : list R) :
  Forall (fun r => -1 <= r) rs -> 0 <= prod1p rs.
Proof.
  induction 1 as [|r rs Hr _ IH]; simpl; [lra|].
  apply Rmult_le_pos; lra.
Qed.

(** Taking the [n]-th root and compounding again over [n] periods. *)
Lemma recompound (t : R) (n : nat) :
  0 <= t -> n <> O ->
  exists a, fsub (fpow (Some t) (/ INR n)) (Some 1) = Some a /\ (1 + a) ^ n = t.
Proof.
  intros Ht Hn. unfold fpow.
  destruct (Rlt_dec 0 t) as [Hpos|Hnpos].
  - exists (Rpower t (/ INR n) - 1). split; [reflexivity|].
    replace (1 + (Rpower t (/ INR n) - 1)) with (Rpower t (/ INR n)) by lra.
    apply Rpower_inv_pow; assumption.
  - assert (t = 0) as -> by lra.
    destruct (Req_EM_T 0 0) as [_|Hne]; [|congruence].
    exists (0 - 1). split; [reflexivity|].
    replace (1 + (0 - 1)) with 0 by lra.
    destruct n as [|n]; [congruence|]. simpl. lra.
Qed.

Lemma annualised_eq (r : list float) :
  r <> [] ->
  annualised r
  = (try! inv_n <- py_inv (length r);
     Ok (fprod1p r, fsub (fpow (fprod1p r) inv_n) (Some 1))).
Proof. destruct r; [congruence|reflexivity]. Qed.

Lemma fprod1p_acc (rs : list R) (acc : R) :
  0 < acc -> Forall (fun r => 0 < 1 + r) rs ->
  exists t, fold_left (fun a r => fmul a (fadd (Some 1) r)) (map Some rs) (Some acc)
            = Some t /\ 0 < t.
Proof.
  revert acc. induction rs as [|r rs IH]; intros acc Hacc Hall; simpl.
  - exists acc. split; [reflexivity|assumption].
  - inversion Hall as [|? ? Hr Hrs]; subst.
    apply IH; [|assumption]. apply Rmult_lt_0_compat; assumption.
Qed.

Lemma price_returns_pos (p : list R) :
  Forall (fun x => 0 < x) p ->
  exists rs, price_returns (map Some p) = map Some rs
             /\ length rs = pred (length p)
             /\ Forall (fun r => 0 < 1 + r) rs.
Proof.
  induction p as [|p0 p IH]; intros Hall.
  - exists []. repeat split. constructor.
  - inversion Hall as [|? ? Hp0 Hp]; subst.
    destruct p as [|p1 p].
    + exists []. repeat split. constructor.
    + destruct (IH Hp) as [rs [Hrs [Hlen Hpos]]].
      inversion Hp as [|? ? Hp1 _]; subst.
      exists ((p1 / p0 - 1) :: rs).
      change (price_returns (map Some (p0 :: p1 :: p)))
        with (fsub (fdiv (Some p1) (Some p0)) (Some 1)
                :: price_returns (map Some (p1 :: p))).
      rewrite Hrs. unfold fdiv.
      destruct (Req_EM_T p0 0) as [E|_]; [lra|].
      split; [reflexivity|]. split; [simpl in *; lia|].
      constructor; [|assumption].
      replace (1 + (p1 / p0 - 1)) with (p1 / p0) by lra.
      apply Rdiv_lt_0_compat; assumption.
Qed.

(** *** The specification's example, evaluated *)

Lemma third_is_inv_INR : / 3 = / INR 3.
Proof. simpl. f_equal. lra. Qed.

Lemma ex_returns_root_bounds :
  1.04115 < Rpower ((1 + 0.10) * ((1 + -0.05) * ((1 + 0.08) * 1))) (/ INR 3) < 1.04116.
Proof.
  split.
  - apply Rpower_inv_gt; [lra|lra|lia|]. simpl. lra.
  - apply Rpower_inv_lt; [lra|lra|lia|]. simpl. lra.
Qed.

Ltac eval_series :=
  cbn [take_rows map nth dropna_values flat_map app prod1p sum fold_right
       length fst snd].

Lemma ex_returns_sp500 :
  exists out row,
    stats_table ex_returns "TBill" = Ok out /\
    lookup_row "SP500"%string out = Some row /\
    Annualized_Return row = Some (412 / 10000).
Proof.
  assert (Hidx : retained ex_returns = [0; 1; 2]%nat) by reflexivity.
  rewrite (stats_table_eq ex_returns "TBill" [Some 0.03; Some 0.03; Some 0.03])
    by (reflexivity || (rewrite Hidx; discriminate)).
  rewrite Hidx.
  eexists. eexists. split; [reflexivity|]. split; [reflexivity|].
  cbn [Annualized_Return round_row asset_row]. unfold geo_ret. eval_series.
  unfold fpow. destruct (Rlt_dec _ _) as [Hp|Hp]; [|exfalso; apply Hp; lra].
  cbn [fsub]. apply round4_value.
  pose proof ex_returns_root_bounds as Hb. lra.
Qed.

(** C3, as stated, fails at its own example: for annual returns 10%,
    -5%, 8% the reported annualized return is 0.0412, and both it and
    the exact value [(1.10 * 0.95 * 1.08)^(1/3) - 1] are more than
    0.0005 away from 0.0405. *)
Lemma annualized_return_example_is_not_0405 :
  exists out row g,
    stats_table ex_returns "TBill" = Ok out /\
    lookup_row "SP500"%string out = Some row /\
    Annualized_Return row = Some g /\
    0.0005 < Rabs (g - 0.0405) /\
    0.0005 < Rabs (Rpower (1.10 * 0.95 * 1.08) (/ 3) - 1 - 0.0405).
Proof.
  destruct ex_returns_sp500 as [out [row [Hout [Hrow Hval]]]].
  exists out, row, (412 / 10000).
  split; [exact Hout|]. split; [exact Hrow|]. split; [exact Hval|]. split.
  - rewrite Rabs_right; lra.
  - rewrite third_is_inv_INR.
    replace (1.10 * 0.95 * 1.08)
      with ((1 + 0.10) * ((1 + -0.05) * ((1 + 0.08) * 1))) by lra.
    pose proof ex_returns_root_bounds as Hb.
    rewrite Rabs_right; lra.
Qed.

(** C3, amended.  For every asset row of the table [stats_table]
    returns, with [rs] the asset's returns over the [n] retained rows:
    the reported annualized return is the geometric mean
    [(prod (1 + r_i))^(1/n) - 1] rounded to four decimals; when the
    product is positive that mean [g] satisfies [(1 + g)^n = prod (1 +
    r_i)].  For the annual returns 10%, -5%, 8% the reported value is
    0.0412. *)
Theorem stats_table_annualized_return :
  (forall (df : DataFrame) (rf_col : string) (out : list (string * StatsRow))
          (c : string) (row : StatsRow),
      stats_table df rf_col = Ok out ->
      lookup_row c out = Some row ->
      exists (s : list float) (rs : list R),
        get_col df c = Some s /\
        take_rows (retained df) s = map Some rs /\
        length rs = length (retained df) /\ rs <> [] /\
        Annualized_Return row
        = round4 (fsub (fpow (Some (prod1p rs)) (/ INR (length rs))) (Some 1)) /\
        (0 < prod1p rs ->
         exists g, Annualized_Return row = round4 (Some g) /\
                   g = Rpower (prod1p rs) (/ INR (length rs)) - 1 /\
                   (1 + g) ^ length rs = prod1p rs))
  /\ (exists out row,
        stats_table ex_returns "TBill" = Ok out /\
        lookup_row "SP500"%string out = Some row /\
        Annualized_Return row = Some (412 / 10000)).
Proof.
  split; [|exact ex_returns_sp500].
  intros df rf_col out c row Hout Hrow.
  destruct (stats_table_row df rf_col out c row Hout Hrow)
    as [raw [rrow [Hraw [Hrrow ->]]]].
  destruct (stats_table_raw_row df rf_col raw c rrow Hraw Hrrow)
    as [s [srf [Hc [_ [Hidx ->]]]]].
  destruct (take_rows_present (retained df) s) as [Hvals Hlen].
  { intros i Hi. apply (kept_index_present _ i (c, s) Hi Hc). }
  exists s, (dropna_values (take_rows (retained df) s)).
  split; [apply in_select in Hc; apply Hc|].
  split; [exact Hvals|]. split; [exact Hlen|].
  assert (Hne : dropna_values (take_rows (retained df) s) <> []).
  { intros E. rewrite E in Hlen. simpl in Hlen.
    apply Hidx. symmetry in Hlen. apply length_zero_iff_nil, Hlen. }
  split; [exact Hne|].
  cbn [Annualized_Return round_row asset_row]. unfold geo_ret. rewrite Hlen.
  split; [reflexivity|].
  intros Hpos. unfold fpow.
  destruct (Rlt_dec _ _) as [_|Hn]; [|contradiction].
  eexists. split; [reflexivity|]. split; [reflexivity|].
  match goal with |- (1 + (?r - 1)) ^ _ = _ => replace (1 + (r - 1)) with r by lra end.
  rewrite <- Hlen. apply Rpower_inv_pow; [exact Hpos|].
  intros E. apply Hne. apply length_zero_iff_nil, E.
Qed.

Lemma stats_table_annualized_return_witness :
  exists (s : list float) (rs : list R),
    get_col ex_returns "SP500" = Some s /\
    take_rows (retained ex_returns) s = map Some rs /\
    length rs = length (retained ex_returns) /\ rs <> [].
Proof.
  destruct ex_returns_sp500 as [out [row [Hout [Hrow _]]]].
  destruct (proj1 stats_table_annualized_return
                  ex_returns "TBill"%string out "SP500"%string row Hout Hrow)
    as [s [rs [H1 [H2 [H3 [H4 _]]]]]].
  exists s, rs. repeat split; assumption.
Defined.

(** The yearly returns of a price series in the specification's words:
    each year-end price over the one before, minus one. *)
Fixpoint returns_of_prices (p0 : R) (p : list R) : list R :=
  match p with
  | [] => []
  | p1 :: p' => (p1 / p0 - 1) :: returns_of_prices p1 p'
  end.

(** One asset that loses more than everything in its first year. *)
Definition ex_wipeout : DataFrame :=
  [("SP500"%string, [Some (-1.5); Some 0.1]);
   ("TBill"%string, [Some 0.03; Some 0.03])].

Lemma price_returns_explicit (p0 : R) (p : list R) :
  0 < p0 -> Forall (fun x => 0 < x) p ->
  price_returns (map Some (p0 :: p)) = map Some (returns_of_prices p0 p).
Proof.
  revert p0. induction p as [|p1 p IH]; intros p0 Hp0 Hall; [reflexivity|].
  inversion Hall as [|? ? Hp1 Hp]; subst.
  change (price_returns (map Some (p0 :: p1 :: p)))
    with (fsub (fdiv (Some p1) (Some p0)) (Some 1)
            :: price_returns (map Some (p1 :: p))).
  rewrite (IH p1 Hp1 Hp). unfold fdiv.
  destruct (Req_EM_T p0 0) as [E|_]; [lra|]. reflexivity.
Qed.

Lemma returns_of_prices_length (p0 : R) (p : list R) :
  length (returns_of_prices p0 p) = length p.
Proof.
  revert p0. induction p as [|p1 p IH]; intros p0; [reflexivity|].
  simpl. rewrite IH. reflexivity.
Qed.

Lemma returns_of_prices_pos (p0 : R) (p : list R) :
  0 < p0 -> Forall (fun x => 0 < x) p ->
  Forall (fun r => 0 < 1 + r) (returns_of_prices p0 p).
Proof.
  revert p0. induction p as [|p1 p IH]; intros p0 Hp0 Hall; [constructor|].
  inversion Hall as [|? ? Hp1 Hp]; subst. simpl. constructor.
  - replace (1 + (p1 / p0 - 1)) with (p1 / p0) by lra.
    apply Rdiv_lt_0_compat; assumption.
  - apply IH; assumption.
Qed.

Lemma fold_fprod_map_Some (rs : list R) (acc : R) :
  fold_left (fun a r => fmul a (fadd (Some 1) r)) (map Some rs) (Some acc)
  = Some (acc * prod1p rs).
Proof.
  revert acc. induction rs as [|r rs IH]; intros acc; simpl.
  - f_equal. lra.
  - rewrite IH. f_equal. lra.
Qed.

Lemma fprod1p_map_Some (rs : list R) : fprod1p (map Some rs) = Some (prod1p rs).
Proof. unfold fprod1p. rewrite fold_fprod_map_Some. f_equal. lra. Qed.

Lemma prod1p_pos (rs : list R) :
  Forall (fun r => 0 < 1 + r) rs -> 0 < prod1p rs.
Proof.
  induction 1 as [|r rs Hr _ IH]; simpl; [lra|].
  apply Rmult_lt_0_compat; assumption.
Qed.

(** C8, as stated, fails for a series whose wealth multiple is
    negative: with returns -150% and 10% the multiple is -0.55, its
    square root is not a number, and [stats_table] reports NaN as the
    annualized return, which no re-compounding turns into -0.55. *)
Lemma recompounding_fails_on_negative_multiple :
  exists out row,
    stats_table ex_wipeout "TBill" = Ok out /\
    lookup_row "SP500"%string out = Some row /\
    Annualized_Return row = NaN /\
    prod1p [-1.5; 0.1] = -0.55.
Proof.
  assert (Hidx : retained ex_wipeout = [0; 1]%nat) by reflexivity.
  rewrite (stats_table_eq ex_wipeout "TBill" [Some 0.03; Some 0.03])
    by (reflexivity || (rewrite Hidx; discriminate)).
  rewrite Hidx.
  eexists. eexists. split; [reflexivity|]. split; [reflexivity|].
  split; [|simpl; lra].
  cbn [Annualized_Return round_row asset_row]. unfold geo_ret. eval_series.
  unfold fpow.
  destruct (Rlt_dec _ _) as [Hp|_]; [exfalso; lra|].
  destruct (Req_EM_T _ 0) as [E|_]; [exfalso; lra|].
  destruct (Req_EM_T _ 1) as [E|_]; [exfalso; simpl in E; lra|].
  reflexivity.
Qed.

(** C8, amended.  Floats are read as real numbers, so the equality is
    exact.  For a non-empty series of [n] returns whose wealth multiple
    [prod (1 + r_i)] is not negative (in particular when no return is
    below -100%), the geometric return [g] computed by [stats_table]
    satisfies [(1 + g)^n = prod (1 + r_i)]; with a negative multiple
    and [n >= 2] the computed return is NaN.  In the table of
    [stats_table] the annualized return of every asset is that [g],
    over the retained rows, rounded to four decimals.  For positive
    year-end prices [fetch_vt_annual_returns] returns the yearly price
    returns, their number, their wealth multiple and an annualised
    return that re-compounds to that multiple; and the same holds of
    the annualised return of the global-versus-HK comparison. *)
Theorem recompounding_reproduces_terminal_wealth :
  (forall rs : list R,
      rs <> [] -> 0 <= prod1p rs ->
      exists g, geo_ret (map Some rs) (/ INR (length rs)) = Some g /\
                (1 + g) ^ length rs = prod1p rs)
  /\ (forall rs : list R,
        (2 <= length rs)%nat -> prod1p rs < 0 ->
        geo_ret (map Some rs) (/ INR (length rs)) = NaN)
  /\ (forall (df : DataFrame) (rf_col c : string) (srf s : list float),
        lookup_row rf_col (select df (asset_cols df)) = Some srf ->
        lookup_row c (select df (asset_cols df)) = Some s ->
        retained df <> [] ->
        exists out row rs,
          stats_table df rf_col = Ok out /\
          lookup_row c out = Some row /\
          take_rows (retained df) s = map Some rs /\
          length rs = length (retained df) /\
          (0 <= prod1p rs ->
           exists g, Annualized_Return row = round4 (Some g) /\
                     (1 + g) ^ length rs = prod1p rs))
  /\ (forall (p0 : R) (p : list R),
        0 < p0 -> Forall (fun x => 0 < x) p -> p <> [] ->
        exists d a,
          fetch_vt_annual_returns (map Some (p0 :: p)) = Ok d /\
          annual_returns d = map Some (returns_of_prices p0 p) /\
          n_years d = length p /\
          terminal_per_dollar d = Some (prod1p (returns_of_prices p0 p)) /\
          annualised_return d = Some a /\
          (1 + a) ^ n_years d = prod1p (returns_of_prices p0 p))
  /\ (forall rs : list R,
        rs <> [] -> 0 <= prod1p rs ->
        exists a,
          annualised (map Some rs) = Ok (Some (prod1p rs), Some a) /\
          (1 + a) ^ length rs = prod1p rs).
Proof.
  split; [|split; [|split; [|split]]].
  - intros rs Hne Hnn. unfold geo_ret. rewrite dropna_values_map_Some.
    apply recompound; [exact Hnn|].
    intros E. apply Hne, length_zero_iff_nil, E.
  - intros rs Hlen Hneg. unfold geo_ret. rewrite dropna_values_map_Some.
    unfold fpow.
    destruct (Rlt_dec 0 (prod1p rs)) as [Hp|_]; [exfalso; lra|].
    destruct (Req_EM_T (prod1p rs) 0) as [E|_]; [exfalso; lra|].
    destruct (Req_EM_T (/ INR (length rs)) 1) as [E|_]; [|reflexivity].
    exfalso.
    assert (Hn : 2 <= INR (length rs)).
    { change 2 with (INR 2). apply le_INR, Hlen. }
    assert (Hinv : INR (length rs) * / INR (length rs) = 1)
      by (apply Rinv_r; lra).
    rewrite E in Hinv. lra.
  - intros df rf_col c srf s Hrf Hc Hidx.
    rewrite (stats_table_eq df rf_col srf Hrf Hidx).
    destruct (take_rows_present (retained df) s) as [Hvals Hlen].
    { intros i Hi.
      apply (kept_index_present _ i (c, s) Hi (lookup_row_In _ _ _ Hc)). }
    eexists. eexists. exists (dropna_values (take_rows (retained df) s)).
    split; [reflexivity|]. split.
    { rewrite (lookup_row_map
                 (fun s0 => round_row
                    (asset_row (/ INR (length (retained df)))
                               (mean (take_rows (retained df) srf))
                               (take_rows (retained df) s0)))).
      rewrite Hc. reflexivity. }
    split; [exact Hvals|]. split; [exact Hlen|].
    intros Hnn. cbn [Annualized_Return round_row asset_row]. unfold geo_ret.
    rewrite <- Hlen.
    destruct (recompound (prod1p (dropna_values (take_rows (retained df) s)))
                         (length (dropna_values (take_rows (retained df) s)))
                         Hnn) as [g [Hg Hpow]].
    { rewrite Hlen. intros E. apply Hidx, length_zero_iff_nil, E. }
    exists g. rewrite Hg. split; [reflexivity|exact Hpow].
  - intros p0 p Hp0 Hall Hne. unfold fetch_vt_annual_returns.
    assert (Hlong : (length (map Some (p0 :: p)) <? 2)%nat = false).
    { apply Nat.ltb_ge. cbn [map length]. rewrite length_map.
      destruct p; [congruence|simpl; lia]. }
    rewrite Hlong, (price_returns_explicit p0 p Hp0 Hall).
    rewrite length_map, returns_of_prices_length, fprod1p_map_Some.
    assert (Hn : length p <> O) by (destruct p; [congruence|discriminate]).
    rewrite (py_inv_pos _ Hn). cbn [bind].
    pose proof (prod1p_pos _ (returns_of_prices_pos p0 p Hp0 Hall)) as Hpos.
    destruct (recompound (prod1p (returns_of_prices p0 p)) (length p)
                         ltac:(lra) Hn) as [a [Ha Hpow]].
    eexists. exists a.
    split; [reflexivity|].
    cbn [annual_returns n_years terminal_per_dollar annualised_return].
    split; [reflexivity|]. split; [reflexivity|]. split; [reflexivity|].
    split; [exact Ha|exact Hpow].
  - intros rs Hne Hnn.
    assert (Hn : length rs <> O).
    { intros E. apply Hne, length_zero_iff_nil, E. }
    rewrite annualised_eq by (destruct rs; [congruence|discriminate]).
    rewrite length_map, (py_inv_pos _ Hn), fprod1p_map_Some. cbn [bind].
    destruct (recompound (prod1p rs) (length rs) Hnn Hn) as [a [Ha Hpow]].
    exists a. rewrite Ha. split; [reflexivity|exact Hpow].
Qed.

Lemma recompounding_reproduces_terminal_wealth_witness :
  exists d a,
    fetch_vt_annual_returns (map Some [100; 110; 99]) = Ok d /\
    annual_returns d = map Some (returns_of_prices 100 [110; 99]) /\
    n_years d = 2%nat /\
    terminal_per_dollar d = Some (prod1p (returns_of_prices 100 [110; 99])) /\
    annualised_return d = Some a /\
    (1 + a) ^ n_years d = prod1p (returns_of_prices 100 [110; 99]).
Proof.
  apply (proj1 (proj2 (proj2 (proj2 recompounding_reproduces_terminal_wealth)))
               100 [110; 99]).
  - lra.
  - repeat constructor; lra.
  - discriminate.
Defined.

(** *** Sharpe ratio *)

Lemma fdiv_replace0_zero (a : float) : fdiv a (replace0 (Some 0)) = NaN.
Proof.
  unfold replace0. destruct (Req_EM_T 0 0) as [_|H]; [|congruence].
  destruct a; reflexivity.
Qed.

Lemma fdiv_replace0_nonzero (x v : R) :
  v <> 0 -> fdiv (Some x) (replace0 (Some v)) = Some (x / v).
Proof.
  intros Hv. unfold replace0, fdiv.
  destruct (Req_EM_T v 0) as [E|_]; [contradiction|].
  destruct (Req_EM_T v 0) as [E|_]; [contradiction|reflexivity].
Qed.

Lemma ex_fund_mean : mean [Some 0; Some 0.03; Some 0.06] = Some 0.03.
Proof. unfold mean. eval_series. f_equal. simpl INR. lra. Qed.

Lemma ex_fund_std : std [Some 0; Some 0.03; Some 0.06] = Some 0.03.
Proof.
  unfold std. eval_series. unfold fsqrt.
  destruct (Rlt_dec _ _) as [H|_].
  - exfalso. simpl INR in H. lra.
  - f_equal. apply sqrt_lem_1; [simpl INR; lra|lra|simpl INR; lra].
Qed.

(** C4, as stated, fails: the reported ratio is rounded to four
    decimals.  For one category with returns 0%, 3%, 6% and a risk-free
    rate of 2%, mean and volatility are both 0.03, so (mean - rf) /
    volatility is 1/3, and the reported Sharpe ratio is 0.3333. *)
Lemma sharpe_ratio_reported_is_rounded :
  exists row,
    lookup_row "Fund"%string (Summary.summary_stats ex_fund 0.02) = Some row /\
    mean [Some 0; Some 0.03; Some 0.06] = Some 0.03 /\
    std [Some 0; Some 0.03; Some 0.06] = Some 0.03 /\
    Summary.Sharpe_Ratio row = Some (3333 / 10000) /\
    3333 / 10000 <> (0.03 - 0.02) / 0.03.
Proof.
  eexists. split; [reflexivity|].
  split; [exact ex_fund_mean|]. split; [exact ex_fund_std|].
  split; [|lra].
  cbn [Summary.Sharpe_Ratio Summary.round_summary snd].
  rewrite ex_fund_mean, ex_fund_std. cbn [fsub].
  rewrite fdiv_replace0_nonzero by lra.
  apply round4_value. lra.
Qed.

(** C4, amended.  In the table of [stats_table], with [g], [v] and [m]
    the geometric annualized return and the volatility of the asset and
    the mean of the risk-free column over the retained rows, and in the
    table of [summary_stats], with the mean return and the volatility
    of the category and the constant risk-free rate: a volatility of
    exactly zero gives a NaN Sharpe ratio, any other volatility gives
    (return - risk-free) / volatility rounded to four decimals; and
    [stats_table] returns a table whenever the risk-free column is one
    of the asset columns and some row is retained, whatever the
    volatilities are. *)
Theorem sharpe_ratio_reported :
  (forall (df : DataFrame) (rf_col : string) (out : list (string * StatsRow))
          (c : string) (row : StatsRow),
      stats_table df rf_col = Ok out ->
      lookup_row c out = Some row ->
      exists (s srf : list float),
        get_col df c = Some s /\ get_col df rf_col = Some srf /\
        let g := geo_ret (take_rows (retained df) s) (/ INR (length (retained df))) in
        let v := std (take_rows (retained df) s) in
        let m := mean (take_rows (retained df) srf) in
        (v = Some 0 -> Sharpe_Ratio row = NaN) /\
        (forall gx mx vx : R,
            g = Some gx -> m = Some mx -> v = Some vx -> vx <> 0 ->
            Sharpe_Ratio row = round4 (Some ((gx - mx) / vx))))
  /\ (forall (df : DataFrame) (rf : R) (c : string) (row : Summary.SummaryRow),
        lookup_row c (Summary.summary_stats df rf) = Some row ->
        exists s : list float,
          get_col df c = Some s /\
          (std s = Some 0 -> Summary.Sharpe_Ratio row = NaN) /\
          (forall mx vx : R,
              mean s = Some mx -> std s = Some vx -> vx <> 0 ->
              Summary.Sharpe_Ratio row = round4 (Some ((mx - rf) / vx))))
  /\ (forall (df : DataFrame) (rf_col : string) (srf : list float),
        lookup_row rf_col (select df (asset_cols df)) = Some srf ->
        retained df <> [] ->
        exists out, stats_table df rf_col = Ok out).
Proof.
  split; [|split].
  - intros df rf_col out c row Hout Hrow.
    destruct (stats_table_row df rf_col out c row Hout Hrow)
      as [raw [rrow [Hraw [Hrrow ->]]]].
    destruct (stats_table_raw_row df rf_col raw c rrow Hraw Hrrow)
      as [s [srf [Hc [Hrf [Hidx ->]]]]].
    exists s, srf.
    split; [apply in_select in Hc; apply Hc|].
    split; [apply in_select in Hrf; apply Hrf|].
    cbn [Sharpe_Ratio round_row asset_row]. split.
    + intros ->. rewrite fdiv_replace0_zero. reflexivity.
    + intros gx mx vx -> -> -> Hvx. cbn [fsub].
      rewrite fdiv_replace0_nonzero by exact Hvx. reflexivity.
  - intros df rf c row Hrow. unfold Summary.summary_stats, Summary.summary_stats_raw in Hrow.
    rewrite map_map in Hrow. cbn [fst snd] in Hrow.
    rewrite (lookup_row_map
               (fun s => Summary.round_summary
                  {| Summary.Mean_Return := mean s;
                     Summary.Volatility := std s;
                     Summary.Excess_Return := fsub (mean s) (Some rf);
                     Summary.Sharpe_Ratio := fdiv (fsub (mean s) (Some rf))
                                           (replace0 (std s)) |})) in Hrow.
    destruct (lookup_row c df) as [s|] eqn:Hs; [|discriminate Hrow].
    injection Hrow as <-. exists s. split; [exact Hs|].
    cbn [Summary.Sharpe_Ratio Summary.round_summary]. split.
    + intros ->. rewrite fdiv_replace0_zero. reflexivity.
    + intros mx vx -> -> Hvx. cbn [fsub].
      rewrite fdiv_replace0_nonzero by exact Hvx. reflexivity.
  - intros df rf_col srf Hrf Hidx. eexists.
    apply (stats_table_eq df rf_col srf Hrf Hidx).
Qed.

(** The treasury-bill column of the example table is constant, its
    volatility is zero, and its Sharpe ratio is reported as NaN. *)
Lemma sharpe_ratio_reported_witness :
  exists out row,
    stats_table ex_returns "TBill" = Ok out /\
    lookup_row "TBill"%string out = Some row /\
    Sharpe_Ratio row = NaN.
Proof.
  destruct (proj2 (proj2 sharpe_ratio_reported) ex_returns "TBill"%string
                  [Some 0.03; Some 0.03; Some 0.03] eq_refl)
    as [out Hout]; [discriminate|].
  assert (Hrow : exists row, lookup_row "TBill"%string out = Some row).
  { rewrite (stats_table_eq ex_returns "TBill" [Some 0.03; Some 0.03; Some 0.03])
      in Hout by (reflexivity || discriminate).
    injection Hout as <-. eexists. reflexivity. }
  destruct Hrow as [row Hrow]. exists out, row.
  split; [exact Hout|]. split; [exact Hrow|].
  destruct (proj1 sharpe_ratio_reported ex_returns "TBill"%string out
                  "TBill"%string row Hout Hrow)
    as [s [srf [Hs [_ [Hzero _]]]]].
  injection Hs as <-. apply Hzero.
  change (retained ex_returns) with [0; 1; 2]%nat.
  unfold std. eval_series. unfold fsqrt.
  destruct (Rlt_dec _ _) as [H|_].
  - exfalso. simpl INR in H. lra.
  - f_equal. apply sqrt_lem_1; [simpl INR; lra|lra|simpl INR; lra].
Defined.

(** *** Missing data *)

Lemma in_columns_get_col (df : DataFrame) (c : string) :
  in_columns c df = true -> exists s, get_col df c = Some s.
Proof.
  unfold in_columns, df_columns, get_col.
  induction df as [|[c' s'] df IH]; simpl; [discriminate|].
  destruct (String.eqb c c'); [intros _; exists s'; reflexivity|].
  simpl. exact IH.
Qed.

Lemma gold_gap_sp500 :
  exists out row,
    stats_table df_gold_gap "TBill" = Ok out /\
    lookup_row "SP500"%string out = Some row /\
    Annualized_Return row = Some (4400 / 10000).
Proof.
  assert (Hidx : retained df_gold_gap = [1]%nat) by reflexivity.
  rewrite (stats_table_eq df_gold_gap "TBill" [Some 0.01; Some 0.03])
    by (reflexivity || (rewrite Hidx; discriminate)).
  rewrite Hidx.
  eexists. eexists. split; [reflexivity|]. split; [reflexivity|].
  cbn [Annualized_Return round_row asset_row]. unfold geo_ret. eval_series.
  unfold fpow. destruct (Rlt_dec _ _) as [Hp|Hp]; [|exfalso; apply Hp; lra].
  cbn [fsub]. apply round4_value.
  assert (H1 : 1.43999 < Rpower ((1 + 0.44) * 1) (/ INR 1)).
  { apply Rpower_inv_gt; [lra|lra|lia|]. simpl. lra. }
  assert (H2 : Rpower ((1 + 0.44) * 1) (/ INR 1) < 1.44001).
  { apply Rpower_inv_lt; [lra|lra|lia|]. simpl. lra. }
  lra.
Qed.

Lemma gold_full_sp500 :
  exists out row,
    stats_table df_gold_full "TBill" = Ok out /\
    lookup_row "SP500"%string out = Some row /\
    Annualized_Return row = Some (2000 / 10000).
Proof.
  assert (Hidx : retained df_gold_full = [0; 1]%nat) by reflexivity.
  rewrite (stats_table_eq df_gold_full "TBill" [Some 0.01; Some 0.03])
    by (reflexivity || (rewrite Hidx; discriminate)).
  rewrite Hidx.
  eexists. eexists. split; [reflexivity|]. split; [reflexivity|].
  cbn [Annualized_Return round_row asset_row]. unfold geo_ret. eval_series.
  unfold fpow. destruct (Rlt_dec _ _) as [Hp|Hp]; [|exfalso; apply Hp; lra].
  cbn [fsub]. apply round4_value.
  assert (H1 : 1.19999 < Rpower ((1 + 0) * ((1 + 0.44) * 1)) (/ INR 2)).
  { apply Rpower_inv_gt; [lra|lra|lia|]. simpl. lra. }
  assert (H2 : Rpower ((1 + 0) * ((1 + 0.44) * 1)) (/ INR 2) < 1.20001).
  { apply Rpower_inv_lt; [lra|lra|lia|]. simpl. lra. }
  lra.
Qed.

(** C5, as stated, fails.  The two tables have the same equity and bill
    columns, without any gap; in the first the gold column misses the
    first year.  That year is dropped for the equity column too, and
    the equity's reported annualized return is 0.44 in the first table
    and 0.20 in the second. *)
Lemma stats_table_not_per_asset :
  get_col df_gold_gap "SP500" = get_col df_gold_full "SP500" /\
  get_col df_gold_gap "TBill" = get_col df_gold_full "TBill" /\
  retained df_gold_gap = [1]%nat /\
  exists out1 row1 out2 row2,
    stats_table df_gold_gap "TBill" = Ok out1 /\
    lookup_row "SP500"%string out1 = Some row1 /\
    stats_table df_gold_full "TBill" = Ok out2 /\
    lookup_row "SP500"%string out2 = Some row2 /\
    Annualized_Return row1 = Some (4400 / 10000) /\
    Annualized_Return row2 = Some (2000 / 10000) /\
    row1 <> row2.
Proof.
  split; [reflexivity|]. split; [reflexivity|]. split; [reflexivity|].
  destruct gold_gap_sp500 as [out1 [row1 [H1 [H2 H3]]]].
  destruct gold_full_sp500 as [out2 [row2 [H4 [H5 H6]]]].
  exists out1, row1, out2, row2.
  repeat (split; [assumption|]).
  intros E. rewrite E, H6 in H3. injection H3 as H3. lra.
Qed.

(** C5, amended.  [stats_table] drops rows listwise: a row is retained
    exactly when every asset column of the table has a value in it, and
    every asset's row of the result is computed from that asset's
    column and the risk-free column cut down to those same retained
    rows. *)
Theorem stats_table_listwise_deletion
        (df : DataFrame) (rf_col : string) (out : list (string * StatsRow)) :
  stats_table df rf_col = Ok out ->
  (forall i : nat,
      In i (retained df) <->
      (i < len (select df (asset_cols df)))%nat /\
      forall c, In c (asset_cols df) ->
                exists s x, get_col df c = Some s /\ nth_error s i = Some (Some x))
  /\ (forall (c : string) (row : StatsRow),
        lookup_row c out = Some row ->
        exists s srf,
          get_col df c = Some s /\ get_col df rf_col = Some srf /\
          row = round_row
                  (asset_row (/ INR (length (retained df)))
                             (mean (take_rows (retained df) srf))
                             (take_rows (retained df) s))).
Proof.
  intros Hout. split.
  - intros i. unfold retained. rewrite kept_index_iff.
    split; intros [Hlt Hall]; (split; [exact Hlt|]).
    + intros c Hc.
      assert (Hin : in_columns c df = true).
      { unfold asset_cols in Hc. apply filter_In in Hc. apply Hc. }
      destruct (in_columns_get_col df c Hin) as [s Hs].
      destruct (Hall (c, s)) as [x Hx]; [apply in_select; split; assumption|].
      exists s, x. split; assumption.
    + intros [c s] Hcs. apply in_select in Hcs. destruct Hcs as [Hc Hs].
      destruct (Hall c Hc) as [s' [x [Hs' Hx]]].
      rewrite Hs in Hs'. injection Hs' as <-. exists x. exact Hx.
  - intros c row Hrow.
    destruct (stats_table_row df rf_col out c row Hout Hrow)
      as [raw [rrow [Hraw [Hrrow ->]]]].
    destruct (stats_table_raw_row df rf_col raw c rrow Hraw Hrrow)
      as [s [srf [Hc [Hrf [Hidx ->]]]]].
    exists s, srf.
    split; [apply in_select in Hc; apply Hc|].
    split; [apply in_select in Hrf; apply Hrf|reflexivity].
Qed.

Lemma stats_table_listwise_deletion_witness :
  exists out,
    stats_table df_gold_gap "TBill" = Ok out /\
    (In 0%nat (retained df_gold_gap) <->
     (0 < len (select df_gold_gap (asset_cols df_gold_gap)))%nat /\
     forall c, In c (asset_cols df_gold_gap) ->
               exists s x, get_col df_gold_gap c = Some s
                           /\ nth_error s 0 = Some (Some x)).
Proof.
  destruct gold_gap_sp500 as [out [_ [Hout _]]].
  exists out. split; [exact Hout|].
  apply (proj1 (stats_table_listwise_deletion df_gold_gap "TBill" out Hout) 0%nat).
Defined.

End Q1Facts.

(** ** More on the statistics engine *)

Module Q1More.

Import Q1 Q1Facts.
Local Open Scope R_scope.

(** The example table with a [Year] column that has a gap. *)
Definition ex_returns_with_year : DataFrame :=
  ("Year"%string, [Some 2001; NaN; Some 2003]) :: ex_returns.

(** A table without the treasury-bill column. *)
Definition ex_no_tbill : DataFrame :=
  [("SP500"%string, [Some 0.10; Some (-0.05); Some 0.08])].

(** *** Which columns [stats_table] reads *)

Lemma in_columns_spec (df : DataFrame) (c : string) :
  in_columns c df = match get_col df c with Some _ => true | None => false end.
Proof.
  unfold in_columns, df_columns, get_col.
  induction df as [|[c' s'] df IH]; simpl; [reflexivity|].
  destruct (String.eqb c c'); [reflexivity|exact IH].
Qed.

Lemma asset_cols_ext (df1 df2 : DataFrame) :
  (forall c, In c ASSETS -> get_col df1 c = get_col df2 c) ->
  asset_cols df1 = asset_cols df2.
Proof.
  intros H. unfold asset_cols. apply filter_ext_in.
  intros c Hc. rewrite !in_columns_spec, (H c Hc). reflexivity.
Qed.

Lemma select_ext (df1 df2 : DataFrame) (cols : list string) :
  (forall c, In c cols -> get_col df1 c = get_col df2 c) ->
  select df1 cols = select df2 cols.
Proof.
  unfold select. induction cols as [|c cols IH]; intros H; simpl; [reflexivity|].
  rewrite (H c (or_introl eq_refl)). f_equal.
  apply IH. intros c' Hc'. apply H. right. exact Hc'.
Qed.

Lemma asset_cols_incl (df : DataFrame) (c : string) :
  In c (asset_cols df) -> In c ASSETS /\ in_columns c df = true.
Proof. unfold asset_cols. intros H. apply filter_In in H. exact H. Qed.

(** X1.  [stats_table] reads the seven asset columns and nothing else:
    two tables whose asset columns agree give the same result, whatever
    their other columns (a [Year] column, say, with or without gaps) and
    whatever the order of their columns. *)
Theorem stats_table_reads_asset_columns_only
        (df1 df2 : DataFrame) (rf_col : string) :
  (forall c, In c ASSETS -> get_col df1 c = get_col df2 c) ->
  stats_table df1 rf_col = stats_table df2 rf_col.
Proof.
  intros H. unfold stats_table, stats_table_raw.
  rewrite (asset_cols_ext df1 df2 H).
  rewrite (select_ext df1 df2 (asset_cols df2)); [reflexivity|].
  intros c Hc. apply H. apply (asset_cols_incl df2 c Hc).
Qed.

Lemma stats_table_reads_asset_columns_only_witness :
  stats_table ex_returns_with_year "TBill" = stats_table ex_returns "TBill".
Proof.
  apply stats_table_reads_asset_columns_only.
  intros c [<-|[<-|[<-|[<-|[<-|[<-|[<-|[]]]]]]]]; reflexivity.
Defined.

(** *** The rows of the result *)

Lemma select_names (df : DataFrame) (cols : list string) :
  (forall c, In c cols -> in_columns c df = true) ->
  map fst (select df cols) = cols.
Proof.
  unfold select. induction cols as [|c cols IH]; intros H; simpl; [reflexivity|].
  destruct (in_columns_get_col df c (H c (or_introl eq_refl))) as [s ->].
  simpl. f_equal. apply IH. intros c' Hc'. apply H. right. exact Hc'.
Qed.

Lemma asset_select_names (df : DataFrame) :
  map fst (select df (asset_cols df)) = asset_cols df.
Proof.
  apply select_names. intros c Hc. apply (asset_cols_incl df c Hc).
Qed.

Lemma ASSETS_NoDup : List.NoDup ASSETS.
Proof.
  unfold ASSETS.
  repeat (constructor; [simpl; intuition discriminate|]). constructor.
Qed.

Lemma len_dropna_any (df : DataFrame) :
  len (dropna df) = length (kept_index df).
Proof.
  destruct df as [|[c s] df]; [reflexivity|].
  unfold dropna. simpl. unfold take_rows. apply length_map.
Qed.

(** A table is returned only with a risk-free column among the asset
    columns and at least one retained row. *)
Lemma stats_table_ok_inv (df : DataFrame) (rf_col : string)
      (out : list (string * StatsRow)) :
  stats_table df rf_col = Ok out ->
  exists srf, lookup_row rf_col (select df (asset_cols df)) = Some srf
              /\ retained df <> [].
Proof.
  unfold stats_table, stats_table_raw. intros H.
  destruct (asset_cols df) as [|c0 cols0] eqn:Hcols; [discriminate H|].
  cbv beta iota zeta in H. rewrite <- Hcols in H |- *.
  rewrite len_dropna_any in H. fold (retained df) in H.
  destruct (retained df) as [|i idx] eqn:Hidx; [discriminate H|].
  rewrite <- Hidx in H.
  rewrite py_inv_pos in H by (rewrite Hidx; discriminate).
  cbn [bind] in H.
  unfold get_col, dropna in H.
  rewrite (lookup_row_map (take_rows (kept_index (select df (asset_cols df)))))
    in H.
  destruct (lookup_row rf_col (select df (asset_cols df))) as [srf|];
    [|discriminate H].
  exists srf. split; [reflexivity|discriminate].
Qed.

(** X2.  The table has one row per asset column present in the input,
    in the fixed order of the asset list (SP500, SmallCap, TBill, ...),
    whatever the order of the input's columns, and no row twice. *)
Theorem stats_table_rows (df : DataFrame) (rf_col : string)
        (out : list (string * StatsRow)) :
  stats_table df rf_col = Ok out ->
  map fst out = List.filter (fun c => in_columns c df) ASSETS
  /\ List.NoDup (map fst out)
  /\ (forall c, In c (map fst out) <-> In c ASSETS /\ in_columns c df = true).
Proof.
  intros H.
  destruct (stats_table_ok_inv df rf_col out H) as [srf [Hrf Hidx]].
  rewrite (stats_table_eq df rf_col srf Hrf Hidx) in H. injection H as <-.
  rewrite map_map. cbn [fst].
  change (map (fun x : string * list float => fst x) (select df (asset_cols df)))
    with (map fst (select df (asset_cols df))).
  rewrite asset_select_names. unfold asset_cols.
  split; [reflexivity|]. split.
  - apply List.NoDup_filter, ASSETS_NoDup.
  - intros c. apply filter_In.
Qed.

Lemma stats_table_rows_witness :
  exists out,
    stats_table ex_returns_with_year "TBill" = Ok out /\
    map fst out = ["SP500"; "TBill"]%string.
Proof.
  eexists. split.
  - apply (stats_table_eq ex_returns_with_year "TBill"
                          [Some 0.03; Some 0.03; Some 0.03]);
      [reflexivity|discriminate].
  - apply (proj1 (stats_table_rows ex_returns_with_year "TBill" _
                    (stats_table_eq ex_returns_with_year "TBill"
                       [Some 0.03; Some 0.03; Some 0.03] eq_refl
                       ltac:(discriminate)))).
Defined.

(** X3.  Without the risk-free column among the asset columns of the
    table (no [TBill] column, or a [rf_col] outside the asset list),
    [stats_table] raises [KeyError], whenever the table has no asset
    column at all or at least one row is retained. *)
Theorem stats_table_missing_risk_free (df : DataFrame) (rf_col : string) :
  ~ In rf_col (asset_cols df) ->
  asset_cols df = [] \/ retained df <> [] ->
  stats_table df rf_col = Raise KeyError.
Proof.
  intros Hrf Hcase. unfold stats_table, stats_table_raw.
  destruct (asset_cols df) as [|c0 cols0] eqn:Hcols; [reflexivity|].
  destruct Hcase as [Hnil|Hidx]; [discriminate Hnil|].
  cbv beta iota zeta. rewrite <- Hcols.
  rewrite len_dropna_any. fold (retained df).
  rewrite (py_inv_pos _ (fun E => Hidx (proj1 (length_zero_iff_nil _) E))).
  cbn [bind]. unfold get_col, dropna.
  rewrite (lookup_row_map (take_rows (kept_index (select df (asset_cols df))))).
  rewrite lookup_row_select.
  destruct (existsb (String.eqb rf_col) (asset_cols df)) eqn:Hex; [|reflexivity].
  exfalso. apply Hrf. apply existsb_exists in Hex.
  destruct Hex as [c [Hc He]]. apply String.eqb_eq in He. subst c.
  rewrite <- Hcols. exact Hc.
Qed.

Lemma stats_table_missing_risk_free_witness :
  stats_table ex_no_tbill "TBill" = Raise KeyError.
Proof.
  apply stats_table_missing_risk_free.
  - intros [H|[]]. discriminate H.
  - right. discriminate.
Defined.

(** *** Volatility and the Sharpe guard *)

Lemma sum_sq_nonneg (m : R) (rs : list R) :
  0 <= sum (map (fun r => (r - m) * (r - m)) rs).
Proof.
  induction rs as [|r rs IH]; simpl; [lra|].
  pose proof (Rle_0_sqr (r - m)) as H. unfold Rsqr in H. lra.
Qed.


(** With at least two values the sample standard deviation is a number;
    with fewer it is NaN. *)
Lemma std_two_values (s : list float) :
  (2 <= length (dropna_values s))%nat -> exists v, std s = Some v.
Proof.
  intros Hlen. unfold std.
  destruct (dropna_values s) as [|r1 [|r2 rs]] eqn:E; simpl in Hlen; [lia|lia|].
  set (l := r1 :: r2 :: rs) in *.
  set (n := INR (length l)).
  assert (Hn : 2 <= n).
  { subst n l. change (length (r1 :: r2 :: rs)) with (S (S (length rs))).
    rewrite !S_INR. pose proof (pos_INR (length rs)). lra. }
  set (m := sum l / n).
  set (ss := sum (map (fun r => (r - m) * (r - m)) l)).
  assert (Hss : 0 <= ss) by apply sum_sq_nonneg.
  assert (Hvar : 0 <= ss / (n - 1)).
  { apply Rmult_le_pos; [exact Hss|]. left. apply Rinv_0_lt_compat. lra. }
  unfold fsqrt. destruct (Rlt_dec (ss / (n - 1)) 0) as [Hneg|_]; [lra|].
  eexists. reflexivity.
Qed.

Lemma std_few_values (s : list float) :
  (length (dropna_values s) < 2)%nat -> std s = NaN.
Proof.
  unfold std. destruct (dropna_values s) as [|r1 [|r2 rs]]; simpl; intros H;
    [reflexivity|reflexivity|lia].
Qed.

Lemma round4_nan_iff (a : float) : round4 a = NaN <-> a = NaN.
Proof. destruct a; simpl; split; intros H; congruence. Qed.

(** A column of an MPF table and the same column next to another one. *)
Definition ex_fund_and_other : DataFrame :=
  ex_fund ++ [("Other"%string, [NaN; Some 1; NaN])].

(** X4.  In the table of [summary_stats] the Sharpe ratio of a category
    is NaN exactly when the category has fewer than two non-missing
    returns (its volatility is then NaN) or its computed volatility is
    exactly zero (it is replaced by NaN before the division); in every
    other case the ratio is a number. *)
Theorem summary_sharpe_nan_iff_no_volatility
        (df : DataFrame) (rf : R) (c : string) (row : Summary.SummaryRow) :
  lookup_row c (Summary.summary_stats df rf) = Some row ->
  exists s, get_col df c = Some s /\
            (Summary.Sharpe_Ratio row = NaN <->
             (length (dropna_values s) < 2)%nat \/ std s = Some 0).
Proof.
  intros Hrow. unfold Summary.summary_stats, Summary.summary_stats_raw in Hrow.
  rewrite map_map in Hrow. cbn [fst snd] in Hrow.
  rewrite (lookup_row_map
             (fun s => Summary.round_summary
                {| Summary.Mean_Return := mean s;
                   Summary.Volatility := std s;
                   Summary.Excess_Return := fsub (mean s) (Some rf);
                   Summary.Sharpe_Ratio := fdiv (fsub (mean s) (Some rf))
                                                (replace0 (std s)) |})) in Hrow.
  destruct (lookup_row c df) as [s|] eqn:Hs; [|discriminate Hrow].
  injection Hrow as <-. exists s. split; [exact Hs|].
  cbn [Summary.Sharpe_Ratio Summary.round_summary]. rewrite round4_nan_iff.
  destruct (le_lt_dec 2 (length (dropna_values s))) as [Hlen|Hlen].
  - destruct (std_two_values s Hlen) as [v Hv]. rewrite Hv.
    assert (Hmean : exists m, mean s = Some m).
    { unfold mean. destruct (dropna_values s); [simpl in Hlen; lia|].
      eexists. reflexivity. }
    destruct Hmean as [m ->]. cbn [fsub]. split.
    + intros H. right. f_equal.
      destruct (Req_EM_T v 0) as [E|Hne]; [exact E|].
      rewrite fdiv_replace0_nonzero in H by exact Hne. discriminate H.
    + intros [H|H]; [lia|]. injection H as ->. apply fdiv_replace0_zero.
  - split; [intros _; left; exact Hlen|]. intros _.
    rewrite (std_few_values s Hlen). cbn [replace0].
    destruct (fsub (mean s) (Some rf)); reflexivity.
Qed.

Lemma summary_sharpe_nan_iff_no_volatility_witness :
  exists row s,
    lookup_row "Fund"%string (Summary.summary_stats ex_fund 0.02) = Some row /\
    get_col ex_fund "Fund" = Some s /\
    (Summary.Sharpe_Ratio row = NaN <->
     (length (dropna_values s) < 2)%nat \/ std s = Some 0).
Proof.
  eexists.
  destruct (summary_sharpe_nan_iff_no_volatility ex_fund 0.02 "Fund"%string _
                                                 eq_refl)
    as [s [Hs Hiff]].
  exists s. split; [reflexivity|]. split; assumption.
Defined.

(** X9.  [summary_stats] treats every category on its own: the row of a
    category depends on that category's column only, so missing values
    in other columns do not change it. *)
Theorem summary_stats_per_column (df1 df2 : DataFrame) (rf : R) (c : string) :
  get_col df1 c = get_col df2 c ->
  lookup_row c (Summary.summary_stats df1 rf)
  = lookup_row c (Summary.summary_stats df2 rf).
Proof.
  intros H. unfold Summary.summary_stats, Summary.summary_stats_raw.
  rewrite !map_map. cbn [fst snd].
  rewrite !(lookup_row_map
              (fun s => Summary.round_summary
                 {| Summary.Mean_Return := mean s;
                    Summary.Volatility := std s;
                    Summary.Excess_Return := fsub (mean s) (Some rf);
                    Summary.Sharpe_Ratio := fdiv (fsub (mean s) (Some rf))
                                                 (replace0 (std s)) |})).
  unfold get_col in H. rewrite H. reflexivity.
Qed.

Lemma summary_stats_per_column_witness :
  lookup_row "Fund"%string (Summary.summary_stats ex_fund 0.02)
  = lookup_row "Fund"%string (Summary.summary_stats ex_fund_and_other 0.02).
Proof. apply summary_stats_per_column. reflexivity. Defined.

(** *** Rounding of the reported figures *)

(** Two figures are both missing, or both numbers at most [5e-5] apart. *)
Definition within_rounding (a b : float) : Prop :=
  match a, b with
  | Some x, Some y => Rabs (y - x) <= 1 / 20000
  | None, None => True
  | _, _ => False
  end.

Lemma round4_within (a : float) : within_rounding a (round4 a).
Proof.
  destruct a as [x|]; simpl; [|exact I].
  pose proof (rint_error (x * 10000)) as H.
  assert (H' : - (1 / 2) <= IZR (rint (x * 10000)) - x * 10000 <= 1 / 2).
  { unfold Rabs in H. destruct (Rcase_abs _) in H; lra. }
  apply Rabs_le. lra.
Qed.

Lemma round4_idempotent (a : float) : round4 (round4 a) = round4 a.
Proof.
  destruct a as [x|]; simpl; [|reflexivity].
  replace (IZR (rint (x * 10000)) / 10000 * 10000)
    with (IZR (rint (x * 10000))) by (field; lra).
  rewrite rint_IZR. reflexivity.
Qed.

Lemma round_row_idempotent (r : StatsRow) : round_row (round_row r) = round_row r.
Proof.
  unfold round_row. cbn [Annualized_Return Volatility Sharpe_Ratio].
  rewrite !round4_idempotent. reflexivity.
Qed.

(** X5.  Every figure of the table of [stats_table] is the figure of
    the unrounded computation moved by at most 0.00005 (a NaN stays a
    NaN), and rounding the table to four decimals once more leaves it
    unchanged. *)
Theorem stats_table_rounding
        (df : DataFrame) (rf_col : string) (out : list (string * StatsRow)) :
  stats_table df rf_col = Ok out ->
  (forall c row, lookup_row c out = Some row ->
     exists raw rrow,
       stats_table_raw df rf_col = Ok raw /\ lookup_row c raw = Some rrow /\
       within_rounding (Annualized_Return rrow) (Annualized_Return row) /\
       within_rounding (Volatility rrow) (Volatility row) /\
       within_rounding (Sharpe_Ratio rrow) (Sharpe_Ratio row))
  /\ map (fun cr => (fst cr, round_row (snd cr))) out = out.
Proof.
  intros Hout. split.
  - intros c row Hrow.
    destruct (stats_table_row df rf_col out c row Hout Hrow)
      as [raw [rrow [Hraw [Hc ->]]]].
    exists raw, rrow. split; [exact Hraw|]. split; [exact Hc|].
    cbn [round_row Annualized_Return Volatility Sharpe_Ratio].
    repeat split; apply round4_within.
  - unfold stats_table in Hout.
    destruct (stats_table_raw df rf_col) as [raw|e]; [|discriminate Hout].
    cbn [bind] in Hout. injection Hout as <-.
    rewrite map_map. apply map_ext. intros [c r]. cbn [fst snd].
    rewrite round_row_idempotent. reflexivity.
Qed.

Lemma stats_table_rounding_witness :
  exists out,
    stats_table ex_returns "TBill" = Ok out /\
    map (fun cr => (fst cr, round_row (snd cr))) out = out.
Proof.
  eexists. split.
  - apply (stats_table_eq ex_returns "TBill" [Some 0.03; Some 0.03; Some 0.03]);
      [reflexivity|discriminate].
  - apply (proj2 (stats_table_rounding ex_returns "TBill" _
                    (stats_table_eq ex_returns "TBill"
                       [Some 0.03; Some 0.03; Some 0.03] eq_refl
                       ltac:(discriminate)))).
Defined.

(** *** The geometric mean return *)

Lemma pow_lt_strict (a b : R) (n : nat) :
  0 <= a -> a < b -> n <> O -> a ^ n < b ^ n.
Proof.
  intros Ha Hab Hn. destruct n as [|n]; [congruence|]. clear Hn.
  induction n as [|n IH]; [simpl; lra|].
  change (a ^ S (S n)) with (a * a ^ S n).
  change (b ^ S (S n)) with (b * b ^ S n).
  assert (Hpa : 0 <= a ^ S n) by (apply pow_le; exact Ha).
  apply Rle_lt_trans with (a * b ^ S n).
  - apply Rmult_le_compat_l; lra.
  - apply Rmult_lt_compat_r; lra.
Qed.

Lemma Rpower_inv_ge (a x : R) (n : nat) :
  0 <= a -> 0 < x -> n <> O -> a ^ n <= x -> a <= Rpower x (/ INR n).
Proof.
  intros Ha Hx Hn Hle.
  destruct (Rle_dec a (Rpower x (/ INR n))) as [|Hlt]; [assumption|].
  exfalso. apply Rnot_le_lt in Hlt.
  assert (H : Rpower x (/ INR n) ^ n < a ^ n).
  { apply pow_lt_strict; [left; apply exp_pos|exact Hlt|exact Hn]. }
  rewrite Rpower_inv_pow in H by assumption. lra.
Qed.

Lemma Rpower_inv_le (b x : R) (n : nat) :
  0 < x -> n <> O -> x <= b ^ n -> 0 <= b -> Rpower x (/ INR n) <= b.
Proof.
  intros Hx Hn Hle Hb.
  destruct (Rle_dec (Rpower x (/ INR n)) b) as [|Hlt]; [assumption|].
  exfalso. apply Rnot_le_lt in Hlt.
  assert (H : b ^ n < Rpower x (/ INR n) ^ n).
  { apply pow_lt_strict; [exact Hb|exact Hlt|exact Hn]. }
  rewrite Rpower_inv_pow in H by assumption. lra.
Qed.

Lemma prod1p_between (lo hi : R) (rs : list R) :
  -1 < lo -> Forall (fun r => lo <= r <= hi) rs ->
  (1 + lo) ^ length rs <= prod1p rs <= (1 + hi) ^ length rs.
Proof.
  intros Hlo. induction 1 as [|r rs Hr Hrs IH]; [simpl; lra|].
  change (prod1p (r :: rs)) with ((1 + r) * prod1p rs).
  change (length (r :: rs)) with (S (length rs)).
  change ((1 + lo) ^ S (length rs)) with ((1 + lo) * (1 + lo) ^ length rs).
  change ((1 + hi) ^ S (length rs)) with ((1 + hi) * (1 + hi) ^ length rs).
  assert (Hpl : 0 < (1 + lo) ^ length rs) by (apply pow_lt; lra).
  split.
  - apply Rmult_le_compat; lra.
  - apply Rmult_le_compat; lra.
Qed.

(** X6.  The annualised (geometric mean) return of the statistics table
    lies between the smallest and the largest yearly return, when no
    year loses the whole investment. *)
Theorem geometric_return_between (rs : list R) (lo hi : R) :
  rs <> [] -> -1 < lo ->
  Forall (fun r => lo <= r <= hi) rs ->
  exists g, geo_ret (map Some rs) (/ INR (length rs)) = Some g /\ lo <= g <= hi.
Proof.
  intros Hne Hlo Hall. unfold geo_ret. rewrite dropna_values_map_Some.
  destruct (prod1p_between lo hi rs Hlo Hall) as [Hl Hh].
  assert (Hn : length rs <> O) by (destruct rs; simpl; congruence).
  assert (Hpl : 0 < (1 + lo) ^ length rs) by (apply pow_lt; lra).
  assert (Hhi : 0 <= 1 + hi).
  { destruct Hall as [|r ? [H1 H2] _]; [congruence|lra]. }
  unfold fpow. destruct (Rlt_dec 0 (prod1p rs)) as [Hp|Hp]; [|lra].
  eexists. split; [reflexivity|].
  pose proof (Rpower_inv_ge (1 + lo) (prod1p rs) (length rs)
                ltac:(lra) Hp Hn Hl).
  pose proof (Rpower_inv_le (1 + hi) (prod1p rs) (length rs) Hp Hn Hh Hhi).
  lra.
Qed.

Lemma geometric_return_between_witness :
  exists g, geo_ret (map Some [0.10; -0.05; 0.08]) (/ INR 3) = Some g
            /\ -0.05 <= g <= 0.10.
Proof.
  apply (geometric_return_between [0.10; -0.05; 0.08] (-0.05) 0.10).
  - discriminate.
  - lra.
  - repeat constructor; lra.
Defined.

(** *** Q1_6 and Q1_7: terminal wealth *)

Lemma fold_fprod_nan (rs : list float) :
  fold_left (fun acc r => fmul acc (fadd (Some 1) r)) rs NaN = NaN.
Proof. induction rs as [|r rs IH]; [reflexivity|exact IH]. Qed.

Lemma fold_fprod_missing (rs : list float) (acc : float) :
  In NaN rs ->
  fold_left (fun acc r => fmul acc (fadd (Some 1) r)) rs acc = NaN.
Proof.
  revert acc. induction rs as [|r rs IH]; intros acc Hin; [destruct Hin|].
  destruct Hin as [->|Hin]; cbn [fold_left].
  - destruct acc; apply fold_fprod_nan.
  - apply IH, Hin.
Qed.

(** X8.  The Q1_6 comparison does not skip missing returns: one NaN in
    a return column makes both the terminal value of one dollar and
    the annualised return NaN. *)
Theorem annualised_propagates_missing (r : list float) :
  In NaN r -> annualised r = Ok (NaN, NaN).
Proof.
  intros Hin. rewrite annualised_eq by (destruct r; [destruct Hin|discriminate]).
  unfold fprod1p. rewrite (fold_fprod_missing r (Some 1) Hin).
  destruct r as [|x r]; [destruct Hin|]. reflexivity.
Qed.

Lemma annualised_propagates_missing_witness :
  annualised [Some 0.10; NaN; Some 0.08] = Ok (NaN, NaN).
Proof.
  apply annualised_propagates_missing. right. left. reflexivity.
Defined.

Lemma last_cons_default (x d : R) (l : list R) : List.last (x :: l) d = List.last l x.
Proof.
  revert x d. induction l as [|y l IH]; intros x d; [reflexivity|].
  change (List.last (x :: y :: l) d) with (List.last (y :: l) d).
  rewrite (IH y d), (IH y x). reflexivity.
Qed.

Lemma price_returns_telescope (p : list R) (p0 acc : R) :
  0 < p0 -> Forall (fun x => 0 < x) p ->
  fold_left (fun a r => fmul a (fadd (Some 1) r))
            (price_returns (map Some (p0 :: p))) (Some acc)
  = Some (acc * (List.last p p0 / p0)).
Proof.
  revert p0 acc. induction p as [|p1 p IH]; intros p0 acc Hp0 Hall.
  - simpl. f_equal. field. lra.
  - inversion Hall as [|? ? Hp1 Hp]; subst.
    change (price_returns (map Some (p0 :: p1 :: p)))
      with (fsub (fdiv (Some p1) (Some p0)) (Some 1)
              :: price_returns (map Some (p1 :: p))).
    unfold fdiv. destruct (Req_EM_T p0 0) as [E|_]; [lra|].
    cbn [fold_left fsub fadd fmul].
    rewrite (IH p1 _ Hp1 Hp), last_cons_default.
    f_equal. field. lra.
Qed.

Lemma price_returns_length (p : list float) :
  length (price_returns p) = pred (length p).
Proof.
  induction p as [|p0 [|p1 p] IH]; [reflexivity|reflexivity|].
  change (price_returns (p0 :: p1 :: p))
    with (fsub (fdiv p1 p0) (Some 1) :: price_returns (p1 :: p)).
  cbn [length] in *. rewrite IH. reflexivity.
Qed.

(** X7.  For positive year-end prices [fetch_vt_annual_returns] yields
    one return per pair of consecutive years; the terminal value of one
    dollar is the last price over the first, and the annualised return
    is its root over the number of returns.  With fewer than two
    prices it raises [RuntimeError]. *)
Theorem fetch_vt_terminal_is_price_ratio (p0 : R) (p : list R) :
  0 < p0 -> Forall (fun x => 0 < x) p -> p <> [] ->
  exists d,
    fetch_vt_annual_returns (map Some (p0 :: p)) = Ok d /\
    n_years d = length p /\
    length (annual_returns d) = length p /\
    terminal_per_dollar d = Some (List.last p p0 / p0) /\
    annualised_return d
    = Some (Rpower (List.last p p0 / p0) (/ INR (length p)) - 1).
Proof.
  intros Hp0 Hall Hne. unfold fetch_vt_annual_returns.
  assert (Hlen : length (price_returns (map Some (p0 :: p))) = length p).
  { rewrite price_returns_length. cbn [map length]. rewrite length_map.
    reflexivity. }
  assert (Hterm : fprod1p (price_returns (map Some (p0 :: p)))
                  = Some (List.last p p0 / p0)).
  { unfold fprod1p. rewrite (price_returns_telescope p p0 1 Hp0 Hall).
    f_equal. lra. }
  assert (Hlast : 0 < List.last p p0).
  { clear Hne Hlen Hterm. revert p0 Hp0.
    induction Hall as [|x l Hx Hl IH]; intros p0 Hp0; [exact Hp0|].
    rewrite last_cons_default. apply IH, Hx. }
  destruct (length (map Some (p0 :: p)) <? 2)%nat eqn:Hshort.
  { apply Nat.ltb_lt in Hshort. cbn [map length] in Hshort.
    rewrite length_map in Hshort. destruct p; [congruence|simpl in Hshort; lia]. }
  rewrite Hlen, Hterm. unfold py_inv.
  destruct (length p) as [|k] eqn:Hk; [destruct p; [congruence|discriminate Hk]|].
  cbn [bind]. eexists. split; [reflexivity|].
  cbn [n_years annual_returns terminal_per_dollar annualised_return].
  split; [reflexivity|]. split; [rewrite Hlen; reflexivity|].
  split; [reflexivity|].
  unfold fpow. destruct (Rlt_dec 0 (List.last p p0 / p0)) as [_|Hn]; [reflexivity|].
  exfalso. apply Hn. apply Rdiv_lt_0_compat; assumption.
Qed.

Lemma fetch_vt_terminal_is_price_ratio_witness :
  exists d,
    fetch_vt_annual_returns (map Some [100; 110; 99]) = Ok d /\
    n_years d = 2%nat /\
    length (annual_returns d) = 2%nat /\
    terminal_per_dollar d = Some (99 / 100) /\
    annualised_return d = Some (Rpower (99 / 100) (/ INR 2) - 1).
Proof.
  apply (fetch_vt_terminal_is_price_ratio 100 [110; 99]).
  - lra.
  - repeat constructor; lra.
  - discriminate.
Defined.

(** X10.  [fetch_vt_annual_returns] needs two year-end prices: with
    fewer it raises [RuntimeError], with two or more it never does. *)
Theorem fetch_vt_needs_two_prices (p : list float) :
  (fetch_vt_annual_returns p = Raise RuntimeError <-> (length p < 2)%nat).
Proof.
  unfold fetch_vt_annual_returns.
  destruct (length p <? 2)%nat eqn:Hshort.
  - apply Nat.ltb_lt in Hshort. split; [intros _; exact Hshort|reflexivity].
  - apply Nat.ltb_ge in Hshort. split; [|lia].
    rewrite price_returns_length. unfold py_inv.
    destruct (pred (length p)) eqn:Hk; [lia|].
    cbn [bind]. intros H. discriminate H.
Qed.

Lemma annualised_positive (r : list R) :
  r <> [] -> Forall (fun x => 0 < 1 + x) r ->
  exists t, 0 < t /\
            annualised (map Some r)
            = Ok (Some t, Some (Rpower t (/ INR (length r)) - 1)).
Proof.
  intros Hne Hall.
  rewrite annualised_eq by (destruct r; [congruence|discriminate]).
  unfold fprod1p.
  destruct (fprod1p_acc r 1 ltac:(lra) Hall) as [t [Ht Hpos]].
  rewrite Ht, length_map. unfold py_inv.
  destruct (length r) as [|k] eqn:Hk; [destruct r; [congruence|discriminate Hk]|].
  cbn [bind]. exists t. split; [exact Hpos|].
  unfold fpow. destruct (Rlt_dec 0 t) as [_|Hn]; [reflexivity|contradiction].
Qed.

(** X29.  In the Q1_6 comparison both series cover the same years, so
    the ranking by annualised return is the ranking by terminal value
    of one dollar: for two return columns of equal length, with every
    return above -100%, one has the higher annualised return exactly
    when it has the higher terminal value. *)
Theorem annualised_order_is_terminal_order (r1 r2 : list R) :
  r1 <> [] -> length r1 = length r2 ->
  Forall (fun x => 0 < 1 + x) r1 -> Forall (fun x => 0 < 1 + x) r2 ->
  exists t1 a1 t2 a2,
    annualised (map Some r1) = Ok (Some t1, Some a1) /\
    annualised (map Some r2) = Ok (Some t2, Some a2) /\
    (a1 < a2 <-> t1 < t2).
Proof.
  intros Hne Hlen H1 H2.
  assert (Hne2 : r2 <> []).
  { destruct r2; [|discriminate]. destruct r1; [congruence|discriminate Hlen]. }
  destruct (annualised_positive r1 Hne H1) as [t1 [Ht1 E1]].
  destruct (annualised_positive r2 Hne2 H2) as [t2 [Ht2 E2]].
  rewrite <- Hlen in E2.
  exists t1, (Rpower t1 (/ INR (length r1)) - 1),
         t2, (Rpower t2 (/ INR (length r1)) - 1).
  split; [exact E1|]. split; [exact E2|].
  assert (Hn : 0 < / INR (length r1)).
  { apply Rinv_0_lt_compat, lt_0_INR. destruct r1; [congruence|simpl; lia]. }
  split.
  - intros Ha. destruct (Rlt_dec t1 t2) as [|Hge]; [assumption|].
    exfalso. apply Rnot_lt_le in Hge.
    pose proof (Rle_Rpower_l t2 t1 (/ INR (length r1)) ltac:(lra) ltac:(lra)).
    lra.
  - intros Ht.
    pose proof (Rlt_Rpower_l t1 t2 (/ INR (length r1)) Hn ltac:(lra)). lra.
Qed.

Lemma annualised_order_is_terminal_order_witness :
  exists t1 a1 t2 a2,
    annualised (map Some [0.10; -0.05]) = Ok (Some t1, Some a1) /\
    annualised (map Some [0.02; 0.08]) = Ok (Some t2, Some a2) /\
    (a1 < a2 <-> t1 < t2).
Proof.
  apply (annualised_order_is_terminal_order [0.10; -0.05] [0.02; 0.08]).
  - discriminate.
  - reflexivity.
  - repeat constructor; lra.
  - repeat constructor; lra.
Defined.

End Q1More.

(** ** Q1_1 [main]: the recent and the prior sample *)

Module Q1Main.

Import Q1 Q1Facts.
Local Open Scope R_scope.

Definition Rleb (x y : R) : bool := if Rle_dec x y then true else false.
Definition Rltb (x y : R) : bool := if Rlt_dec x y then true else false.

(** [Series.max()] and [Series.min()] of a column without NaN: NaN on
    an empty column. *)
Fixpoint series_max (l : list R) : float :=
  match l with
  | [] => NaN
  | x :: l' => match series_max l' with
               | None => Some x
               | Some m => Some (Rmax x m)
               end
  end.

Fixpoint series_min (l : list R) : float :=
  match l with
  | [] => NaN
  | x :: l' => match series_min l' with
               | None => Some x
               | Some m => Some (Rmin x m)
               end
  end.

(** Python's [int] on a float: truncation towards zero. *)
Definition py_int (x : R) : Z :=
  if Rle_dec 0 x then Int_part x else (- Int_part (- x))%Z.

Section Split.

(** The rows of the loaded table: [load_damodaran] has dropped the rows
    without a numeric year, so [Year] is a number; the S&P 500 return
    may be missing. *)
Variable Row : Type.
Variable Year : Row -> R.
Variable SP500 : Row -> float.

Definition has_sp500 (r : Row) : bool :=
  match SP500 r with Some _ => true | None => false end.

(** Lines 66-74 of [main]: the pair [(df_30, df_prior)].  [int] of the
    NaN that [max] gives on an empty table raises [ValueError]. *)
Definition split_periods (df : list Row) : pyresult (list Row * list Row) :=
  let full := List.filter has_sp500 df in
  match series_max (map Year full), series_min (map Year full) with
  | Some mx, Some mn =>
      let last_year := py_int mx in
      let first_year := py_int mn in
      let df_30 :=
        List.filter (fun r => Rleb (IZR (last_year - 30)) (Year r)) df in
      let df_prior :=
        List.filter (fun r => Rleb (IZR first_year) (Year r)
                              && Rltb (Year r) (IZR (last_year - 30))) df in
      if (length df_prior <? 5)%nat then
        let mid := (first_year + (last_year - first_year) / 2)%Z in
        Ok (List.filter (fun r => Rleb (IZR mid) (Year r)) df,
            List.filter (fun r => Rltb (Year r) (IZR mid)) df)
      else Ok (df_30, df_prior)
  | _, _ => Raise ValueError
  end.

End Split.

Arguments has_sp500 {Row} SP500 r.
Arguments split_periods {Row} Year SP500 df.

(** A table of 36 consecutive years from 1928, all with a return. *)
Definition ex_years : list (R * float) :=
  map (fun i => (IZR (1928 + Z.of_nat i), Some 0)) (seq 0 36).

(** Four years, the second without an S&P 500 return. *)
Definition ex_short : list (R * float) :=
  [(2001, Some 0.1); (2002, NaN); (2003, Some 0.2); (2004, Some 0.3)].

(** *** Facts *)

Lemma Rleb_true (x y : R) : Rleb x y = true <-> x <= y.
Proof. unfold Rleb. destruct (Rle_dec x y); split; intros; congruence. Qed.

Lemma Rltb_true (x y : R) : Rltb x y = true <-> x < y.
Proof. unfold Rltb. destruct (Rlt_dec x y); split; intros; congruence. Qed.

Lemma series_max_some (l : list R) : l <> [] -> exists m, series_max l = Some m.
Proof.
  destruct l as [|x l]; [congruence|]. intros _. simpl.
  destruct (series_max l); eexists; reflexivity.
Qed.

Lemma series_min_some (l : list R) : l <> [] -> exists m, series_min l = Some m.
Proof.
  destruct l as [|x l]; [congruence|]. intros _. simpl.
  destruct (series_min l); eexists; reflexivity.
Qed.

Lemma series_max_none (l : list R) : series_max l = NaN -> l = [].
Proof.
  destruct l as [|x l]; [reflexivity|]. simpl.
  destruct (series_max l); discriminate.
Qed.

Lemma series_min_none (l : list R) : series_min l = NaN -> l = [].
Proof.
  destruct l as [|x l]; [reflexivity|]. simpl.
  destruct (series_min l); discriminate.
Qed.

Lemma series_max_bound (l : list R) (m : R) :
  series_max l = Some m -> In m l /\ forall x, In x l -> x <= m.
Proof.
  revert m. induction l as [|x l IH]; intros m H; [discriminate H|].
  simpl in H. destruct (series_max l) as [m'|] eqn:E.
  - destruct (IH m' eq_refl) as [Hin Hub]. injection H as <-.
    unfold Rmax. destruct (Rle_dec x m') as [Hle|Hgt].
    + split; [right; exact Hin|]. intros y [<-|Hy]; [exact Hle|apply Hub, Hy].
    + split; [left; reflexivity|]. intros y [<-|Hy]; [lra|].
      pose proof (Hub y Hy). lra.
  - injection H as <-. apply series_max_none in E. subst l.
    split; [left; reflexivity|]. intros y [<-|[]]. lra.
Qed.

Lemma series_min_bound (l : list R) (m : R) :
  series_min l = Some m -> In m l /\ forall x, In x l -> m <= x.
Proof.
  revert m. induction l as [|x l IH]; intros m H; [discriminate H|].
  simpl in H. destruct (series_min l) as [m'|] eqn:E.
  - destruct (IH m' eq_refl) as [Hin Hlb]. injection H as <-.
    unfold Rmin. destruct (Rle_dec x m') as [Hle|Hgt].
    + split; [left; reflexivity|]. intros y [<-|Hy]; [lra|].
      pose proof (Hlb y Hy). lra.
    + split; [right; exact Hin|]. intros y [<-|Hy]; [lra|apply Hlb, Hy].
  - injection H as <-. apply series_min_none in E. subst l.
    split; [left; reflexivity|]. intros y [<-|[]]. lra.
Qed.

Lemma series_max_unique (l : list R) (m : R) :
  In m l -> (forall x, In x l -> x <= m) -> series_max l = Some m.
Proof.
  intros Hin Hub.
  destruct (series_max_some l) as [m' Hm']; [intros ->; destruct Hin|].
  destruct (series_max_bound l m' Hm') as [Hin' Hub'].
  pose proof (Hub m' Hin'). pose proof (Hub' m Hin).
  rewrite Hm'. f_equal. lra.
Qed.

Lemma series_min_unique (l : list R) (m : R) :
  In m l -> (forall x, In x l -> m <= x) -> series_min l = Some m.
Proof.
  intros Hin Hlb.
  destruct (series_min_some l) as [m' Hm']; [intros ->; destruct Hin|].
  destruct (series_min_bound l m' Hm') as [Hin' Hlb'].
  pose proof (Hlb m' Hin'). pose proof (Hlb' m Hin).
  rewrite Hm'. f_equal. lra.
Qed.

Lemma py_int_IZR (z : Z) : py_int (IZR z) = z.
Proof.
  unfold py_int. destruct (Rle_dec 0 (IZR z)) as [_|_].
  - apply Int_part_unique. lra.
  - rewrite <- opp_IZR. rewrite (Int_part_unique (IZR (- z)) (- z)) by lra. lia.
Qed.

Lemma filter_all {A : Type} (f : A -> bool) (l : list A) :
  (forall x, In x l -> f x = true) -> List.filter f l = l.
Proof.
  induction l as [|x l IH]; intros H; [reflexivity|]. simpl.
  rewrite (H x (or_introl eq_refl)). f_equal. apply IH.
  intros y Hy. apply H. right. exact Hy.
Qed.

Lemma length_filter_map {A B : Type} (f : A -> B) (q : B -> bool) (l : list A) :
  length (List.filter (fun a => q (f a)) l) = length (List.filter q (map f l)).
Proof.
  induction l as [|a l IH]; [reflexivity|]. simpl.
  destruct (q (f a)); simpl; rewrite IH; reflexivity.
Qed.

Lemma count_from (k n : nat) :
  length (List.filter (fun i => (k <=? i)%nat) (seq 0 n)) = (n - k)%nat.
Proof.
  induction n as [|n IH]; [reflexivity|].
  rewrite seq_S, List.filter_app, length_app, IH. simpl.
  destruct (k <=? n)%nat eqn:E.
  - apply Nat.leb_le in E. simpl. lia.
  - apply Nat.leb_gt in E. simpl. lia.
Qed.

Lemma count_below (k n : nat) :
  length (List.filter (fun i => (i <? k)%nat) (seq 0 n)) = Nat.min k n.
Proof.
  induction n as [|n IH]; [simpl; lia|].
  rewrite seq_S, List.filter_app, length_app, IH. simpl.
  destruct (n <? k)%nat eqn:E.
  - apply Nat.ltb_lt in E. simpl. lia.
  - apply Nat.ltb_ge in E. simpl. lia.
Qed.

Section SplitFacts.

Variable Row : Type.
Variable Year : Row -> R.
Variable SP500 : Row -> float.

Lemma split_periods_cases (df : list Row) :
  (List.filter (has_sp500 SP500) df = []
   /\ split_periods Year SP500 df = Raise ValueError)
  \/ exists rmax rmin,
       In rmax df /\ has_sp500 SP500 rmax = true /\
       In rmin df /\ has_sp500 SP500 rmin = true /\
       (forall r, In r df -> has_sp500 SP500 r = true ->
                  Year rmin <= Year r <= Year rmax) /\
       let last_year := py_int (Year rmax) in
       let first_year := py_int (Year rmin) in
       let mid := (first_year + (last_year - first_year) / 2)%Z in
       let df_prior :=
         List.filter (fun r => Rleb (IZR first_year) (Year r)
                               && Rltb (Year r) (IZR (last_year - 30))) df in
       split_periods Year SP500 df
       = if (length df_prior <? 5)%nat
         then Ok (List.filter (fun r => Rleb (IZR mid) (Year r)) df,
                  List.filter (fun r => Rltb (Year r) (IZR mid)) df)
         else Ok (List.filter
                    (fun r => Rleb (IZR (last_year - 30)) (Year r)) df,
                  df_prior).
Proof.
  unfold split_periods.
  destruct (List.filter (has_sp500 SP500) df) as [|r0 full] eqn:Hfull.
  - left. split; reflexivity.
  - right. rewrite <- Hfull.
    assert (Hne : map Year (List.filter (has_sp500 SP500) df) <> []).
    { rewrite Hfull. discriminate. }
    destruct (series_max_some _ Hne) as [mx Hmx].
    destruct (series_min_some _ Hne) as [mn Hmn].
    rewrite Hmx, Hmn.
    destruct (series_max_bound _ _ Hmx) as [Hinx Hub].
    destruct (series_min_bound _ _ Hmn) as [Hinn Hlb].
    apply in_map_iff in Hinx. destruct Hinx as [rmax [<- Hrmax]].
    apply in_map_iff in Hinn. destruct Hinn as [rmin [<- Hrmin]].
    apply List.filter_In in Hrmax. destruct Hrmax as [Hx1 Hx2].
    apply List.filter_In in Hrmin. destruct Hrmin as [Hn1 Hn2].
    exists rmax, rmin. repeat split; try assumption.
    + apply Hlb, in_map, List.filter_In. split; assumption.
    + apply Hub, in_map, List.filter_In. split; assumption.
Qed.

(** X11.  Whenever [main] obtains its two samples, every year of the
    prior sample lies before every year of the recent one, and both
    samples consist of rows of the loaded table. *)
Theorem split_periods_ordered (df recent prior : list Row) :
  split_periods Year SP500 df = Ok (recent, prior) ->
  (forall a b, In a prior -> In b recent -> Year a < Year b)
  /\ incl recent df /\ incl prior df.
Proof.
  intros H.
  destruct (split_periods_cases df) as [[_ E]|[rmax [rmin [_ [_ [_ [_ [_ E]]]]]]]];
    [rewrite E in H; discriminate H|].
  cbv zeta in E. rewrite E in H. clear E.
  destruct (length _ <? 5)%nat; injection H as <- <-.
  - split; [|split].
    + intros a b Ha Hb.
      apply List.filter_In in Ha. destruct Ha as [_ Ha].
      apply List.filter_In in Hb. destruct Hb as [_ Hb].
      apply Rltb_true in Ha. apply Rleb_true in Hb. lra.
    + intros r Hr. apply List.filter_In in Hr. tauto.
    + intros r Hr. apply List.filter_In in Hr. tauto.
  - split; [|split].
    + intros a b Ha Hb.
      apply List.filter_In in Ha. destruct Ha as [_ Ha].
      apply List.filter_In in Hb. destruct Hb as [_ Hb].
      apply andb_true_iff in Ha. destruct Ha as [_ Ha].
      apply Rltb_true in Ha. apply Rleb_true in Hb. lra.
    + intros r Hr. apply List.filter_In in Hr. tauto.
    + intros r Hr. apply List.filter_In in Hr. tauto.
Qed.

(** X12.  The split fails exactly when no row of the table has an
    S&P 500 return, and then with [ValueError]; otherwise it yields
    the two samples. *)
Theorem split_periods_fails_iff_no_sp500 (df : list Row) :
  (split_periods Year SP500 df = Raise ValueError
   <-> forall r, In r df -> SP500 r = NaN)
  /\ (forall e, split_periods Year SP500 df = Raise e -> e = ValueError).
Proof.
  destruct (split_periods_cases df)
    as [[Hnil E]|[rmax [rmin [Hin [Hsp [_ [_ [_ E]]]]]]]].
  - rewrite E. split; [|intros e He; congruence].
    split; [|reflexivity]. intros _ r Hr.
    destruct (SP500 r) as [x|] eqn:Hx; [|reflexivity].
    assert (Hf : In r (List.filter (has_sp500 SP500) df)).
    { apply List.filter_In. split; [exact Hr|]. unfold has_sp500.
      rewrite Hx. reflexivity. }
    rewrite Hnil in Hf. destruct Hf.
  - cbv zeta in E. rewrite E. clear E.
    destruct (length _ <? 5)%nat.
    + split; [|intros e He; discriminate He].
      split; [intros He; discriminate He|]. intros Hall.
      unfold has_sp500 in Hsp. rewrite (Hall rmax Hin) in Hsp. discriminate Hsp.
    + split; [|intros e He; discriminate He].
      split; [intros He; discriminate He|]. intros Hall.
      unfold has_sp500 in Hsp. rewrite (Hall rmax Hin) in Hsp. discriminate Hsp.
Qed.

(** X13.  With whole-number years the recent sample is never empty,
    and every row that has an S&P 500 return falls into one of the two
    samples. *)
Theorem split_periods_cover (df recent prior : list Row) :
  (forall r, In r df -> exists z, Year r = IZR z) ->
  split_periods Year SP500 df = Ok (recent, prior) ->
  recent <> []
  /\ forall r, In r df -> has_sp500 SP500 r = true ->
               In r recent \/ In r prior.
Proof.
  intros Hwhole H.
  destruct (split_periods_cases df)
    as [[_ E]|[rmax [rmin [Hinx [Hspx [Hinn [Hspn [Hb E]]]]]]]];
    [rewrite E in H; discriminate H|].
  cbv zeta in E. rewrite E in H. clear E.
  destruct (Hwhole rmax Hinx) as [zl Hzl].
  destruct (Hwhole rmin Hinn) as [zf Hzf].
  rewrite Hzl, Hzf, !py_int_IZR in H.
  assert (Hfl : (zf <= zl)%Z).
  { apply le_IZR. rewrite <- Hzl, <- Hzf. apply (Hb rmax Hinx Hspx). }
  destruct (length _ <? 5)%nat; injection H as <- <-.
  - assert (Hmid : (zf + (zl - zf) / 2 <= zl)%Z).
    { assert ((zl - zf) / 2 <= zl - zf)%Z
        by (apply Z.div_le_upper_bound; lia). lia. }
    split.
    + intros Hnil.
      assert (Hr : In rmax (List.filter
                (fun r => Rleb (IZR (zf + (zl - zf) / 2)) (Year r)) df)).
      { apply List.filter_In. split; [exact Hinx|]. apply Rleb_true.
        rewrite Hzl. apply IZR_le, Hmid. }
      rewrite Hnil in Hr. destruct Hr.
    + intros r Hr _.
      destruct (Rle_dec (IZR (zf + (zl - zf) / 2)) (Year r)) as [Hle|Hgt].
      * left. apply List.filter_In. split; [exact Hr|]. apply Rleb_true, Hle.
      * right. apply List.filter_In. split; [exact Hr|]. apply Rltb_true. lra.
  - split.
    + intros Hnil.
      assert (Hr : In rmax (List.filter
                (fun r => Rleb (IZR (zl - 30)) (Year r)) df)).
      { apply List.filter_In. split; [exact Hinx|]. apply Rleb_true.
        rewrite Hzl. apply IZR_le. lia. }
      rewrite Hnil in Hr. destruct Hr.
    + intros r Hr Hsp.
      destruct (Rle_dec (IZR (zl - 30)) (Year r)) as [Hle|Hgt].
      * left. apply List.filter_In. split; [exact Hr|]. apply Rleb_true, Hle.
      * right. apply List.filter_In. split; [exact Hr|].
        apply andb_true_iff. split.
        -- apply Rleb_true. rewrite <- Hzf. apply (Hb r Hr Hsp).
        -- apply Rltb_true. lra.
Qed.

(** X14.  On a table with one row for each of [n >= 36] consecutive
    years, all with an S&P 500 return, the sample called the last 30
    years has 31 rows and the prior sample the other [n - 31]. *)
Theorem split_periods_consecutive_years (df : list Row) (y0 : Z) (n : nat) :
  map Year df = map (fun i => IZR (y0 + Z.of_nat i)) (seq 0 n) ->
  (forall r, In r df -> has_sp500 SP500 r = true) ->
  (36 <= n)%nat ->
  exists recent prior,
    split_periods Year SP500 df = Ok (recent, prior) /\
    length recent = 31%nat /\ length prior = (n - 31)%nat.
Proof.
  intros Hyears Hall Hn. unfold split_periods.
  rewrite (filter_all _ _ Hall), Hyears.
  set (yr := fun i => IZR (y0 + Z.of_nat i)).
  assert (Hmx : series_max (map yr (seq 0 n)) = Some (yr (n - 1)%nat)).
  { apply series_max_unique.
    - apply in_map, in_seq. lia.
    - intros x Hx. apply in_map_iff in Hx. destruct Hx as [i [<- Hi]].
      apply in_seq in Hi. unfold yr. apply IZR_le. lia. }
  assert (Hmn : series_min (map yr (seq 0 n)) = Some (yr 0%nat)).
  { apply series_min_unique.
    - apply in_map, in_seq. lia.
    - intros x Hx. apply in_map_iff in Hx. destruct Hx as [i [<- Hi]].
      unfold yr. apply IZR_le. lia. }
  rewrite Hmx, Hmn.
  assert (Hl : py_int (yr (n - 1)%nat) = (y0 + Z.of_nat (n - 1))%Z)
    by apply py_int_IZR.
  assert (Hf : py_int (yr 0%nat) = (y0 + Z.of_nat 0)%Z) by apply py_int_IZR.
  cbv zeta. rewrite !Hl, !Hf.
  assert (Hprior :
    length (List.filter
              (fun r => Rleb (IZR (y0 + Z.of_nat 0)) (Year r)
                        && Rltb (Year r)
                                (IZR (y0 + Z.of_nat (n - 1) - 30))) df)
    = (n - 31)%nat).
  { rewrite (length_filter_map Year
               (fun y => Rleb (IZR (y0 + Z.of_nat 0)) y
                         && Rltb y (IZR (y0 + Z.of_nat (n - 1) - 30))) df).
    rewrite Hyears.
    rewrite <- (length_filter_map yr).
    rewrite (List.filter_ext_in _ (fun i => (i <? n - 31)%nat)).
    - rewrite count_below. lia.
    - intros i Hi. apply in_seq in Hi. unfold yr.
      destruct (i <? n - 31)%nat eqn:E.
      + apply Nat.ltb_lt in E. apply andb_true_iff. split.
        * apply Rleb_true, IZR_le. lia.
        * apply Rltb_true, IZR_lt. lia.
      + apply Nat.ltb_ge in E. apply andb_false_iff. right.
        unfold Rltb. destruct (Rlt_dec _ _) as [Hlt|_]; [|reflexivity].
        apply lt_IZR in Hlt. lia. }
  assert (Hrecent :
    length (List.filter
              (fun r => Rleb (IZR (y0 + Z.of_nat (n - 1) - 30)) (Year r)) df)
    = 31%nat).
  { rewrite (length_filter_map Year
               (fun y => Rleb (IZR (y0 + Z.of_nat (n - 1) - 30)) y) df).
    rewrite Hyears.
    rewrite <- (length_filter_map yr).
    rewrite (List.filter_ext_in _ (fun i => (n - 31 <=? i)%nat)).
    - rewrite count_from. lia.
    - intros i Hi. apply in_seq in Hi. unfold yr.
      destruct (n - 31 <=? i)%nat eqn:E.
      + apply Nat.leb_le in E. apply Rleb_true, IZR_le. lia.
      + apply Nat.leb_gt in E.
        unfold Rleb. destruct (Rle_dec _ _) as [Hle|_]; [|reflexivity].
        apply le_IZR in Hle. lia. }
  rewrite Hprior.
  destruct (n - 31 <? 5)%nat eqn:E; [apply Nat.ltb_lt in E; lia|].
  eexists _, _. split; [reflexivity|]. split; [exact Hrecent|exact Hprior].
Qed.

End SplitFacts.

Lemma ex_short_split :
  split_periods fst snd ex_short
  = Ok ([(2002, NaN); (2003, Some 0.2); (2004, Some 0.3)], [(2001, Some 0.1)]).
Proof.
  unfold split_periods, ex_short. cbn [List.filter has_sp500 snd map fst].
  cbn [series_max series_min].
  assert (Hmx : Rmax 2001 (Rmax 2003 2004) = IZR 2004).
  { unfold Rmax. repeat (destruct (Rle_dec _ _)); lra. }
  assert (Hmn : Rmin 2001 (Rmin 2003 2004) = IZR 2001).
  { unfold Rmin. repeat (destruct (Rle_dec _ _)); lra. }
  rewrite Hmx, Hmn, !py_int_IZR.
  unfold Rleb, Rltb.
  change ((2001 + (2004 - 2001) / 2)%Z) with 2002%Z.
  change ((2004 - 30)%Z) with 1974%Z.
  repeat (destruct (Rle_dec _ _); try lra);
    repeat (destruct (Rlt_dec _ _); try lra); reflexivity.
Qed.

Lemma ex_short_whole (r : R * float) :
  In r ex_short -> exists z, fst r = IZR z.
Proof. intros [<-|[<-|[<-|[<-|[]]]]]; eexists; reflexivity. Qed.

Lemma split_periods_ordered_witness :
  (forall a b,
     In a [(2001, Some 0.1)] ->
     In b [(2002, NaN); (2003, Some 0.2); (2004, Some 0.3)] ->
     fst a < fst b)
  /\ incl [(2002, NaN); (2003, Some 0.2); (2004, Some 0.3)] ex_short
  /\ incl [(2001, Some 0.1)] ex_short.
Proof.
  apply (split_periods_ordered _ fst snd ex_short _ _ ex_short_split).
Defined.

Lemma split_periods_cover_witness :
  [(2002, NaN); (2003, Some 0.2); (2004, Some 0.3)] <> []
  /\ forall r, In r ex_short -> has_sp500 snd r = true ->
               In r [(2002, NaN); (2003, Some 0.2); (2004, Some 0.3)]
               \/ In r [(2001, Some 0.1)].
Proof.
  apply (split_periods_cover _ fst snd ex_short _ _ ex_short_whole ex_short_split).
Defined.

Lemma split_periods_consecutive_years_witness :
  exists recent prior,
    split_periods fst snd ex_years = Ok (recent, prior) /\
    length recent = 31%nat /\ length prior = 5%nat.
Proof.
  apply (split_periods_consecutive_years _ fst snd ex_years 1928 36).
  - reflexivity.
  - intros r Hr. apply in_map_iff in Hr. destruct Hr as [i [<- _]]. reflexivity.
  - lia.
Defined.

End Q1Main.

(** ** data_prep.py: local loaders *)

Module DataPrep.

Import Q1.
Local Open Scope Z_scope.

(** A calendar date: the ordinal of its month ([year * 12 + month - 1],
    as a pandas [Period[M]]) and the day of the month. *)
Record Timestamp : Type := mkTs { period_M : Z; day : Z }.

Definition ymd (y m d : Z) : Timestamp := mkTs (y * 12 + (m - 1)) d.

Definition is_leap (y : Z) : bool :=
  ((y mod 4 =? 0) && negb (y mod 100 =? 0)) || (y mod 400 =? 0).

Definition days_in_month (p : Z) : Z :=
  let y := p / 12 in
  let m := p mod 12 + 1 in
  if m =? 2 then (if is_leap y then 29 else 28)
  else if (m =? 4) || (m =? 6) || (m =? 9) || (m =? 11) then 30
  else 31.

(** [.dt.to_period("M").dt.to_timestamp("M")]: the last day of the month. *)
Definition to_month_end (t : Timestamp) : Timestamp :=
  mkTs (period_M t) (days_in_month (period_M t)).

(** Chronological order is the order of [ts_key] (days are 1..31). *)
Definition ts_key (t : Timestamp) : Z := period_M t * 32 + day t.

(** [sort_values]: ascending on a key.  pandas leaves the order of equal
    keys open; the model keeps their input order. *)
Section SortValues.

Context {A : Type} (key : A -> Z).

Fixpoint insert_by (x : A) (l : list A) : list A :=
  match l with
  | [] => [x]
  | y :: l' => if key x <=? key y then x :: l else y :: insert_by x l'
  end.

Definition sort_values (l : list A) : list A := fold_right insert_by [] l.

End SortValues.

(** [load_fund_monthly_returns] from the rows read from the workbook: the
    [date] cell (NaT is [None]) and the [return] cell. *)
Definition load_fund_monthly_returns (rows : list (option Timestamp * float))
  : list (Timestamp * R) :=
  let df := map (fun r => (option_map to_month_end (fst r), snd r)) rows in
  let complete :=
    flat_map (fun r => match r with
                       | (Some d, Some v) => [(d, v)]
                       | _ => []
                       end) df in
  sort_values (fun r => ts_key (fst r)) complete.

Definition factor_cols : list string :=
  ["mkt_rf"; "smb"; "hml"; "rmw"; "cma"; "rf"]%string.

(** The group keys of [groupby("month")]: distinct and ascending; rows
    without a date belong to no group. *)
Fixpoint insert_uniq (k : Z) (l : list Z) : list Z :=
  match l with
  | [] => [k]
  | x :: l' =>
      if k <? x then k :: l
      else if k =? x then l
      else x :: insert_uniq k l'
  end.

Definition group_keys (ks : list Z) : list Z := fold_right insert_uniq [] ks.

Definition row_months (rows : list (option Timestamp * list float)) : list Z :=
  flat_map (fun r => match fst r with Some t => [period_M t] | None => [] end) rows.

Definition group_of (p : Z) (rows : list (option Timestamp * list float))
  : list (list float) :=
  flat_map (fun r => match fst r with
                     | Some t => if period_M t =? p then [snd r] else []
                     | None => []
                     end) rows.

(** [(1.0 + x).prod() - 1.0] for the [j]-th factor column of a group. *)
Definition compound (group : list (list float)) (j : nat) : R :=
  (prod1p (dropna_values (map (fun r => nth j r NaN) group)) - 1)%R.

(** [load_ff5_monthly] from the daily rows: the [dt] cell and the six
    factor cells after [pd.to_numeric(errors="coerce")]. *)
Definition load_ff5_monthly (rows : list (option Timestamp * list float))
  : list (Timestamp * list R) :=
  let ff_monthly :=
    map (fun p => (mkTs p (days_in_month p),
                   map (compound (group_of p rows))
                       (seq 0 (length factor_cols))))
        (group_keys (row_months rows)) in
  sort_values (fun r => ts_key (fst r)) ff_monthly.

(** The data-model invariant of a return series. *)
Definition strictly_increasing (ds : list Timestamp) : Prop :=
  Sorted (fun a b => ts_key a < ts_key b) ds.

Definition non_decreasing (ds : list Timestamp) : Prop :=
  Sorted (fun a b => ts_key a <= ts_key b) ds.

Definition is_month_end (d : Timestamp) : Prop := day d = days_in_month (period_M d).

(** Two fund rows in January 2020. *)
Definition two_rows_one_month : list (option Timestamp * float) :=
  [(Some (ymd 2020 1 15), Some 0.01%R); (Some (ymd 2020 1 31), Some 0.02%R)].

(** The months of the rows that [load_fund_monthly_returns] keeps. *)
Definition fund_months (rows : list (option Timestamp * float)) : list Z :=
  flat_map (fun r => match r with
                     | (Some d, Some _) => [period_M d]
                     | _ => []
                     end) rows.

End DataPrep.

Module DataPrepFacts.

Import Q1 DataPrep.
Local Open Scope Z_scope.

Section SortFacts.

Context {A : Type} (key : A -> Z).

Lemma insert_by_perm (x : A) (l : list A) :
  Permutation (x :: l) (insert_by key x l).
Proof.
  induction l as [|y l IH]; simpl; [reflexivity|].
  destruct (key x <=? key y); [reflexivity|].
  rewrite perm_swap. constructor. exact IH.
Qed.

Lemma sort_values_perm (l : list A) : Permutation l (sort_values key l).
Proof.
  induction l as [|x l IH]; simpl; [constructor|].
  rewrite <- insert_by_perm. constructor. exact IH.
Qed.

Lemma insert_by_sorted (x : A) (l : list A) :
  Sorted (fun a b => key a <= key b) l ->
  Sorted (fun a b => key a <= key b) (insert_by key x l).
Proof.
  induction l as [|y l IH]; intros Hs; simpl.
  - repeat constructor.
  - destruct (key x <=? key y) eqn:E.
    + apply Z.leb_le in E. constructor; [exact Hs|]. constructor. exact E.
    + apply Z.leb_gt in E. inversion Hs as [|? ? Hs' Hhd]; subst.
      constructor; [apply IH, Hs'|].
      destruct l as [|z l]; simpl.
      * constructor. lia.
      * destruct (key x <=? key z).
        -- constructor. lia.
        -- inversion Hhd; subst. constructor. assumption.
Qed.

Lemma sort_values_sorted (l : list A) :
  Sorted (fun a b => key a <= key b) (sort_values key l).
Proof.
  induction l as [|x l IH]; simpl; [constructor|].
  apply insert_by_sorted, IH.
Qed.

(** A sorted list with pairwise distinct keys is strictly sorted. *)
Lemma sorted_nodup_strict (l : list A) :
  Sorted (fun a b => key a <= key b) l ->
  List.NoDup (map key l) ->
  Sorted (fun a b => key a < key b) l.
Proof.
  induction l as [|x l IH]; intros Hs Hnd; [constructor|].
  inversion Hs as [|? ? Hs' Hhd]; subst.
  inversion Hnd as [|? ? Hnotin Hnd']; subst.
  constructor; [apply IH; assumption|].
  destruct l as [|y l]; constructor.
  inversion Hhd; subst.
  assert (key x <> key y) by (intros E; apply Hnotin; left; symmetry; exact E).
  lia.
Qed.

End SortFacts.

Lemma Sorted_map {A B : Type} (f : A -> B) (R' : B -> B -> Prop) (l : list A) :
  Sorted (fun a b => R' (f a) (f b)) l -> Sorted R' (map f l).
Proof.
  induction 1 as [|x l Hs IH Hhd]; simpl; constructor; [exact IH|].
  destruct Hhd; simpl; constructor. assumption.
Qed.

Lemma NoDup_map_injective {A B : Type} (f : A -> B) (l : list A) :
  (forall x y, f x = f y -> x = y) -> List.NoDup l -> List.NoDup (map f l).
Proof.
  intros Hinj. induction 1 as [|x l Hx Hnd IH]; simpl; constructor; [|exact IH].
  intros Hin. apply in_map_iff in Hin. destruct Hin as [y [Hy Hin]].
  apply Hinj in Hy. subst y. contradiction.
Qed.

Lemma Sorted_lt_head (x : Z) (l : list Z) :
  Sorted Z.lt (x :: l) -> forall y, In y l -> x < y.
Proof.
  revert x. induction l as [|z l IH]; intros x Hs y Hy; [contradiction|].
  inversion Hs as [|? ? Hs' Hhd]; subst. inversion Hhd; subst.
  destruct Hy as [->|Hy]; [assumption|].
  specialize (IH z Hs' y Hy). lia.
Qed.

Lemma Sorted_lt_NoDup (l : list Z) : Sorted Z.lt l -> List.NoDup l.
Proof.
  induction l as [|x l IH]; intros Hs; constructor.
  - intros Hin. pose proof (Sorted_lt_head x l Hs x Hin). lia.
  - apply IH. inversion Hs; assumption.
Qed.

Lemma days_in_month_range (p : Z) : 28 <= days_in_month p <= 31.
Proof.
  unfold days_in_month.
  destruct (_ =? 2); [destruct (is_leap _); lia|].
  destruct (_ || _); lia.
Qed.

Lemma month_end_key_inj (p q : Z) :
  p * 32 + days_in_month p = q * 32 + days_in_month q -> p = q.
Proof.
  pose proof (days_in_month_range p). pose proof (days_in_month_range q). lia.
Qed.

(** *** [groupby] keys *)

Lemma insert_uniq_sorted (k : Z) (l : list Z) :
  Sorted Z.lt l -> Sorted Z.lt (insert_uniq k l).
Proof.
  induction l as [|x l IH]; intros Hs; simpl.
  - repeat constructor.
  - destruct (k <? x) eqn:E1.
    + apply Z.ltb_lt in E1. constructor; [exact Hs|]. constructor. exact E1.
    + apply Z.ltb_ge in E1. destruct (k =? x) eqn:E2; [exact Hs|].
      apply Z.eqb_neq in E2.
      inversion Hs as [|? ? Hs' Hhd]; subst.
      constructor; [apply IH, Hs'|].
      destruct l as [|z l]; simpl.
      * constructor. lia.
      * destruct (k <? z); [constructor; lia|].
        destruct (k =? z); inversion Hhd; subst.
        -- inversion Hs'; subst.
           match goal with H : HdRel _ z l |- _ => destruct H end;
             constructor; lia.
        -- constructor. assumption.
Qed.

Lemma group_keys_sorted (ks : list Z) : Sorted Z.lt (group_keys ks).
Proof.
  induction ks as [|k ks IH]; simpl; [constructor|].
  apply insert_uniq_sorted, IH.
Qed.

(** *** The fund loader *)

Lemma fund_complete_keys (rows : list (option Timestamp * float)) :
  map (fun r : Timestamp * R => ts_key (fst r))
      (flat_map (fun r => match r with
                          | (Some d, Some v) => [(d, v)]
                          | _ => []
                          end)
                (map (fun r => (option_map to_month_end (fst r), snd r)) rows))
  = map (fun p => p * 32 + days_in_month p) (fund_months rows).
Proof.
  unfold fund_months.
  induction rows as [|[[d|] [v|]] rows IH]; simpl;
    [reflexivity|f_equal; exact IH|exact IH..].
Qed.

Lemma fund_complete_month_end (rows : list (option Timestamp * float))
      (r : Timestamp * R) :
  In r (flat_map (fun r => match r with
                           | (Some d, Some v) => [(d, v)]
                           | _ => []
                           end)
                 (map (fun r => (option_map to_month_end (fst r), snd r)) rows)) ->
  is_month_end (fst r).
Proof.
  induction rows as [|[[d|] [v|]] rows IH]; simpl;
    [contradiction| |exact IH..].
  intros [<-|Hin]; [reflexivity|apply IH, Hin].
Qed.

(** C9, as stated, fails for [load_fund_monthly_returns]: two rows dated
    15 and 31 January 2020 both come out dated 31 January 2020. *)
Lemma load_fund_keeps_duplicate_months :
  map fst (load_fund_monthly_returns two_rows_one_month)
  = [ymd 2020 1 31; ymd 2020 1 31]
  /\ ~ strictly_increasing (map fst (load_fund_monthly_returns two_rows_one_month))
  /\ ~ List.NoDup (map fst (load_fund_monthly_returns two_rows_one_month)).
Proof.
  assert (E : map fst (load_fund_monthly_returns two_rows_one_month)
              = [ymd 2020 1 31; ymd 2020 1 31]) by reflexivity.
  rewrite E. split; [reflexivity|]. split.
  - intros Hs. inversion Hs as [|? ? _ Hhd]; subst.
    inversion Hhd as [|? ? Hlt]; subst. unfold ts_key in Hlt. lia.
  - intros Hnd. inversion Hnd as [|? ? Hnotin _]; subst.
    apply Hnotin. left. reflexivity.
Qed.

(** C9, amended.  The dates of [load_fund_monthly_returns] are month
    ends in non-decreasing order, and strictly increasing without
    duplicates when no two complete input rows fall in the same month;
    the dates of [load_ff5_monthly] are month ends in strictly
    increasing order, no month appearing twice. *)
Theorem loader_dates_ordered :
  (forall rows : list (option Timestamp * float),
      let dates := map fst (load_fund_monthly_returns rows) in
      non_decreasing dates /\
      Forall is_month_end dates /\
      (List.NoDup (fund_months rows) ->
       strictly_increasing dates /\ List.NoDup dates))
  /\ (forall rows : list (option Timestamp * list float),
        let dates := map fst (load_ff5_monthly rows) in
        strictly_increasing dates /\ List.NoDup dates /\
        Forall is_month_end dates).
Proof.
  assert (Hstrict_nodup : forall ds, strictly_increasing ds -> List.NoDup ds).
  { intros ds Hs.
    assert (Hk : List.NoDup (map ts_key ds)).
    { apply Sorted_lt_NoDup. apply Sorted_map. exact Hs. }
    clear Hs. induction ds as [|d ds IH]; constructor.
    - inversion Hk; subst. intros Hin. apply (in_map ts_key) in Hin. contradiction.
    - apply IH. inversion Hk; assumption. }
  split.
  - intros rows dates. subst dates. unfold load_fund_monthly_returns.
    set (complete := flat_map _ _).
    set (key := fun r : Timestamp * R => ts_key (fst r)).
    pose proof (sort_values_sorted key complete) as Hs.
    pose proof (sort_values_perm key complete) as Hp.
    split; [|split].
    + apply Sorted_map. exact Hs.
    + apply List.Forall_forall. intros d Hd. apply in_map_iff in Hd.
      destruct Hd as [r [<- Hr]].
      apply (fund_complete_month_end rows).
      apply (Permutation_in _ (Permutation_sym Hp)) in Hr. exact Hr.
    + intros Hnd.
      assert (Hst : strictly_increasing (map fst (sort_values key complete))).
      { apply Sorted_map. apply (sorted_nodup_strict key); [exact Hs|].
        apply (Permutation_NoDup (Permutation_map key Hp)).
        subst key complete. rewrite fund_complete_keys.
        apply NoDup_map_injective; [apply month_end_key_inj|exact Hnd]. }
      split; [exact Hst|apply Hstrict_nodup, Hst].
  - intros rows dates. subst dates. unfold load_ff5_monthly.
    set (ff_monthly := map _ (group_keys (row_months rows))).
    set (key := fun r : Timestamp * list R => ts_key (fst r)).
    pose proof (sort_values_sorted key ff_monthly) as Hs.
    pose proof (sort_values_perm key ff_monthly) as Hp.
    assert (Hst : strictly_increasing (map fst (sort_values key ff_monthly))).
    { apply Sorted_map. apply (sorted_nodup_strict key); [exact Hs|].
      apply (Permutation_NoDup (Permutation_map key Hp)).
      subst key ff_monthly. rewrite map_map. unfold ts_key. simpl.
      apply NoDup_map_injective; [apply month_end_key_inj|].
      apply Sorted_lt_NoDup, group_keys_sorted. }
    split; [exact Hst|]. split; [apply Hstrict_nodup, Hst|].
    apply List.Forall_forall. intros d Hd. apply in_map_iff in Hd.
    destruct Hd as [r [<- Hr]].
    apply (Permutation_in _ (Permutation_sym Hp)) in Hr.
    subst ff_monthly. apply in_map_iff in Hr. destruct Hr as [p [<- _]].
    reflexivity.
Qed.

Lemma loader_dates_ordered_witness :
  strictly_increasing
    (map fst (load_fund_monthly_returns
                [(Some (ymd 2020 2 10), Some 0.02%R);
                 (None, Some 0.05%R);
                 (Some (ymd 2020 1 15), Some 0.01%R)]))
  /\ List.NoDup
       (map fst (load_fund_monthly_returns
                   [(Some (ymd 2020 2 10), Some 0.02%R);
                    (None, Some 0.05%R);
                    (Some (ymd 2020 1 15), Some 0.01%R)])).
Proof.
  apply (proj1 loader_dates_ordered).
  repeat constructor; simpl; intuition lia.
Defined.

End DataPrepFacts.

(** ** data_prep.py: more on the two loaders *)

Module DataPrepMore.

Import Q1 DataPrep DataPrepFacts.
Local Open Scope Z_scope.

(** The rows of the workbook that have both a date and a return, dated
    at their month end, in input order. *)
Definition complete_rows (rows : list (option Timestamp * float))
  : list (Timestamp * R) :=
  flat_map (fun r => match r with
                     | (Some d, Some v) => [(to_month_end d, v)]
                     | _ => []
                     end) rows.

(** A loaded table, read again as workbook rows. *)
Definition as_rows (out : list (Timestamp * R)) : list (option Timestamp * float) :=
  map (fun r => (Some (fst r), Some (snd r))) out.

(** The non-missing values of factor [j] in the dated daily rows. *)
Definition daily_values (j : nat) (rows : list (option Timestamp * list float))
  : list R :=
  flat_map (fun r => match fst r with
                     | Some _ => match nth j (snd r) NaN with
                                 | Some v => [v]
                                 | None => []
                                 end
                     | None => []
                     end) rows.

(** Daily rows of January and February 2020 for the six factors; the
    second factor is missing throughout February. *)
Definition ex_daily : list (option Timestamp * list float) :=
  [(Some (ymd 2020 1 2), [Some 0.01; Some 0.02; NaN; NaN; NaN; NaN]%R);
   (Some (ymd 2020 2 3), [Some 0.03; NaN; NaN; NaN; NaN; NaN]%R);
   (None, [Some 0.5; Some 0.5; NaN; NaN; NaN; NaN]%R);
   (Some (ymd 2020 1 3), [Some (-0.02); NaN; NaN; NaN; NaN; NaN]%R)].

Lemma load_fund_complete_rows (rows : list (option Timestamp * float)) :
  load_fund_monthly_returns rows
  = sort_values (fun r => ts_key (fst r)) (complete_rows rows).
Proof.
  unfold load_fund_monthly_returns, complete_rows. f_equal.
  induction rows as [|[[d|] [v|]] rows IH]; simpl;
    [reflexivity|f_equal; exact IH|exact IH..].
Qed.

Lemma complete_rows_In (rows : list (option Timestamp * float))
      (d : Timestamp) (v : R) :
  In (d, v) (complete_rows rows) <->
  exists d0, In (Some d0, Some v) rows /\ d = to_month_end d0.
Proof.
  unfold complete_rows. rewrite in_flat_map. split.
  - intros [[od ov] [Hin H]].
    destruct od as [d0|]; [|destruct H]. destruct ov as [v0|]; [|destruct H].
    destruct H as [H|[]]. injection H as <- <-.
    exists d0. split; [exact Hin|reflexivity].
  - intros [d0 [Hin ->]]. exists (Some d0, Some v). split; [exact Hin|].
    left. reflexivity.
Qed.

Lemma complete_rows_length (rows : list (option Timestamp * float)) :
  length (complete_rows rows) = length (fund_months rows).
Proof.
  unfold complete_rows, fund_months.
  induction rows as [|[[d|] [v|]] rows IH]; simpl;
    [reflexivity|f_equal; exact IH|exact IH..].
Qed.

(** X24.  [load_fund_monthly_returns] only drops, re-dates and
    reorders: its rows are, up to order, the input rows that have both
    a date and a return, each dated at the end of its month and with
    its return unchanged; nothing is merged or averaged. *)
Theorem load_fund_rearranges_complete_rows
        (rows : list (option Timestamp * float)) :
  Permutation (load_fund_monthly_returns rows) (complete_rows rows)
  /\ length (load_fund_monthly_returns rows) = length (fund_months rows)
  /\ forall d v, In (d, v) (load_fund_monthly_returns rows) <->
                 exists d0, In (Some d0, Some v) rows /\ d = to_month_end d0.
Proof.
  rewrite load_fund_complete_rows.
  pose proof (sort_values_perm (fun r : Timestamp * R => ts_key (fst r))
                               (complete_rows rows)) as Hp.
  split; [symmetry; exact Hp|]. split.
  - rewrite <- (Permutation_length Hp). apply complete_rows_length.
  - intros d v. rewrite <- complete_rows_In. split.
    + apply Permutation_in. symmetry. exact Hp.
    + apply Permutation_in. exact Hp.
Qed.

Lemma sort_values_sorted_id {A : Type} (key : A -> Z) (l : list A) :
  Sorted (fun a b => key a <= key b) l -> sort_values key l = l.
Proof.
  induction 1 as [|x l Hs IH Hhd]; [reflexivity|].
  simpl. change (fold_right (insert_by key) [] l) with (sort_values key l).
  rewrite IH. destruct Hhd as [|y l' Hxy]; [reflexivity|].
  simpl. apply Z.leb_le in Hxy. rewrite Hxy. reflexivity.
Qed.

Lemma to_month_end_fixed (t : Timestamp) : is_month_end t -> to_month_end t = t.
Proof.
  destruct t as [p d]. unfold is_month_end, to_month_end. simpl.
  intros ->. reflexivity.
Qed.

Lemma complete_rows_as_rows (out : list (Timestamp * R)) :
  Forall (fun r => is_month_end (fst r)) out ->
  complete_rows (as_rows out) = out.
Proof.
  unfold complete_rows, as_rows.
  induction 1 as [|[d v] out Hd _ IH]; [reflexivity|].
  simpl in *. rewrite (to_month_end_fixed d Hd). f_equal. exact IH.
Qed.

(** X25.  The fund loader is idempotent on a table with at most one
    row a month: loading its own output again returns it unchanged.
    (Rows of the same month may be ordered either way by the sort,
    hence the restriction.) *)
Theorem load_fund_idempotent (rows : list (option Timestamp * float)) :
  List.NoDup (fund_months rows) ->
  load_fund_monthly_returns (as_rows (load_fund_monthly_returns rows))
  = load_fund_monthly_returns rows.
Proof.
  intros _.
  rewrite (load_fund_complete_rows (as_rows _)).
  assert (Hme : Forall (fun r => is_month_end (fst r))
                       (load_fund_monthly_returns rows)).
  { apply List.Forall_forall. intros r Hr.
    rewrite load_fund_complete_rows in Hr.
    apply (Permutation_in _ (Permutation_sym
             (sort_values_perm (fun r : Timestamp * R => ts_key (fst r))
                               (complete_rows rows)))) in Hr.
    destruct r as [d v]. apply complete_rows_In in Hr.
    destruct Hr as [d0 [_ ->]]. reflexivity. }
  rewrite (complete_rows_as_rows _ Hme).
  apply sort_values_sorted_id.
  rewrite load_fund_complete_rows. apply sort_values_sorted.
Qed.

Lemma load_fund_idempotent_witness :
  load_fund_monthly_returns
    (as_rows (load_fund_monthly_returns
                [(Some (ymd 2020 2 10), Some 0.02%R);
                 (None, Some 0.05%R);
                 (Some (ymd 2020 1 15), Some 0.01%R)]))
  = load_fund_monthly_returns
      [(Some (ymd 2020 2 10), Some 0.02%R);
       (None, Some 0.05%R);
       (Some (ymd 2020 1 15), Some 0.01%R)].
Proof.
  apply load_fund_idempotent.
  repeat constructor; simpl; intuition lia.
Defined.

(** *** The monthly factor table *)

Lemma insert_uniq_In (k x : Z) (l : list Z) :
  In x (insert_uniq k l) <-> x = k \/ In x l.
Proof.
  induction l as [|y l IH]; simpl.
  - split; [intros [<-|[]]; left; reflexivity|intros [->|[]]; left; reflexivity].
  - destruct (k <? y) eqn:E1; simpl.
    + split; [intros [<-|H]; [left; reflexivity|right; exact H]|].
      intros [->|H]; [left; reflexivity|right; exact H].
    + destruct (k =? y) eqn:E2; simpl.
      * apply Z.eqb_eq in E2. subst y. split; [intros H; right; exact H|].
        intros [->|H]; [left; reflexivity|exact H].
      * rewrite IH. tauto.
Qed.

Lemma group_keys_In (x : Z) (ks : list Z) : In x (group_keys ks) <-> In x ks.
Proof.
  induction ks as [|k ks IH]; simpl; [tauto|].
  rewrite insert_uniq_In, IH. split; intros [H|H]; auto.
Qed.

Lemma row_months_In (p : Z) (rows : list (option Timestamp * list float)) :
  In p (row_months rows) <-> exists d r, In (Some d, r) rows /\ period_M d = p.
Proof.
  unfold row_months. rewrite in_flat_map. split.
  - intros [[[d|] r] [Hin H]]; simpl in H; [|destruct H].
    destruct H as [<-|[]]. exists d, r. split; [exact Hin|reflexivity].
  - intros [d [r [Hin <-]]]. exists (Some d, r). split; [exact Hin|].
    left. reflexivity.
Qed.

Lemma load_ff5_perm (rows : list (option Timestamp * list float)) :
  Permutation
    (map (fun p => (mkTs p (days_in_month p),
                    map (compound (group_of p rows))
                        (seq 0 (length factor_cols))))
         (group_keys (row_months rows)))
    (load_ff5_monthly rows).
Proof. unfold load_ff5_monthly. apply sort_values_perm. Qed.

(** X26.  The monthly factor table has exactly one row for every month
    in which some daily row is dated, at that month's end, with six
    values; daily rows without a date contribute nothing. *)
Theorem load_ff5_months (rows : list (option Timestamp * list float)) :
  (forall t, In t (map fst (load_ff5_monthly rows)) <->
             exists d r, In (Some d, r) rows /\ t = to_month_end d)
  /\ (forall r, In r (load_ff5_monthly rows) -> length (snd r) = 6%nat)
  /\ length (load_ff5_monthly rows)
     = length (group_keys (row_months rows)).
Proof.
  pose proof (load_ff5_perm rows) as Hp. split; [|split].
  - intros t. split.
    + intros Ht. apply in_map_iff in Ht. destruct Ht as [r [<- Hr]].
      apply (Permutation_in _ (Permutation_sym Hp)) in Hr.
      apply in_map_iff in Hr. destruct Hr as [p [<- Hk]]. cbn [fst].
      apply group_keys_In, row_months_In in Hk.
      destruct Hk as [d [r [Hin <-]]]. exists d, r. split; [exact Hin|reflexivity].
    + intros [d [r [Hin ->]]]. apply in_map_iff.
      exists (to_month_end d,
              map (compound (group_of (period_M d) rows))
                  (seq 0 (length factor_cols))).
      split; [reflexivity|]. apply (Permutation_in _ Hp).
      apply in_map_iff. exists (period_M d). split; [reflexivity|].
      apply group_keys_In, row_months_In. exists d, r. split; [exact Hin|reflexivity].
  - intros r Hr. apply (Permutation_in _ (Permutation_sym Hp)) in Hr.
    apply in_map_iff in Hr. destruct Hr as [p [<- _]]. reflexivity.
  - rewrite <- (Permutation_length Hp). apply length_map.
Qed.

Lemma prod1p_perm (l l' : list R) : Permutation l l' -> prod1p l = prod1p l'.
Proof.
  induction 1 as [|x l l' _ IH|x y l|l l' l'' _ IH1 _ IH2]; simpl.
  - reflexivity.
  - rewrite IH. reflexivity.
  - lra.
  - rewrite IH1. exact IH2.
Qed.

(** The product of [g] over a list of months. *)
Definition months_prod (g : Z -> R) (keys : list Z) : R :=
  fold_right (fun p acc => (g p * acc)%R) 1%R keys.

Lemma prod1p_months (g : Z -> R) (keys : list Z) :
  prod1p (map (fun p => (g p - 1)%R) keys) = months_prod g keys.
Proof.
  induction keys as [|p keys IH]; simpl; [reflexivity|].
  rewrite IH. lra.
Qed.

Lemma months_prod_ext (g h : Z -> R) (keys : list Z) :
  (forall p, In p keys -> g p = h p) -> months_prod g keys = months_prod h keys.
Proof.
  induction keys as [|p keys IH]; intros H; simpl; [reflexivity|].
  rewrite (H p (or_introl eq_refl)), IH; [reflexivity|].
  intros q Hq. apply H. right. exact Hq.
Qed.

Lemma months_prod_one (keys : list Z) : months_prod (fun _ => 1%R) keys = 1%R.
Proof. induction keys as [|p keys IH]; simpl; [reflexivity|]. rewrite IH. lra. Qed.

Lemma months_prod_scale_absent (g : Z -> R) (c : R) (q : Z) (keys : list Z) :
  ~ In q keys ->
  months_prod (fun p => if p =? q then (c * g p)%R else g p) keys
  = months_prod g keys.
Proof.
  intros Hq. apply months_prod_ext. intros p Hp.
  destruct (p =? q) eqn:E; [|reflexivity].
  apply Z.eqb_eq in E. subst p. contradiction.
Qed.

Lemma months_prod_scale_once (g : Z -> R) (c : R) (q : Z) (keys : list Z) :
  List.NoDup keys -> In q keys ->
  months_prod (fun p => if p =? q then (c * g p)%R else g p) keys
  = (c * months_prod g keys)%R.
Proof.
  induction 1 as [|p keys Hp Hnd IH]; intros Hq; [destruct Hq|].
  cbn [months_prod fold_right]. fold (months_prod g keys).
  fold (months_prod (fun p => if p =? q then (c * g p)%R else g p) keys).
  destruct Hq as [->|Hq].
  - rewrite Z.eqb_refl, (months_prod_scale_absent g c q keys Hp). lra.
  - destruct (p =? q) eqn:E.
    + apply Z.eqb_eq in E. subst p. contradiction.
    + rewrite (IH Hq). lra.
Qed.

(** The compounded value of factor [j] over the rows of month [p]. *)
Definition month_growth (j : nat) (rows : list (option Timestamp * list float))
           (p : Z) : R :=
  prod1p (dropna_values (map (fun r => nth j r NaN) (group_of p rows))).

Lemma month_growth_cons (j : nat) (r : option Timestamp * list float)
      (rows : list (option Timestamp * list float)) (p : Z) :
  month_growth j (r :: rows) p
  = match fst r, nth j (snd r) NaN with
    | Some t, Some v =>
        if p =? period_M t then ((1 + v) * month_growth j rows p)%R
        else month_growth j rows p
    | _, _ => month_growth j rows p
    end.
Proof.
  unfold month_growth. destruct r as [[t|] vals]; cbn [group_of flat_map fst snd].
  - rewrite (Z.eqb_sym p). destruct (period_M t =? p).
    + cbn [app map]. unfold dropna_values. cbn [flat_map].
      destruct (nth j vals NaN); reflexivity.
    + destruct (nth j vals NaN); reflexivity.
  - reflexivity.
Qed.

Lemma months_prod_growth (j : nat) (rows : list (option Timestamp * list float))
      (keys : list Z) :
  List.NoDup keys ->
  (forall q, In q (row_months rows) -> In q keys) ->
  months_prod (month_growth j rows) keys = prod1p (daily_values j rows).
Proof.
  intros Hnd. induction rows as [|r rows IH]; intros Hall.
  - unfold month_growth. cbn. apply months_prod_one.
  - assert (Hrest : forall q, In q (row_months rows) -> In q keys).
    { intros q Hq. apply Hall. unfold row_months in *. cbn [flat_map].
      apply in_or_app. right. exact Hq. }
    rewrite (months_prod_ext _ _ keys
               (fun p _ => month_growth_cons j r rows p)).
    unfold daily_values. cbn [flat_map]. fold (daily_values j rows).
    destruct r as [[t|] vals]; cbn [fst snd]; [|apply IH, Hrest].
    destruct (nth j vals NaN) as [v|]; [|apply IH, Hrest].
    rewrite (months_prod_scale_once (month_growth j rows) (1 + v)%R
                                    (period_M t) keys Hnd).
    + rewrite (IH Hrest). reflexivity.
    + apply Hall. unfold row_months. cbn [flat_map fst]. left. reflexivity.
Qed.

Lemma nth_map_seq {A : Type} (f : nat -> A) (n j : nat) (d : A) :
  (j < n)%nat -> nth j (map f (seq 0 n)) d = f j.
Proof.
  intros Hj. rewrite (nth_indep _ d (f 0%nat)) by (rewrite length_map, length_seq; exact Hj).
  rewrite (map_nth f (seq 0 n) 0%nat j), seq_nth by exact Hj. reflexivity.
Qed.

(** X27.  Monthly compounding loses nothing: for each of the six
    factors, compounding its monthly returns over the whole table
    gives the same growth as compounding all its non-missing daily
    returns of the dated rows. *)
Theorem ff5_monthly_compounds_daily
        (rows : list (option Timestamp * list float)) (j : nat) :
  (j < 6)%nat ->
  prod1p (map (fun r => nth j (snd r) 0%R) (load_ff5_monthly rows))
  = prod1p (daily_values j rows).
Proof.
  intros Hj.
  rewrite <- (prod1p_perm _ _
                (Permutation_map (fun r : Timestamp * list R => nth j (snd r) 0%R)
                                 (load_ff5_perm rows))).
  rewrite map_map. cbn [snd].
  rewrite (map_ext _ (fun p => (month_growth j rows p - 1)%R)).
  - rewrite prod1p_months. apply months_prod_growth.
    + apply Sorted_lt_NoDup, group_keys_sorted.
    + intros q Hq. apply group_keys_In, Hq.
  - intros p. rewrite nth_map_seq by exact Hj. reflexivity.
Qed.

Lemma ff5_monthly_compounds_daily_witness :
  prod1p (map (fun r => nth 0 (snd r) 0%R) (load_ff5_monthly ex_daily))
  = prod1p (daily_values 0 ex_daily).
Proof. apply ff5_monthly_compounds_daily. lia. Defined.

(** X28.  A month in which a factor has no numeric value gets the
    return 0 for that factor, not NaN: the product over no values
    is 1. *)
Theorem ff5_month_without_values_is_zero
        (rows : list (option Timestamp * list float))
        (t : Timestamp) (vals : list R) (j : nat) :
  In (t, vals) (load_ff5_monthly rows) ->
  (j < 6)%nat ->
  (forall d r, In (Some d, r) rows -> period_M d = period_M t ->
               nth j r NaN = NaN) ->
  nth j vals 1%R = 0%R.
Proof.
  intros Hin Hj Hnan.
  apply (Permutation_in _ (Permutation_sym (load_ff5_perm rows))) in Hin.
  apply in_map_iff in Hin. destruct Hin as [p [E _]].
  injection E as <- <-. cbn [period_M] in Hnan.
  change (nth j (map (compound (group_of p rows)) (seq 0 6)) 1%R = 0%R).
  rewrite nth_map_seq by exact Hj.
  unfold compound.
  assert (Hnil : dropna_values (map (fun r => nth j r NaN) (group_of p rows)) = []).
  { unfold group_of. induction rows as [|[[d|] r] rows IH]; cbn [flat_map fst snd].
    - reflexivity.
    - assert (IH' := IH (fun d0 r0 H => Hnan d0 r0 (or_intror H))).
      destruct (period_M d =? p) eqn:Ep; [|exact IH'].
      apply Z.eqb_eq in Ep. cbn [app map]. unfold dropna_values. cbn [flat_map].
      rewrite (Hnan d r (or_introl eq_refl) Ep). exact IH'.
    - apply IH. intros d0 r0 H. apply (Hnan d0 r0). right. exact H. }
  rewrite Hnil. simpl. lra.
Qed.

Lemma ff5_month_without_values_is_zero_witness :
  exists vals,
    In (ymd 2020 2 29, vals) (load_ff5_monthly ex_daily) /\ nth 1 vals 1%R = 0%R.
Proof.
  eexists. split; [right; left; reflexivity|].
  eapply (ff5_month_without_values_is_zero ex_daily (ymd 2020 2 29) _ 1).
  - right. left. reflexivity.
  - lia.
  - intros d r [H|[H|[H|[H|[]]]]] Hp; try discriminate H;
      injection H as <- <-; try reflexivity;
      vm_compute in Hp; discriminate Hp.
Defined.

End DataPrepMore.

(** ** data_prep.py: [fetch_all_external_factors] *)

Module ExternalFactors.

(** A file: its directory and its name ([cache_dir / "name.csv"]). *)
Abbreviation Path := (string * string)%type.

Definition fred_name : string := "fred_factors_monthly.csv".
Definition aqr_name : string := "aqr_factors_monthly.csv".
Definition jkp_name : string := "jkp_theme_factors_monthly.csv".

(** The lines printed at the end, with the exception they report. *)
Inductive Warning : Type :=
| FredLoadedCache (e : exn)
| FredNoCache (e : exn)
| AqrLoadedCache (e : exn)
| AqrNoCache (e : exn)
| JkpLoadFailed (e : exn).

Section Fetch.

(** pandas: the frame type, the content of a CSV file and the
    operations the function uses. *)
Variable DF : Type.
Variable CSV : Type.
Variable read_csv : CSV -> pyresult DF.
Variable to_csv : DF -> CSV.
(** ["date" in df.columns], [df.empty], [len(df) == 0] *)
Variable has_date : DF -> bool.
Variable empty : DF -> bool.
Variable len_is_0 : DF -> bool.
(** [pd.DataFrame(columns=["date"])] *)
Variable date_frame : DF.
(** [to_datetime(errors="coerce")], [dropna(subset=["date"])],
    [sort_values("date")], [reset_index(drop=True)] *)
Variable parse_sort_dates : DF -> DF.
(** the [date] column moved to month ends *)
Variable month_end_dates : DF -> DF.
(** [out.merge(part, on="date", how="outer")] *)
Variable merge_outer : DF -> DF -> DF.
(** [out[out["date"] >= pd.Timestamp(start)].sort_values("date")
    .reset_index(drop=True)] *)
Variable from_start : string -> DF -> DF.

(** The file system seen by the function: the files that exist, with
    their content. *)
Abbreviation Files := (gmap Path CSV).

Definition _load_csv_fallback (content : CSV) : pyresult DF :=
  try! df <- read_csv content;
  if has_date df then Ok (parse_sort_dates df) else Raise ValueError.

Definition _load_jkp_local (fs : Files) (data_dir : string) : pyresult DF :=
  match fs !! (data_dir, jkp_name) with
  | None => Ok date_frame
  | Some content =>
      try! df <- read_csv content;
      if has_date df then Ok (month_end_dates (parse_sort_dates df))
      else Raise ValueError
  end.

Definition cache_path (cache_dir : option string) (name : string) : option Path :=
  option_map (fun d => (d, name)) cache_dir.

Definition write_cache (cache : option Path) (df : DF) (fs : Files) : Files :=
  match cache with
  | Some p => <[p := to_csv df]> fs
  | None => fs
  end.

(** The [except] branch of one source: the cached copy if the file
    exists, else a frame with only a [date] column.  An exception of
    [_load_csv_fallback] is not caught. *)
Definition fall_back (cache : option Path) (fs : Files)
           (loaded no_cache : Warning) : pyresult (DF * list Warning) :=
  match cache with
  | Some p =>
      match fs !! p with
      | Some content =>
          try! df <- _load_csv_fallback content;
          Ok (df, [loaded])
      | None => Ok (date_frame, [no_cache])
      end
  | None => Ok (date_frame, [no_cache])
  end.

(** Lines 294-305.  [net_fred] is the outcome of
    [_fetch_fred_factors(start=start)]; writing the cache is taken to
    succeed. *)
Definition fred_stage (net_fred : pyresult DF) (cache_dir : option string)
           (fs : Files) : pyresult (DF * list Warning) * Files :=
  let fred_cache := cache_path cache_dir fred_name in
  match net_fred with
  | Ok fred => (Ok (fred, []), write_cache fred_cache fred fs)
  | Raise e => (fall_back fred_cache fs (FredLoadedCache e) (FredNoCache e), fs)
  end.

(** Lines 308-321.  An empty result is turned into a [RuntimeError]. *)
Definition aqr_stage (net_aqr : pyresult DF) (cache_dir : option string)
           (fs : Files) : pyresult (DF * list Warning) * Files :=
  let aqr_cache := cache_path cache_dir aqr_name in
  let failed e := (fall_back aqr_cache fs (AqrLoadedCache e) (AqrNoCache e), fs) in
  match net_aqr with
  | Ok aqr =>
      if empty aqr then failed RuntimeError
      else (Ok (aqr, []), write_cache aqr_cache aqr fs)
  | Raise e => failed e
  end.

(** Lines 324-329. *)
Definition jkp_stage (data_dir : option string) (fs : Files) : DF * list Warning :=
  match data_dir with
  | Some d =>
      match _load_jkp_local fs d with
      | Ok jkp => (jkp, [])
      | Raise e => (date_frame, [JkpLoadFailed e])
      end
  | None => (date_frame, [])
  end.

(** One turn of the loop of lines 333-338. *)
Definition merge_part (out part : DF) : DF :=
  if negb (empty part) && has_date part then
    if empty out || negb (has_date out) || len_is_0 out then part
    else merge_outer out part
  else out.

(** Lines 332-341. *)
Definition merge_all (start : string) (fred aqr jkp : DF) : DF :=
  let out := if negb (empty fred) then fred else date_frame in
  let out := merge_part (merge_part out aqr) jkp in
  if negb (empty out) && has_date out then from_start start out else out.

(** The returned frame with the printed warnings, or the exception
    that escapes, and the files afterwards. *)
Definition fetch_all_external_factors
           (net_fred net_aqr : pyresult DF) (start : string)
           (cache_dir data_dir : option string) (fs : Files)
  : pyresult (DF * list Warning) * Files :=
  match fred_stage net_fred cache_dir fs with
  | (Raise e, fs1) => (Raise e, fs1)
  | (Ok (fred, w1), fs1) =>
      match aqr_stage net_aqr cache_dir fs1 with
      | (Raise e, fs2) => (Raise e, fs2)
      | (Ok (aqr, w2), fs2) =>
          let (jkp, w3) := jkp_stage data_dir fs2 in
          (Ok (merge_all start fred aqr jkp, w1 ++ w2 ++ w3), fs2)
      end
  end.

(** The returned frame alone. *)
Definition returned (r : pyresult (DF * list Warning) * Files) : pyresult DF :=
  match fst r with
  | Ok (out, _) => Ok out
  | Raise e => Raise e
  end.

(** *** Facts *)

Definition agree_off (p : Path) (fs fs' : Files) : Prop :=
  forall q, q <> p -> fs !! q = fs' !! q.

Lemma write_cache_agree (p : Path) (cache_dir : option string) (name : string)
      (df : DF) (fs fs' : Files) :
  agree_off p fs fs' ->
  agree_off p (write_cache (cache_path cache_dir name) df fs)
              (write_cache (cache_path cache_dir name) df fs').
Proof.
  intros H q Hq. destruct cache_dir as [d|]; simpl; [|apply H, Hq].
  rewrite !lookup_insert. case_decide; [reflexivity|].
  apply H, Hq.
Qed.

Lemma fall_back_agree (p : Path) (cache_dir : option string) (name : string)
      (fs fs' : Files) (w1 w2 : Warning) :
  agree_off p fs fs' -> name <> snd p ->
  fall_back (cache_path cache_dir name) fs w1 w2
  = fall_back (cache_path cache_dir name) fs' w1 w2.
Proof.
  intros H Hn. destruct cache_dir as [d|]; simpl; [|reflexivity].
  rewrite (H (d, name)); [reflexivity|].
  intros E. apply Hn. rewrite <- E. reflexivity.
Qed.

Lemma aqr_stage_agree (p : Path) (net_aqr : pyresult DF)
      (cache_dir : option string) (fs fs' : Files) :
  agree_off p fs fs' -> aqr_name <> snd p ->
  fst (aqr_stage net_aqr cache_dir fs) = fst (aqr_stage net_aqr cache_dir fs')
  /\ agree_off p (snd (aqr_stage net_aqr cache_dir fs))
                 (snd (aqr_stage net_aqr cache_dir fs')).
Proof.
  intros H Hn. unfold aqr_stage.
  destruct net_aqr as [aqr|e]; [destruct (empty aqr)|]; simpl.
  - split; [apply (fall_back_agree p); assumption|exact H].
  - split; [reflexivity|apply write_cache_agree, H].
  - split; [apply (fall_back_agree p); assumption|exact H].
Qed.

Lemma jkp_stage_agree (p : Path) (data_dir : option string) (fs fs' : Files) :
  agree_off p fs fs' -> jkp_name <> snd p ->
  jkp_stage data_dir fs = jkp_stage data_dir fs'.
Proof.
  intros H Hn. unfold jkp_stage, _load_jkp_local.
  destruct data_dir as [d|]; [|reflexivity]. cbn beta iota.
  rewrite (H (d, jkp_name)); [reflexivity|].
  intros E. apply Hn. rewrite <- E. reflexivity.
Qed.

Lemma insert_agree_off (p : Path) (c : CSV) (fs : Files) :
  agree_off p fs (<[p := c]> fs).
Proof. intros q Hq. rewrite lookup_insert_ne; [reflexivity|congruence]. Qed.

(** The rest of the function after the first stage sees the same
    frames whether or not the FRED cache file was rewritten. *)
Lemma fetch_after_fred (d : string) (c : CSV) (fred : DF)
      (w w' : list Warning -> list Warning -> list Warning)
      (net_aqr : pyresult DF) (start : string) (data_dir : option string)
      (fs : Files) :
  returned
    (match aqr_stage net_aqr (Some d) fs with
     | (Raise e, fs2) => (Raise e, fs2)
     | (Ok (aqr, w2), fs2) =>
         let (jkp, w3) := jkp_stage data_dir fs2 in
         (Ok (merge_all start fred aqr jkp, w w2 w3), fs2)
     end)
  = returned
      (match aqr_stage net_aqr (Some d) (<[(d, fred_name) := c]> fs) with
       | (Raise e, fs2) => (Raise e, fs2)
       | (Ok (aqr, w2), fs2) =>
           let (jkp, w3) := jkp_stage data_dir fs2 in
           (Ok (merge_all start fred aqr jkp, w' w2 w3), fs2)
       end).
Proof.
  destruct (aqr_stage_agree (d, fred_name) net_aqr (Some d) fs
              (<[(d, fred_name) := c]> fs) (insert_agree_off _ c fs))
    as [Hfst Hsnd]; [discriminate|].
  destruct (aqr_stage net_aqr (Some d) fs) as [[[aqr w2]|e] fs2];
    destruct (aqr_stage net_aqr (Some d) (<[(d, fred_name) := c]> fs))
      as [[[aqr' w2']|e'] fs2']; simpl in Hfst, Hsnd;
    try discriminate Hfst.
  - injection Hfst as <- <-.
    rewrite (jkp_stage_agree (d, fred_name) data_dir fs2 fs2' Hsnd)
      by discriminate.
    destruct (jkp_stage data_dir fs2') as [jkp w3]. reflexivity.
  - injection Hfst as <-. reflexivity.
Qed.

(** C6.  For each online source: when its fetch fails (for AQR, also
    when it comes back empty) and the cache file exists and loads as
    the frame [v], the returned frame is the one a successful fetch of
    [v] gives; when its fetch fails and there is no cache file, the
    source contributes the frame with only a [date] column and one
    warning; and when both fetches fail without cache the function
    returns the merge of the two empty contributions with the local
    JKP part, leaving the files as they were. *)
Theorem cached_fallback_matches_fetch :
  (forall (e : exn) (d : string) (c : CSV) (v : DF) (net_aqr : pyresult DF)
          (start : string) (data_dir : option string) (fs : Files),
      fs !! (d, fred_name) = Some c ->
      _load_csv_fallback c = Ok v ->
      returned (fetch_all_external_factors (Raise e) net_aqr start
                                           (Some d) data_dir fs)
      = returned (fetch_all_external_factors (Ok v) net_aqr start
                                             (Some d) data_dir fs))
  /\ (forall (failed : pyresult DF) (d : string) (c : CSV) (v : DF)
             (net_fred : pyresult DF)
             (start : string) (data_dir : option string) (fs : Files),
        (forall x, failed = Ok x -> empty x = true) ->
        fs !! (d, aqr_name) = Some c ->
        _load_csv_fallback c = Ok v ->
        returned (fetch_all_external_factors net_fred failed start
                                             (Some d) data_dir fs)
        = returned (fetch_all_external_factors net_fred (Ok v) start
                                               (Some d) data_dir fs))
  /\ (forall (e : exn) (cache_dir : option string) (fs : Files),
        (forall d, cache_dir = Some d -> fs !! (d, fred_name) = None) ->
        fred_stage (Raise e) cache_dir fs
        = (Ok (date_frame, [FredNoCache e]), fs))
  /\ (forall (e : exn) (cache_dir : option string) (fs : Files),
        (forall d, cache_dir = Some d -> fs !! (d, aqr_name) = None) ->
        aqr_stage (Raise e) cache_dir fs
        = (Ok (date_frame, [AqrNoCache e]), fs))
  /\ (forall (e1 e2 : exn) (start : string) (cache_dir data_dir : option string)
             (fs : Files),
        (forall d, cache_dir = Some d ->
                   fs !! (d, fred_name) = None /\ fs !! (d, aqr_name) = None) ->
        fetch_all_external_factors (Raise e1) (Raise e2) start
                                   cache_dir data_dir fs
        = (Ok (merge_all start date_frame date_frame
                         (fst (jkp_stage data_dir fs)),
               [FredNoCache e1; AqrNoCache e2] ++ snd (jkp_stage data_dir fs)),
           fs)).
Proof.
  assert (Hfred : forall e cache_dir fs,
             (forall d, cache_dir = Some d -> fs !! (d, fred_name) = None) ->
             fred_stage (Raise e) cache_dir fs
             = (Ok (date_frame, [FredNoCache e]), fs)).
  { intros e cache_dir fs H. unfold fred_stage, fall_back.
    destruct cache_dir as [d|]; simpl; [|reflexivity].
    rewrite (H d eq_refl). reflexivity. }
  assert (Haqr : forall e cache_dir fs,
             (forall d, cache_dir = Some d -> fs !! (d, aqr_name) = None) ->
             aqr_stage (Raise e) cache_dir fs
             = (Ok (date_frame, [AqrNoCache e]), fs)).
  { intros e cache_dir fs H. unfold aqr_stage, fall_back.
    destruct cache_dir as [d|]; simpl; [|reflexivity].
    rewrite (H d eq_refl). reflexivity. }
  split; [|split; [|split; [exact Hfred|split; [exact Haqr|]]]].
  - intros e d c v net_aqr start data_dir fs Hc Hv.
    unfold fetch_all_external_factors, fred_stage, fall_back. simpl.
    rewrite Hc, Hv. simpl.
    exact (fetch_after_fred d (to_csv v) v
             (fun w2 w3 => FredLoadedCache e :: w2 ++ w3)
             (fun w2 w3 => w2 ++ w3) net_aqr start data_dir fs).
  - intros failed d c v net_fred start data_dir fs Hfail Hc Hv.
    unfold fetch_all_external_factors.
    destruct (fred_stage net_fred (Some d) fs) as [[[fred w1]|e1] fs1] eqn:Hst;
      [|reflexivity].
    assert (Hc1 : fs1 !! (d, aqr_name) = Some c).
    { unfold fred_stage in Hst. destruct net_fred as [x|e0]; simpl in Hst.
      - injection Hst as _ _ <-. rewrite lookup_insert_ne; [exact Hc|discriminate].
      - injection Hst as _ <-. exact Hc. }
    assert (Hfailed : aqr_stage failed (Some d) fs1
                      = (Ok (v, [AqrLoadedCache
                                   match failed with
                                   | Ok _ => RuntimeError
                                   | Raise e => e
                                   end]), fs1)).
    { unfold aqr_stage, fall_back. simpl.
      destruct failed as [x|e0].
      - rewrite (Hfail x eq_refl), Hc1, Hv. reflexivity.
      - rewrite Hc1, Hv. reflexivity. }
    rewrite Hfailed. unfold aqr_stage at 1, fall_back. simpl.
    destruct (empty v).
    + rewrite Hc1, Hv. simpl.
      destruct (jkp_stage data_dir fs1) as [jkp w3]. reflexivity.
    + rewrite (jkp_stage_agree (d, aqr_name) data_dir fs1
                 (<[(d, aqr_name) := to_csv v]> fs1)
                 (insert_agree_off _ _ fs1)) by discriminate.
      destruct (jkp_stage data_dir _) as [jkp w3]. reflexivity.
  - intros e1 e2 start cache_dir data_dir fs H.
    unfold fetch_all_external_factors.
    rewrite Hfred by (intros d Hd; apply (H d Hd)).
    rewrite Haqr by (intros d Hd; apply (H d Hd)).
    destruct (jkp_stage data_dir fs) as [jkp w3]. reflexivity.
Qed.

(** *** Errors, files and repeated runs *)

(** The AQR fetch did not deliver: it raised or came back empty. *)
Definition fetch_failed_aqr (net_aqr : pyresult DF) : bool :=
  match net_aqr with
  | Ok aqr => empty aqr
  | Raise _ => true
  end.

(** [pd.DataFrame()] *)
Variable empty_frame : DF.

(** [_fetch_aqr_factors], lines 227-252.  [get key] is the outcome of
    downloading and parsing the workbook of [key]; every parsed part
    has a [date] column, so the merge goes through.  The result comes
    with the collected [errors]. *)
Definition AQR_KEYS : list string := ["tsmom"; "vme"; "qmj"; "bab"].

Definition aqr_merge (get : string -> pyresult DF) (merged : DF) (key : string)
  : DF :=
  match get key with
  | Ok part => if empty merged then part else merge_outer merged part
  | Raise _ => merged
  end.

Definition aqr_errors (get : string -> pyresult DF) : list (string * exn) :=
  flat_map (fun key => match get key with
                       | Raise e => [(key, e)]
                       | Ok _ => []
                       end) AQR_KEYS.

Definition _fetch_aqr_factors (get : string -> pyresult DF) (start : string)
  : DF * list (string * exn) :=
  let merged := fold_left (aqr_merge get) AQR_KEYS empty_frame in
  (if empty merged then date_frame else from_start start merged,
   aqr_errors get).

Lemma fall_back_raise (cache : option Path) (fs : Files) (w1 w2 : Warning)
      (e : exn) :
  fall_back cache fs w1 w2 = Raise e <->
  exists p c, cache = Some p /\ fs !! p = Some c /\ _load_csv_fallback c = Raise e.
Proof.
  unfold fall_back. destruct cache as [p|].
  - destruct (fs !! p) as [c|] eqn:Hc.
    + destruct (_load_csv_fallback c) as [v|e'] eqn:Hv; cbn [bind]; split.
      * intros H. discriminate H.
      * intros [p' [c' [Hp [Hc' Hv']]]]. injection Hp as <-.
        rewrite Hc in Hc'. injection Hc' as <-. congruence.
      * intros H. injection H as ->. exists p, c. repeat split; assumption.
      * intros [p' [c' [Hp [Hc' Hv']]]]. injection Hp as <-.
        rewrite Hc in Hc'. injection Hc' as <-. congruence.
    + split; [intros H; discriminate H|].
      intros [p' [c' [Hp [Hc' _]]]]. injection Hp as <-. congruence.
  - split; [intros H; discriminate H|].
    intros [p' [c' [Hp _]]]. discriminate Hp.
Qed.

Lemma fred_stage_raise (net_fred : pyresult DF) (cache_dir : option string)
      (fs : Files) (e : exn) :
  fst (fred_stage net_fred cache_dir fs) = Raise e <->
  exists d e0 c, cache_dir = Some d /\ net_fred = Raise e0 /\
                 fs !! (d, fred_name) = Some c /\ _load_csv_fallback c = Raise e.
Proof.
  unfold fred_stage. destruct net_fred as [fred|e0]; cbn [fst].
  - split; [intros H; discriminate H|].
    intros [d [e0 [c [_ [H _]]]]]. discriminate H.
  - rewrite fall_back_raise. split.
    + intros [p [c [Hp [Hc Hv]]]]. destruct cache_dir as [d|]; [|discriminate Hp].
      injection Hp as <-. exists d, e0, c. repeat split; assumption.
    + intros [d [e0' [c [-> [_ [Hc Hv]]]]]]. exists (d, fred_name), c.
      repeat split; assumption.
Qed.

Lemma fred_stage_files (net_fred : pyresult DF) (cache_dir : option string)
      (fs : Files) (q : Path) :
  (forall d, cache_dir = Some d -> q <> (d, fred_name)) ->
  snd (fred_stage net_fred cache_dir fs) !! q = fs !! q.
Proof.
  intros Hq. unfold fred_stage.
  destruct net_fred as [fred|e0]; cbn [snd]; [|reflexivity].
  destruct cache_dir as [d|]; cbn [cache_path option_map write_cache];
    [|reflexivity].
  apply lookup_insert_ne. intros E. apply (Hq d eq_refl). symmetry. exact E.
Qed.

Lemma aqr_stage_raise (net_aqr : pyresult DF) (cache_dir : option string)
      (fs : Files) (e : exn) :
  fst (aqr_stage net_aqr cache_dir fs) = Raise e <->
  exists d c, cache_dir = Some d /\ fetch_failed_aqr net_aqr = true /\
              fs !! (d, aqr_name) = Some c /\ _load_csv_fallback c = Raise e.
Proof.
  assert (Hfb : forall e0,
             fall_back (cache_path cache_dir aqr_name) fs
                       (AqrLoadedCache e0) (AqrNoCache e0) = Raise e <->
             exists d c, cache_dir = Some d /\
                         fs !! (d, aqr_name) = Some c /\
                         _load_csv_fallback c = Raise e).
  { intros e0. rewrite fall_back_raise. split.
    - intros [p [c [Hp [Hc Hv]]]]. destruct cache_dir as [d|]; [|discriminate Hp].
      injection Hp as <-. exists d, c. repeat split; assumption.
    - intros [d [c [-> [Hc Hv]]]]. exists (d, aqr_name), c.
      repeat split; assumption. }
  unfold aqr_stage, fetch_failed_aqr.
  destruct net_aqr as [aqr|e0]; [destruct (empty aqr)|]; cbn [fst].
  - rewrite Hfb. split.
    + intros [d [c [H1 [H2 H3]]]]. exists d, c. repeat split; assumption.
    + intros [d [c [H1 [_ [H2 H3]]]]]. exists d, c. repeat split; assumption.
  - split; [intros H; discriminate H|].
    intros [d [c [_ [H _]]]]. discriminate H.
  - rewrite Hfb. split.
    + intros [d [c [H1 [H2 H3]]]]. exists d, c. repeat split; assumption.
    + intros [d [c [H1 [_ [H2 H3]]]]]. exists d, c. repeat split; assumption.
Qed.

Lemma fetch_all_raise (net_fred net_aqr : pyresult DF) (start : string)
      (cache_dir data_dir : option string) (fs : Files) (e : exn) :
  fst (fetch_all_external_factors net_fred net_aqr start cache_dir data_dir fs)
  = Raise e <->
  fst (fred_stage net_fred cache_dir fs) = Raise e
  \/ ((forall e', fst (fred_stage net_fred cache_dir fs) <> Raise e')
      /\ fst (aqr_stage net_aqr cache_dir
                        (snd (fred_stage net_fred cache_dir fs))) = Raise e).
Proof.
  unfold fetch_all_external_factors.
  destruct (fred_stage net_fred cache_dir fs) as [[[fred w1]|e1] fs1];
    cbn [fst snd].
  - destruct (aqr_stage net_aqr cache_dir fs1) as [[[aqr w2]|e2] fs2];
      cbn [fst snd].
    + destruct (jkp_stage data_dir fs2) as [jkp w3]. cbn [fst]. split.
      * intros H. discriminate H.
      * intros [H|[_ H]]; discriminate H.
    + split.
      * intros H. right. split; [intros e' H'; discriminate H'|exact H].
      * intros [H|[_ H]]; [discriminate H|exact H].
  - split.
    + intros H. left. exact H.
    + intros [H|[H _]]; [exact H|]. exfalso. apply (H e1). reflexivity.
Qed.

Lemma aqr_stage_files (net_aqr : pyresult DF) (cache_dir : option string)
      (fs : Files) :
  snd (aqr_stage net_aqr cache_dir fs)
  = match net_aqr, cache_dir with
    | Ok aqr, Some d =>
        if empty aqr then fs else <[(d, aqr_name) := to_csv aqr]> fs
    | _, _ => fs
    end.
Proof.
  unfold aqr_stage. destruct net_aqr as [aqr|e0]; [|reflexivity].
  destruct (empty aqr); [destruct cache_dir; reflexivity|].
  destruct cache_dir; reflexivity.
Qed.

Lemma fetch_all_files (net_fred net_aqr : pyresult DF) (start : string)
      (cache_dir data_dir : option string) (fs : Files) :
  snd (fetch_all_external_factors net_fred net_aqr start cache_dir data_dir fs)
  = snd (fred_stage net_fred cache_dir fs)
  \/ snd (fetch_all_external_factors net_fred net_aqr start cache_dir data_dir fs)
     = snd (aqr_stage net_aqr cache_dir (snd (fred_stage net_fred cache_dir fs))).
Proof.
  unfold fetch_all_external_factors.
  destruct (fred_stage net_fred cache_dir fs) as [[[fred w1]|e1] fs1];
    cbn [fst snd]; [|left; reflexivity].
  destruct (aqr_stage net_aqr cache_dir fs1) as [[[aqr w2]|e2] fs2];
    cbn [fst snd]; [|right; reflexivity].
  destruct (jkp_stage data_dir fs2) as [jkp w3]. right. reflexivity.
Qed.

(** X20.  In a run in which neither fetch delivers (the FRED fetch
    raises, the AQR fetch raises or comes back empty), so that nothing
    is written, an exception escapes [fetch_all_external_factors]
    exactly when a cache file exists and loading it raises: the FRED
    cache, or the AQR cache when the FRED cache is absent or loads.
    The exception is the one of [_load_csv_fallback], the files are
    left as they were, and the local JKP part never makes the function
    fail. *)
Theorem offline_run_raises_iff_cache_unreadable
        (e0 : exn) (net_aqr : pyresult DF) (start : string)
        (cache_dir data_dir : option string) (fs : Files) :
  fetch_failed_aqr net_aqr = true ->
  (forall e,
      fst (fetch_all_external_factors (Raise e0) net_aqr start
                                      cache_dir data_dir fs) = Raise e <->
      exists d, cache_dir = Some d /\
        ((exists c, fs !! (d, fred_name) = Some c /\
                    _load_csv_fallback c = Raise e)
         \/ ((forall c e', fs !! (d, fred_name) = Some c ->
                           _load_csv_fallback c <> Raise e')
             /\ exists c, fs !! (d, aqr_name) = Some c /\
                          _load_csv_fallback c = Raise e)))
  /\ snd (fetch_all_external_factors (Raise e0) net_aqr start
                                     cache_dir data_dir fs) = fs.
Proof.
  intros Hfail. split.
  - intros e. rewrite fetch_all_raise. split.
    + intros [H|[Hok H]].
      * apply fred_stage_raise in H.
        destruct H as [d [e1 [c [Hd [_ [Hc Hv]]]]]].
        exists d. split; [exact Hd|]. left. exists c. split; assumption.
      * apply aqr_stage_raise in H. destruct H as [d [c [Hd [_ [Hc Hv]]]]].
        exists d. split; [exact Hd|]. right. split.
        -- intros c0 e' Hc0 Hv0. apply (Hok e'). apply fred_stage_raise.
           exists d, e0, c0. repeat split; assumption.
        -- exists c. split; [|exact Hv]. rewrite <- Hc. symmetry.
           apply fred_stage_files. intros d' Hd'. discriminate.
    + intros [d [Hd [[c [Hc Hv]]|[Hok [c [Hc Hv]]]]]].
      * left. apply fred_stage_raise. exists d, e0, c.
        repeat split; assumption.
      * right. split.
        -- intros e' H'. apply fred_stage_raise in H'.
           destruct H' as [d' [e1 [c0 [Hd' [_ [Hc0 Hv0]]]]]].
           rewrite Hd in Hd'. injection Hd' as <-.
           apply (Hok c0 e' Hc0 Hv0).
        -- apply aqr_stage_raise. exists d, c. split; [exact Hd|].
           split; [exact Hfail|]. split; [|exact Hv]. rewrite <- Hc.
           apply fred_stage_files. intros d' Hd'. discriminate.
  - assert (Hfred : snd (fred_stage (Raise e0) cache_dir fs) = fs)
      by reflexivity.
    destruct (fetch_all_files (Raise e0) net_aqr start cache_dir data_dir fs)
      as [E|E]; rewrite E; [exact Hfred|].
    rewrite Hfred, aqr_stage_files.
    destruct net_aqr as [a|e1]; [|reflexivity].
    unfold fetch_failed_aqr in Hfail. rewrite Hfail.
    destruct cache_dir; reflexivity.
Qed.

(** X21.  The function changes no file but the two cache files, and a
    cache file only by writing the frame that was just fetched: every
    path holds afterwards what it held before, unless it is the FRED
    cache and the FRED fetch returned, or the AQR cache and the AQR
    fetch returned a non-empty frame. *)
Theorem fetch_writes_only_fetched_frames
        (net_fred net_aqr : pyresult DF) (start : string)
        (cache_dir data_dir : option string) (fs : Files) (q : Path) :
  let fs' :=
    snd (fetch_all_external_factors net_fred net_aqr start cache_dir data_dir fs)
  in
  fs' !! q = fs !! q
  \/ exists d v,
       cache_dir = Some d /\ fs' !! q = Some (to_csv v) /\
       ((q = (d, fred_name) /\ net_fred = Ok v)
        \/ (q = (d, aqr_name) /\ net_aqr = Ok v /\ empty v = false)).
Proof.
  intros fs'.
  assert (Hfred : forall fs1, fs1 = snd (fred_stage net_fred cache_dir fs) ->
            fs1 !! q = fs !! q
            \/ exists d v, cache_dir = Some d /\ fs1 !! q = Some (to_csv v) /\
                           q = (d, fred_name) /\ net_fred = Ok v).
  { intros fs1 ->. unfold fred_stage.
    destruct net_fred as [fred|e0]; cbn [snd]; [|left; reflexivity].
    destruct cache_dir as [d|]; cbn [cache_path option_map write_cache];
      [|left; reflexivity].
    destruct (decide (q = (d, fred_name))) as [->|Hne].
    - right. exists d, fred. rewrite lookup_insert_eq. repeat split.
    - left. apply lookup_insert_ne. congruence. }
  destruct (fetch_all_files net_fred net_aqr start cache_dir data_dir fs)
    as [E|E]; fold fs' in E; rewrite E.
  - destruct (Hfred _ eq_refl) as [H|[d [v [Hd [Hq [Hp Hn]]]]]]; [left; exact H|].
    right. exists d, v. split; [exact Hd|]. split; [exact Hq|]. left.
    split; assumption.
  - rewrite aqr_stage_files.
    destruct net_aqr as [aqr|e0].
    + destruct cache_dir as [d|].
      * destruct (empty aqr) eqn:Hemp.
        -- destruct (Hfred _ eq_refl) as [H|[d' [v [Hd [Hq [Hp Hn]]]]]];
             [left; exact H|].
           right. exists d', v. split; [exact Hd|]. split; [exact Hq|]. left.
           split; assumption.
        -- destruct (decide (q = (d, aqr_name))) as [->|Hne].
           ++ right. exists d, aqr. rewrite lookup_insert_eq.
              split; [reflexivity|]. split; [reflexivity|]. right.
              repeat split. exact Hemp.
           ++ rewrite lookup_insert_ne by congruence.
              destruct (Hfred _ eq_refl) as [H|[d' [v [Hd [Hq [Hp Hn]]]]]];
                [left; exact H|].
              right. exists d', v. split; [exact Hd|]. split; [exact Hq|]. left.
              split; assumption.
      * destruct (Hfred _ eq_refl) as [H|[d' [v [Hd _]]]];
          [left; exact H|discriminate Hd].
    + destruct (Hfred _ eq_refl) as [H|[d' [v [Hd [Hq [Hp Hn]]]]]];
        [left; exact H|].
      right. exists d', v. split; [exact Hd|]. split; [exact Hq|]. left.
      split; assumption.
Qed.

Lemma online_run (f a : DF) (start d : string) (data_dir : option string)
      (fs : Files) :
  empty a = false ->
  fetch_all_external_factors (Ok f) (Ok a) start (Some d) data_dir fs
  = (Ok (merge_all start f a
           (fst (jkp_stage data_dir
                   (<[(d, aqr_name) := to_csv a]>
                      (<[(d, fred_name) := to_csv f]> fs)))),
         snd (jkp_stage data_dir
                (<[(d, aqr_name) := to_csv a]>
                   (<[(d, fred_name) := to_csv f]> fs)))),
     <[(d, aqr_name) := to_csv a]> (<[(d, fred_name) := to_csv f]> fs)).
Proof.
  intros Ha. unfold fetch_all_external_factors, fred_stage, aqr_stage.
  rewrite Ha. cbn [cache_path option_map write_cache].
  destruct (jkp_stage data_dir _) as [jkp w3]. reflexivity.
Qed.

Lemma offline_run (f a : DF) (c1 c2 : CSV) (e1 e2 : exn) (start d : string)
      (data_dir : option string) (fs : Files) :
  fs !! (d, fred_name) = Some c1 -> _load_csv_fallback c1 = Ok f ->
  fs !! (d, aqr_name) = Some c2 -> _load_csv_fallback c2 = Ok a ->
  fetch_all_external_factors (Raise e1) (Raise e2) start (Some d) data_dir fs
  = (Ok (merge_all start f a (fst (jkp_stage data_dir fs)),
         [FredLoadedCache e1] ++ [AqrLoadedCache e2]
           ++ snd (jkp_stage data_dir fs)),
     fs).
Proof.
  intros H1 Hf H2 Ha.
  unfold fetch_all_external_factors, fred_stage, aqr_stage, fall_back.
  cbn [cache_path option_map]. rewrite H1, Hf. cbn [bind].
  rewrite H2, Ha. cbn [bind].
  destruct (jkp_stage data_dir fs) as [jkp w3]. reflexivity.
Qed.

(** X22.  After a run in which both fetches succeeded, a later run in
    which both fail returns the same frame from the cache files the
    first run wrote and leaves the files as they are, provided a frame
    written by [to_csv] loads back as itself. *)
Theorem offline_run_repeats_online_run
        (f a : DF) (e1 e2 : exn) (start d : string)
        (data_dir : option string) (fs : Files) :
  empty a = false ->
  _load_csv_fallback (to_csv f) = Ok f ->
  _load_csv_fallback (to_csv a) = Ok a ->
  let online :=
    fetch_all_external_factors (Ok f) (Ok a) start (Some d) data_dir fs in
  let offline :=
    fetch_all_external_factors (Raise e1) (Raise e2) start (Some d) data_dir
                               (snd online) in
  returned offline = returned online /\ snd offline = snd online.
Proof.
  intros Ha Hf Hla. cbv zeta. rewrite (online_run f a start d data_dir fs Ha).
  cbn [snd].
  rewrite (offline_run f a (to_csv f) (to_csv a) e1 e2 start d data_dir _).
  - split; reflexivity.
  - rewrite lookup_insert_ne by discriminate. apply lookup_insert_eq.
  - exact Hf.
  - apply lookup_insert_eq.
  - exact Hla.
Qed.

(** X23.  When all four AQR downloads fail, [_fetch_aqr_factors] does
    not raise: it records the four errors and returns the frame with
    only a [date] column, which [fetch_all_external_factors] then
    treats as a failed fetch with [RuntimeError]. *)
Theorem aqr_all_downloads_fail
        (get : string -> pyresult DF) (start : string)
        (cache_dir : option string) (fs : Files) :
  empty empty_frame = true ->
  empty date_frame = true ->
  (forall key, In key AQR_KEYS -> exists e, get key = Raise e) ->
  fst (_fetch_aqr_factors get start) = date_frame
  /\ map fst (snd (_fetch_aqr_factors get start)) = AQR_KEYS
  /\ aqr_stage (Ok (fst (_fetch_aqr_factors get start))) cache_dir fs
     = aqr_stage (Raise RuntimeError) cache_dir fs.
Proof.
  intros He Hd Hall.
  assert (Hm : fold_left (aqr_merge get) AQR_KEYS empty_frame = empty_frame).
  { unfold AQR_KEYS in *. cbn [fold_left]. unfold aqr_merge.
    destruct (Hall "tsmom"%string) as [e1 ->]; [simpl; tauto|].
    destruct (Hall "vme"%string) as [e2 ->]; [simpl; tauto|].
    destruct (Hall "qmj"%string) as [e3 ->]; [simpl; tauto|].
    destruct (Hall "bab"%string) as [e4 ->]; [simpl; tauto|].
    reflexivity. }
  assert (Hfst : fst (_fetch_aqr_factors get start) = date_frame).
  { unfold _fetch_aqr_factors. cbn [fst]. rewrite Hm, He. reflexivity. }
  split; [exact Hfst|]. split.
  - unfold _fetch_aqr_factors, aqr_errors, AQR_KEYS in *. cbn [snd flat_map].
    destruct (Hall "tsmom"%string) as [e1 ->]; [simpl; tauto|].
    destruct (Hall "vme"%string) as [e2 ->]; [simpl; tauto|].
    destruct (Hall "qmj"%string) as [e3 ->]; [simpl; tauto|].
    destruct (Hall "bab"%string) as [e4 ->]; [simpl; tauto|].
    reflexivity.
  - rewrite Hfst. unfold aqr_stage. rewrite Hd. reflexivity.
Qed.

End Fetch.

(** A small instance of the pandas operations: frames are lists of
    (month, value) pairs and a file holds such a list. *)
Definition toy_frame : Type := list (Z * Z).

Definition toy_fetch :=
  fetch_all_external_factors
    toy_frame toy_frame
    (fun c => Ok c) (fun df => df)
    (fun _ => true)
    (fun df => match df with [] => true | _ => false end)
    (fun df => match df with [] => true | _ => false end)
    []
    (fun df => df) (fun df => df)
    (fun a b => a ++ b)
    (fun _ df => df).

Lemma cached_fallback_matches_fetch_witness :
  returned toy_frame toy_frame
           (toy_fetch (Raise RuntimeError) (Raise RuntimeError) "2002-01-01"
                      (Some "cache"%string) None
                      (<[("cache"%string, fred_name) := [(1, 2)%Z]]> ∅))
  = returned toy_frame toy_frame
             (toy_fetch (Ok [(1, 2)%Z]) (Raise RuntimeError) "2002-01-01"
                        (Some "cache"%string) None
                        (<[("cache"%string, fred_name) := [(1, 2)%Z]]> ∅)).
Proof.
  unfold toy_fetch.
  apply (proj1 (cached_fallback_matches_fetch
                  toy_frame toy_frame (fun c => Ok c) (fun df => df)
                  (fun _ => true)
                  (fun df => match df with [] => true | _ => false end)
                  (fun df => match df with [] => true | _ => false end)
                  [] (fun df => df) (fun df => df) (fun a b => a ++ b)
                  (fun _ df => df))
              RuntimeError "cache"%string [(1, 2)%Z] [(1, 2)%Z]).
  - apply lookup_insert_eq.
  - reflexivity.
Defined.

(** The same instance with files that may lack their [date] column: a
    file is a flag for the column, and the rows. *)
Definition toy_csv : Type := (bool * toy_frame)%type.

Definition toy_fetch_flagged :=
  fetch_all_external_factors
    toy_csv toy_csv
    (fun c => Ok c) (fun df => df)
    fst
    (fun df => match snd df with [] => true | _ => false end)
    (fun df => match snd df with [] => true | _ => false end)
    (true, [])
    (fun df => df) (fun df => df)
    (fun a b => (true, snd a ++ snd b))
    (fun _ df => df).

(** Both fetches fail and the FRED cache has no [date] column: the
    [ValueError] of the loader escapes. *)
Lemma offline_run_raises_iff_cache_unreadable_witness :
  fst (toy_fetch_flagged (Raise RuntimeError) (Raise RuntimeError) "2002-01-01"
         (Some "cache"%string) None
         (<[("cache"%string, fred_name) := (false, [(1, 2)%Z])]> ∅))
  = Raise ValueError.
Proof.
  unfold toy_fetch_flagged.
  pose proof (offline_run_raises_iff_cache_unreadable
                toy_csv toy_csv (fun c => Ok c) (fun df => df) fst
                (fun df => match snd df with [] => true | _ => false end)
                (fun df => match snd df with [] => true | _ => false end)
                (true, []) (fun df => df) (fun df => df)
                (fun a b => (true, snd a ++ snd b)) (fun _ df => df)
                RuntimeError (Raise RuntimeError) "2002-01-01"
                (Some "cache"%string) None
                (<[("cache"%string, fred_name) := (false, [(1, 2)%Z])]> ∅)
                eq_refl) as [Hiff _].
  apply (proj2 (Hiff ValueError)).
  exists "cache"%string. split; [reflexivity|]. left.
  exists (false, [(1, 2)%Z]). split; [apply lookup_insert_eq|reflexivity].
Defined.

Lemma offline_run_repeats_online_run_witness :
  returned toy_frame toy_frame
    (toy_fetch (Raise RuntimeError) (Raise RuntimeError) "2002-01-01"
       (Some "cache"%string) None
       (snd (toy_fetch (Ok [(1, 2)%Z]) (Ok [(1, 3)%Z]) "2002-01-01"
                       (Some "cache"%string) None ∅)))
  = returned toy_frame toy_frame
      (toy_fetch (Ok [(1, 2)%Z]) (Ok [(1, 3)%Z]) "2002-01-01"
                 (Some "cache"%string) None ∅).
Proof.
  unfold toy_fetch.
  apply (proj1 (offline_run_repeats_online_run
                  toy_frame toy_frame (fun c => Ok c) (fun df => df)
                  (fun _ => true)
                  (fun df => match df with [] => true | _ => false end)
                  (fun df => match df with [] => true | _ => false end)
                  [] (fun df => df) (fun df => df) (fun a b => a ++ b)
                  (fun _ df => df)
                  [(1, 2)%Z] [(1, 3)%Z] RuntimeError RuntimeError
                  "2002-01-01" "cache" None ∅ eq_refl eq_refl eq_refl)).
Defined.

Lemma aqr_all_downloads_fail_witness :
  fst (_fetch_aqr_factors toy_frame
         (fun df => match df with [] => true | _ => false end)
         [] (fun a b => a ++ b) (fun _ df => df) []
         (fun _ => Raise RuntimeError) "2002-01-01") = [].
Proof.
  apply (proj1 (aqr_all_downloads_fail
                  toy_frame toy_frame (fun c => Ok c) (fun df => df)
                  (fun _ => true)
                  (fun df => match df with [] => true | _ => false end)
                  (fun df => match df with [] => true | _ => false end)
                  [] (fun df => df) (fun df => df) (fun a b => a ++ b)
                  (fun _ df => df) []
                  (fun _ => Raise RuntimeError) "2002-01-01" None ∅
                  eq_refl eq_refl
                  (fun key _ => ex_intro _ RuntimeError eq_refl))).
Defined.

End ExternalFactors.

(** ** data_prep.py: locating the header row of an AQR sheet *)

Module AqrParse.

Section Header.

(** A row of the sheet read with [header=None], and the test the
    parser applies to it: the stripped, upper-cased cells include
    ["TSMOM"] ([_parse_aqr_tsmom]), ["DATE"] and ["VAL"]
    ([_parse_aqr_vme]), or ["DATE"] and ["GLOBAL"]
    ([_parse_aqr_country_factor]). *)
Variable Row : Type.
Variable is_header : Row -> bool.

(** [for i in range(min(limit, len(df))): if ...: hdr_idx = i; break],
    with [i] counted from [i0]. *)
Fixpoint scan_rows (fuel : nat) (rows : list Row) (i0 : nat) : option nat :=
  match fuel, rows with
  | S fuel', r :: rest =>
      if is_header r then Some i0 else scan_rows fuel' rest (S i0)
  | _, _ => None
  end.

(** The header search of the three parsers, with [limit] 25, 30 and
    25: the index of the header row, or [ValueError]. *)
Definition locate_header (limit : nat) (rows : list Row) : pyresult nat :=
  match scan_rows (Nat.min limit (length rows)) rows 0 with
  | Some hdr_idx => Ok hdr_idx
  | None => Raise ValueError
  end.

(** [df.iloc[hdr_idx + 1:]] *)
Definition data_rows (hdr_idx : nat) (rows : list Row) : list Row :=
  skipn (S hdr_idx) rows.

Lemma scan_rows_some (fuel : nat) (rows : list Row) (i0 i : nat) :
  scan_rows fuel rows i0 = Some i <->
  exists k r, i = (i0 + k)%nat /\ (k < fuel)%nat /\
              nth_error rows k = Some r /\ is_header r = true /\
              forall k' r', (k' < k)%nat -> nth_error rows k' = Some r' ->
                            is_header r' = false.
Proof.
  revert rows i0. induction fuel as [|fuel IH]; intros rows i0.
  - simpl. split; [discriminate|]. intros [k [r [_ [Hk _]]]]. lia.
  - destruct rows as [|r0 rest].
    + simpl. split; [discriminate|].
      intros [k [r [_ [_ [Hn _]]]]]. destruct k; discriminate Hn.
    + cbn [scan_rows]. destruct (is_header r0) eqn:H0.
      * split.
        -- intros H. injection H as <-. exists O, r0.
           split; [lia|]. split; [lia|]. split; [reflexivity|].
           split; [exact H0|]. intros k' r' Hk'. lia.
        -- intros [k [r [-> [_ [Hn [Hr Hbefore]]]]]].
           destruct k as [|k]; [f_equal; lia|].
           specialize (Hbefore O r0 ltac:(lia) eq_refl). congruence.
      * rewrite IH. split.
        -- intros [k [r [-> [Hk [Hn [Hr Hbefore]]]]]]. exists (S k), r.
           split; [lia|]. split; [lia|]. split; [exact Hn|].
           split; [exact Hr|]. intros [|k'] r' Hk' Hn'.
           ++ injection Hn' as <-. exact H0.
           ++ apply (Hbefore k' r'); [lia|exact Hn'].
        -- intros [k [r [-> [Hk [Hn [Hr Hbefore]]]]]].
           destruct k as [|k]; [injection Hn as <-; congruence|].
           exists k, r. split; [lia|]. split; [lia|]. split; [exact Hn|].
           split; [exact Hr|]. intros k' r' Hk' Hn'.
           apply (Hbefore (S k') r'); [lia|exact Hn'].
Qed.

Lemma scan_rows_none (fuel : nat) (rows : list Row) (i0 : nat) :
  scan_rows fuel rows i0 = None <->
  forall k r, (k < fuel)%nat -> nth_error rows k = Some r -> is_header r = false.
Proof.
  revert rows i0. induction fuel as [|fuel IH]; intros rows i0.
  - simpl. split; [intros _ k r Hk; lia|reflexivity].
  - destruct rows as [|r0 rest].
    + simpl. split; [|reflexivity]. intros _ k r _ Hn.
      destruct k; discriminate Hn.
    + cbn [scan_rows]. destruct (is_header r0) eqn:H0.
      * split; [intros H; discriminate H|]. intros H.
        specialize (H O r0 ltac:(lia) eq_refl). congruence.
      * rewrite IH. split.
        -- intros H [|k] r Hk Hn; [injection Hn as <-; exact H0|].
           apply (H k r); [lia|exact Hn].
        -- intros H k r Hk Hn. apply (H (S k) r); [lia|exact Hn].
Qed.

(** X30.  The header search of the AQR parsers returns the first row
    that passes the test, provided it is among the first [limit] rows
    of the sheet, and raises [ValueError] otherwise: a header below
    the limit is not found.  The data are the rows after the header,
    one fewer than the rows from the header on. *)
Theorem locate_header_first_within_limit (limit : nat) (rows : list Row) :
  (forall i, locate_header limit rows = Ok i <->
             (i < limit)%nat /\
             (exists r, nth_error rows i = Some r /\ is_header r = true) /\
             (forall k r, (k < i)%nat -> nth_error rows k = Some r ->
                          is_header r = false))
  /\ (locate_header limit rows = Raise ValueError <->
      forall k r, (k < limit)%nat -> nth_error rows k = Some r ->
                  is_header r = false)
  /\ (forall i, locate_header limit rows = Ok i ->
                S (length (data_rows i rows)) = (length rows - i)%nat).
Proof.
  assert (Hok : forall i, locate_header limit rows = Ok i <->
             (i < limit)%nat /\
             (exists r, nth_error rows i = Some r /\ is_header r = true) /\
             (forall k r, (k < i)%nat -> nth_error rows k = Some r ->
                          is_header r = false)).
  { intros i. unfold locate_header.
    destruct (scan_rows _ rows 0) as [j|] eqn:E.
    - apply scan_rows_some in E.
      destruct E as [k [r [-> [Hk [Hn [Hr Hbefore]]]]]]. cbn [Nat.add]. split.
      + intros H. injection H as <-. split; [lia|].
        split; [exists r; split; assumption|exact Hbefore].
      + intros [Hi [[r' [Hn' Hr']] Hb']]. f_equal.
        destruct (Nat.lt_trichotomy k i) as [Hlt|[->|Hgt]]; [|reflexivity|].
        * rewrite (Hb' k r Hlt Hn) in Hr. discriminate Hr.
        * rewrite (Hbefore i r' Hgt Hn') in Hr'. discriminate Hr'.
    - split; [intros H; discriminate H|].
      intros [Hi [[r [Hn Hr]] Hb]]. exfalso.
      assert (Hs : scan_rows (Nat.min limit (length rows)) rows 0 = Some i).
      { apply scan_rows_some. exists i, r. split; [reflexivity|].
        split; [|split; [exact Hn|split; [exact Hr|exact Hb]]].
        assert (i < length rows)%nat
          by (apply nth_error_Some; rewrite Hn; discriminate).
        lia. }
      congruence. }
  split; [exact Hok|]. split.
  - unfold locate_header.
    destruct (scan_rows _ rows 0) as [j|] eqn:E.
    + split; [intros H; discriminate H|]. intros Hnone. exfalso.
      apply scan_rows_some in E.
      destruct E as [k [r [_ [Hk [Hn [Hr _]]]]]].
      rewrite (Hnone k r ltac:(lia) Hn) in Hr. discriminate Hr.
    + split; [|reflexivity]. intros _ k r Hk Hn.
      apply (proj1 (scan_rows_none _ _ _) E k r); [|exact Hn].
      assert (k < length rows)%nat
        by (apply nth_error_Some; rewrite Hn; discriminate).
      lia.
  - intros i Hloc. apply Hok in Hloc. destruct Hloc as [_ [[r [Hn _]] _]].
    assert (i < length rows)%nat
      by (apply nth_error_Some; rewrite Hn; discriminate).
    unfold data_rows. rewrite length_skipn. lia.
Qed.

End Header.

End AqrParse.

(** ** run_analysis.py: the greedy factor selector *)

Module RunAnalysis.

Import Q1.
Local Open Scope Z_scope.

Definition ALL_CANDIDATES : list string :=
  ["mkt_rf"; "usd_ret"; "dgs10_chg"; "hy_oas_chg"; "cmdty_ret";
   "tsmom"; "val_everywhere"; "mom_everywhere";
   "tsmom_eq"; "tsmom_fi"; "tsmom_fx"; "tsmom_cm";
   "qmj_global"; "bab_global"]%string.

(** [best_r2]: [-np.inf] or the adjusted R2 of [best_col]. *)
Inductive BestR2 : Type :=
| NegInf
| Best (r : R).

(** [ar2 > best_r2]; false when [ar2] is NaN. *)
Definition float_gt (ar2 : float) (best_r2 : BestR2) : bool :=
  match ar2, best_r2 with
  | Some _, NegInf => true
  | Some a, Best b => if Rlt_dec b a then true else false
  | None, _ => false
  end.

(** [candidate_df[c].notna().sum()] *)
Definition notna_sum (s : list float) : Z := Z.of_nat (length (dropna_values s)).

(** [c in candidate_df.columns and candidate_df[c].notna().sum() > min_obs] *)
Definition eligible (df : DataFrame) (min_obs : Z) (c : string) : bool :=
  in_columns c df &&
  match get_col df c with
  | Some s => min_obs <? notna_sum s
  | None => false
  end.

Definition available (df : DataFrame) (all_candidates : list string) (min_obs : Z)
  : list string :=
  List.filter (eligible df min_obs) all_candidates.

(** [candidate_df[["fund_excess"] + trial].dropna()] *)
Definition trial_frame (df : DataFrame) (trial : list string) : pyresult DataFrame :=
  let cols := "fund_excess"%string :: trial in
  if forallb (fun c => in_columns c df) cols
  then Ok (dropna (select df cols))
  else Raise KeyError.

(** The values of a column of a frame that has no NaN left. *)
Definition series_values (tmp : DataFrame) (c : string) : list R :=
  match get_col tmp c with
  | Some s => dropna_values s
  | None => []
  end.

Section Selector.

(** [float(fit_ols(y, x).rsquared_adj)]: statsmodels' OLS of [y] on a
    constant and the columns [x]. *)
Variable rsquared_adj : list R -> list (list R) -> float.

(** [fit_ols(tmp["fund_excess"], tmp[trial]).rsquared_adj]; the
    candidates are taken not to include [fund_excess] itself, as in
    [ALL_CANDIDATES]. *)
Definition fit_trial (tmp : DataFrame) (trial : list string) : float :=
  rsquared_adj (series_values tmp "fund_excess")
               (map (series_values tmp) trial).

(** The body of the inner loop for candidate [c], up to the fit:
    [None] when the loop continues without fitting. *)
Definition try_candidate (df : DataFrame) (min_obs : Z) (chosen : list string)
           (c : string) : pyresult (option float) :=
  if existsb (String.eqb c) chosen then Ok None
  else
    let trial := chosen ++ [c] in
    try! tmp <- trial_frame df trial;
    if Z.of_nat (len tmp) <? min_obs then Ok None
    else Ok (Some (fit_trial tmp trial)).

(** [for c in available: ...], from the state [(best_r2, best_col)]. *)
Fixpoint scan (df : DataFrame) (min_obs : Z) (chosen cands : list string)
         (best_r2 : BestR2) (best_col : option string)
  : pyresult (BestR2 * option string) :=
  match cands with
  | [] => Ok (best_r2, best_col)
  | c :: rest =>
      try! o <- try_candidate df min_obs chosen c;
      match o with
      | Some (Some a) =>
          if float_gt (Some a) best_r2
          then scan df min_obs chosen rest (Best a) (Some c)
          else scan df min_obs chosen rest best_r2 best_col
      | _ => scan df min_obs chosen rest best_r2 best_col
      end
  end.

(** [for _ in range(max_factors): ...] with [n] rounds left. *)
Fixpoint rounds (df : DataFrame) (min_obs : Z) (avail : list string)
         (n : nat) (chosen : list string) : pyresult (list string) :=
  match n with
  | O => Ok chosen
  | S n' =>
      try! st <- scan df min_obs chosen avail NegInf None;
      match snd st with
      | None => Ok chosen
      | Some c => rounds df min_obs avail n' (chosen ++ [c])
      end
  end.

(** Lines 85-86. *)
Definition at_least (min_factors : Z) (avail chosen : list string) : list string :=
  if Z.of_nat (length chosen) <? min_factors then
    if min_factors <=? Z.of_nat (length avail)
    then firstn (Z.to_nat min_factors) avail
    else avail
  else chosen.

Definition _pick_best_model (fund_excess : list float) (candidate_df : DataFrame)
           (all_candidates : list string) (min_obs min_factors max_factors : Z)
  : pyresult (list string) :=
  let avail := available candidate_df all_candidates min_obs in
  try! chosen <- rounds candidate_df min_obs avail (Z.to_nat max_factors) [];
  Ok (at_least min_factors avail chosen).

(** *** The selection rule in the specification's words *)

(** Candidate [c] is tried on top of [chosen]: it is not chosen yet,
    the rows complete in the dependent variable and the trial set
    number at least [min_obs], and the fit has adjusted R2 [a]. *)
Definition scored (df : DataFrame) (min_obs : Z) (chosen : list string)
           (c : string) (a : R) : Prop :=
  try_candidate df min_obs chosen c = Ok (Some (Some a)).

(** [c] has the largest adjusted R2, and is the first to have it. *)
Definition first_best (df : DataFrame) (min_obs : Z) (avail chosen : list string)
           (c : string) (a : R) : Prop :=
  exists pre post,
    avail = pre ++ c :: post /\
    scored df min_obs chosen c a /\
    (forall c' a', In c' pre -> scored df min_obs chosen c' a' -> (a' < a)%R) /\
    (forall c' a', In c' post -> scored df min_obs chosen c' a' -> (a' <= a)%R).

Definition none_scored (df : DataFrame) (min_obs : Z) (avail chosen : list string)
  : Prop :=
  forall c a, In c avail -> ~ scored df min_obs chosen c a.

(** At most [n] rounds from [chosen]; a round adds the first best
    candidate, and the selection ends when nothing is scored. *)
Inductive greedy (df : DataFrame) (min_obs : Z) (avail : list string)
  : nat -> list string -> list string -> Prop :=
| greedy_cap (chosen : list string) :
    greedy df min_obs avail O chosen chosen
| greedy_stop (n : nat) (chosen : list string) :
    none_scored df min_obs avail chosen ->
    greedy df min_obs avail (S n) chosen chosen
| greedy_add (n : nat) (chosen : list string) (c : string) (a : R)
             (final : list string) :
    first_best df min_obs avail chosen c a ->
    greedy df min_obs avail n (chosen ++ [c]) final ->
    greedy df min_obs avail (S n) chosen final.

(** *** The inner loop *)

Lemma float_gt_Best (a b : R) : float_gt (Some a) (Best b) = true <-> (b < a)%R.
Proof.
  unfold float_gt. destruct (Rlt_dec b a); split; intros H;
    try reflexivity; try assumption; [discriminate H|contradiction].
Qed.

Lemma float_gt_trans (a a' : R) (b0 : BestR2) :
  float_gt (Some a) b0 = true -> (a < a')%R -> float_gt (Some a') b0 = true.
Proof.
  destruct b0 as [|x]; [reflexivity|].
  rewrite !float_gt_Best. lra.
Qed.

Lemma float_gt_below (a a' : R) (b0 : BestR2) :
  float_gt (Some a) b0 = false -> float_gt (Some a') b0 = true -> (a < a')%R.
Proof.
  destruct b0 as [|x]; [discriminate|].
  rewrite float_gt_Best. intros Hf Ht.
  destruct (Rlt_dec x a) as [Hlt|Hge].
  - apply float_gt_Best in Hlt. congruence.
  - lra.
Qed.

(** What one pass over [cands] leaves in [(best_r2, best_col)]. *)
Definition scan_post (df : DataFrame) (min_obs : Z) (chosen cands : list string)
           (b0 : BestR2) (c0 : option string) (b : BestR2) (cb : option string)
  : Prop :=
  (b = b0 /\ cb = c0 /\
   forall c a, In c cands -> scored df min_obs chosen c a ->
               float_gt (Some a) b0 = false)
  \/ (exists pre c post a,
        cands = pre ++ c :: post /\ b = Best a /\ cb = Some c /\
        scored df min_obs chosen c a /\ float_gt (Some a) b0 = true /\
        (forall c' a', In c' pre -> scored df min_obs chosen c' a' -> (a' < a)%R) /\
        (forall c' a', In c' post -> scored df min_obs chosen c' a' -> (a' <= a)%R)).

Lemma scan_post_keep (df : DataFrame) (min_obs : Z) (chosen rest : list string)
      (c : string) (b0 : BestR2) (c0 : option string)
      (b : BestR2) (cb : option string) :
  (forall a, scored df min_obs chosen c a -> float_gt (Some a) b0 = false) ->
  scan_post df min_obs chosen rest b0 c0 b cb ->
  scan_post df min_obs chosen (c :: rest) b0 c0 b cb.
Proof.
  intros Hc [[-> [-> Hall]]|[pre [c1 [post [a [-> [-> [-> [Hs [Hgt [Hpre Hpost]]]]]]]]]]].
  - left. split; [reflexivity|]. split; [reflexivity|].
    intros c' a' [<-|Hin] Hsc; [apply Hc, Hsc|apply (Hall c' a' Hin Hsc)].
  - right. exists (c :: pre), c1, post, a.
    split; [reflexivity|]. split; [reflexivity|]. split; [reflexivity|].
    split; [exact Hs|]. split; [exact Hgt|]. split; [|exact Hpost].
    intros c' a' [<-|Hin] Hsc; [|apply (Hpre c' a' Hin Hsc)].
    apply (float_gt_below a' a b0); [apply Hc, Hsc|exact Hgt].
Qed.

Lemma scan_post_take (df : DataFrame) (min_obs : Z) (chosen rest : list string)
      (c : string) (a : R) (b0 : BestR2) (c0 : option string)
      (b : BestR2) (cb : option string) :
  scored df min_obs chosen c a ->
  float_gt (Some a) b0 = true ->
  scan_post df min_obs chosen rest (Best a) (Some c) b cb ->
  scan_post df min_obs chosen (c :: rest) b0 c0 b cb.
Proof.
  intros Hs Hgt [[-> [-> Hall]]|[pre [c1 [post [a1 [-> [-> [-> [Hs1 [Hgt1 [Hpre Hpost]]]]]]]]]]];
    right.
  - exists [], c, rest, a.
    split; [reflexivity|]. split; [reflexivity|]. split; [reflexivity|].
    split; [exact Hs|]. split; [exact Hgt|]. split; [intros ? ? []|].
    intros c' a' Hin Hsc. specialize (Hall c' a' Hin Hsc).
    destruct (Rlt_dec a a') as [Hlt|Hge]; [|lra].
    apply float_gt_Best in Hlt. congruence.
  - apply float_gt_Best in Hgt1.
    exists (c :: pre), c1, post, a1.
    split; [reflexivity|]. split; [reflexivity|]. split; [reflexivity|].
    split; [exact Hs1|].
    split; [apply (float_gt_trans a a1 b0 Hgt Hgt1)|]. split; [|exact Hpost].
    intros c' a' [<-|Hin] Hsc; [|apply (Hpre c' a' Hin Hsc)].
    unfold scored in Hs, Hsc. rewrite Hs in Hsc. injection Hsc as <-. exact Hgt1.
Qed.

Lemma scan_spec (df : DataFrame) (min_obs : Z) (chosen cands : list string)
      (b0 : BestR2) (c0 : option string) (b : BestR2) (cb : option string) :
  scan df min_obs chosen cands b0 c0 = Ok (b, cb) ->
  scan_post df min_obs chosen cands b0 c0 b cb.
Proof.
  revert b0 c0. induction cands as [|c rest IH]; intros b0 c0 H; cbn [scan] in H.
  - injection H as <- <-. left. split; [reflexivity|]. split; [reflexivity|].
    intros c a [].
  - destruct (try_candidate df min_obs chosen c) as [o|e] eqn:Ho;
      [|discriminate H].
    cbn [bind] in H. destruct o as [[a|]|]; cbv beta iota in H.
    + destruct (float_gt (Some a) b0) eqn:G.
      * apply (scan_post_take df min_obs chosen rest c a); [exact Ho|exact G|].
        apply IH, H.
      * apply scan_post_keep; [|apply IH, H].
        intros a' Hsc. unfold scored in Hsc. rewrite Ho in Hsc.
        injection Hsc as <-. exact G.
    + apply scan_post_keep; [|apply IH, H].
      intros a' Hsc. unfold scored in Hsc. rewrite Ho in Hsc. discriminate Hsc.
    + apply scan_post_keep; [|apply IH, H].
      intros a' Hsc. unfold scored in Hsc. rewrite Ho in Hsc. discriminate Hsc.
Qed.

(** From the initial state [(-inf, None)]. *)
Lemma scan_first_best (df : DataFrame) (min_obs : Z) (chosen avail : list string)
      (b : BestR2) (cb : option string) :
  scan df min_obs chosen avail NegInf None = Ok (b, cb) ->
  match cb with
  | Some c => exists a, b = Best a /\ first_best df min_obs avail chosen c a
  | None => none_scored df min_obs avail chosen
  end.
Proof.
  intros H. apply scan_spec in H.
  destruct H as [[-> [-> Hall]]|[pre [c [post [a [-> [-> [-> [Hs [_ [Hpre Hpost]]]]]]]]]]].
  - intros c a Hin Hsc. specialize (Hall c a Hin Hsc). discriminate Hall.
  - exists a. split; [reflexivity|]. exists pre, post.
    split; [reflexivity|]. split; [exact Hs|]. split; assumption.
Qed.

(** *** The rounds *)

Lemma rounds_greedy (df : DataFrame) (min_obs : Z) (avail : list string)
      (n : nat) (chosen final : list string) :
  rounds df min_obs avail n chosen = Ok final ->
  greedy df min_obs avail n chosen final
  /\ (length final <= length chosen + n)%nat
  /\ (forall c, In c final -> In c chosen \/ In c avail).
Proof.
  revert chosen. induction n as [|n IH]; intros chosen H; simpl in H.
  - injection H as <-. split; [constructor|]. split; [lia|]. intros c Hc. left. exact Hc.
  - destruct (scan df min_obs chosen avail NegInf None) as [[b cb]|e] eqn:Hscan;
      [|discriminate H].
    simpl in H. pose proof (scan_first_best _ _ _ _ _ _ Hscan) as Hfb.
    destruct cb as [c|].
    + destruct Hfb as [a [-> Hfb]].
      destruct (IH _ H) as [Hg [Hlen Hin]].
      split; [apply (greedy_add df min_obs avail n chosen c a final Hfb Hg)|].
      split; [rewrite length_app in Hlen; simpl in Hlen; lia|].
      intros c' Hc'. destruct (Hin c' Hc') as [Hch|Hav]; [|right; exact Hav].
      apply in_app_or in Hch. destruct Hch as [Hch|[<-|[]]]; [left; exact Hch|].
      right. destruct Hfb as [pre [post [-> _]]].
      apply in_or_app. right. left. reflexivity.
    + injection H as <-.
      split; [apply greedy_stop, Hfb|]. split; [lia|]. intros c Hc. left. exact Hc.
Qed.

(** With a [fund_excess] column no lookup fails, and the selection
    returns. *)
Lemma try_candidate_ok (df : DataFrame) (min_obs : Z) (chosen : list string)
      (c : string) :
  in_columns "fund_excess" df = true ->
  (forall x, In x chosen -> in_columns x df = true) ->
  in_columns c df = true ->
  exists o, try_candidate df min_obs chosen c = Ok o.
Proof.
  intros Hfe Hch Hc. unfold try_candidate.
  destruct (existsb _ chosen); [eexists; reflexivity|].
  unfold trial_frame.
  assert (Hall : forallb (fun c0 => in_columns c0 df)
                         ("fund_excess"%string :: chosen ++ [c]) = true).
  { apply forallb_forall. intros x [<-|Hx]; [exact Hfe|].
    apply in_app_or in Hx. destruct Hx as [Hx|[<-|[]]]; [apply Hch, Hx|exact Hc]. }
  rewrite Hall. simpl. destruct (_ <? _); eexists; reflexivity.
Qed.

Lemma scan_ok (df : DataFrame) (min_obs : Z) (chosen cands : list string)
      (b0 : BestR2) (c0 : option string) :
  in_columns "fund_excess" df = true ->
  (forall x, In x chosen -> in_columns x df = true) ->
  (forall x, In x cands -> in_columns x df = true) ->
  exists st, scan df min_obs chosen cands b0 c0 = Ok st.
Proof.
  intros Hfe Hch. revert b0 c0.
  induction cands as [|c rest IH]; intros b0 c0 Hc; cbn [scan].
  - eexists. reflexivity.
  - destruct (try_candidate_ok df min_obs chosen c Hfe Hch) as [o ->];
      [apply Hc; left; reflexivity|].
    assert (Hrest : forall x, In x rest -> in_columns x df = true).
    { intros x Hx. apply Hc. right. exact Hx. }
    cbn [bind].
    destruct o as [[a|]|]; [destruct (float_gt (Some a) b0)| |]; apply IH, Hrest.
Qed.

Lemma rounds_ok (df : DataFrame) (min_obs : Z) (avail : list string)
      (n : nat) (chosen : list string) :
  in_columns "fund_excess" df = true ->
  (forall x, In x avail -> in_columns x df = true) ->
  (forall x, In x chosen -> in_columns x df = true) ->
  exists final, rounds df min_obs avail n chosen = Ok final.
Proof.
  intros Hfe Hav. revert chosen.
  induction n as [|n IH]; intros chosen Hch; cbn [rounds]; [eexists; reflexivity|].
  destruct (scan_ok df min_obs chosen avail NegInf None Hfe Hch Hav)
    as [[b cb] Hscan].
  rewrite Hscan. simpl. destruct cb as [c|]; [|eexists; reflexivity].
  apply IH. intros x Hx. apply in_app_or in Hx.
  destruct Hx as [Hx|[<-|[]]]; [apply Hch, Hx|].
  apply scan_first_best in Hscan. destruct Hscan as [a [_ [pre [post [-> _]]]]].
  apply Hav, in_or_app. right. left. reflexivity.
Qed.

Lemma available_in_columns (df : DataFrame) (all_candidates : list string)
      (min_obs : Z) (c : string) :
  In c (available df all_candidates min_obs) -> in_columns c df = true.
Proof.
  unfold available. intros H. apply filter_In in H. destruct H as [_ H].
  unfold eligible in H. apply andb_true_iff in H. apply H.
Qed.



Lemma existsb_eqb_In (c : string) (l : list string) :
  existsb (String.eqb c) l = false -> ~ In c l.
Proof.
  intros H Hin.
  assert (existsb (String.eqb c) l = true).
  { apply existsb_exists. exists c. split; [exact Hin|apply String.eqb_refl]. }
  congruence.
Qed.

Lemma scan_all_skipped (df : DataFrame) (min_obs : Z) (chosen cands : list string)
      (b0 : BestR2) (c0 : option string) :
  (forall c, In c cands -> try_candidate df min_obs chosen c = Ok None) ->
  scan df min_obs chosen cands b0 c0 = Ok (b0, c0).
Proof.
  induction cands as [|c rest IH]; intros H; cbn [scan]; [reflexivity|].
  rewrite (H c (or_introl eq_refl)). cbn [bind].
  apply IH. intros c' Hc'. apply H. right. exact Hc'.
Qed.

(** Two ways to single out an element of a list. *)
Lemma app_cons_split {A : Type} (pre pre' post post' : list A) (c c' : A) :
  pre ++ c :: post = pre' ++ c' :: post' ->
  (pre = pre' /\ c = c' /\ post = post')
  \/ (In c pre' /\ In c' post)
  \/ (In c' pre /\ In c post').
Proof.
  revert pre'. induction pre as [|x pre IH]; intros [|x' pre'] H; simpl in H.
  - injection H as -> ->. left. repeat split.
  - injection H as -> ->. right. left.
    split; [left; reflexivity|apply in_or_app; right; left; reflexivity].
  - injection H as <- <-. right. right.
    split; [left; reflexivity|apply in_or_app; right; left; reflexivity].
  - injection H as <- H.
    destruct (IH pre' H) as [[-> [-> ->]]|[[H1 H2]|[H1 H2]]].
    + left. repeat split.
    + right. left. split; [right; exact H1|exact H2].
    + right. right. split; [right; exact H1|exact H2].
Qed.

Lemma first_best_unique (df : DataFrame) (min_obs : Z) (avail chosen : list string)
      (c c' : string) (a a' : R) :
  first_best df min_obs avail chosen c a ->
  first_best df min_obs avail chosen c' a' ->
  c = c'.
Proof.
  intros [pre [post [E [Hs [Hpre Hpost]]]]] [pre' [post' [E' [Hs' [Hpre' Hpost']]]]].
  rewrite E in E'.
  destruct (app_cons_split _ _ _ _ _ _ E') as [[_ [Hc _]]|[[H1 H2]|[H1 H2]]].
  - exact Hc.
  - pose proof (Hpre' c a H1 Hs). pose proof (Hpost c' a' H2 Hs'). lra.
  - pose proof (Hpre c' a' H1 Hs'). pose proof (Hpost' c a H2 Hs). lra.
Qed.

(** The rule leaves no freedom: it determines the selected list. *)
Lemma greedy_functional (df : DataFrame) (min_obs : Z) (avail : list string)
      (n : nat) (chosen f1 f2 : list string) :
  greedy df min_obs avail n chosen f1 ->
  greedy df min_obs avail n chosen f2 ->
  f1 = f2.
Proof.
  intros H1. revert f2.
  induction H1 as [chosen|n chosen Hnone|n chosen c a final Hfb Hg IH];
    intros f2 H2; inversion H2 as [|? ? Hnone'|? ? c' a' ? Hfb' Hg']; subst.
  - reflexivity.
  - reflexivity.
  - exfalso. destruct Hfb' as [pre [post [E [Hs _]]]].
    apply (Hnone c' a'); [rewrite E; apply in_or_app; right; left; reflexivity|].
    exact Hs.
  - exfalso. destruct Hfb as [pre [post [E [Hs _]]]].
    apply (Hnone' c a); [rewrite E; apply in_or_app; right; left; reflexivity|].
    exact Hs.
  - pose proof (first_best_unique _ _ _ _ _ _ _ _ Hfb Hfb') as ->.
    apply IH, Hg'.
Qed.

(** *** The claims *)


(** Every factor a selection adds was, in its round, the first of the
    best-scored candidates. *)
Lemma greedy_steps (df : DataFrame) (min_obs : Z) (avail : list string)
      (n : nat) (chosen final : list string) :
  greedy df min_obs avail n chosen final ->
  exists added,
    final = chosen ++ added /\
    forall ch c rest,
      added = ch ++ c :: rest ->
      exists a, first_best df min_obs avail (chosen ++ ch) c a.
Proof.
  induction 1 as [chosen|n chosen Hnone|n chosen c a final Hfb Hg IH].
  - exists []. split; [symmetry; apply app_nil_r|].
    intros ch c rest E. destruct ch; discriminate E.
  - exists []. split; [symmetry; apply app_nil_r|].
    intros ch c rest E. destruct ch; discriminate E.
  - destruct IH as [added [-> Hsteps]].
    exists (c :: added). split; [rewrite <- app_assoc; reflexivity|].
    intros ch c0 rest E. destruct ch as [|x ch]; simpl in E.
    + injection E as <- _. exists a. rewrite app_nil_r. exact Hfb.
    + injection E as <- E.
      destruct (Hsteps ch c0 rest E) as [a0 Ha0]. exists a0.
      rewrite <- app_assoc in Ha0. exact Ha0.
Qed.

(** The dependent series of a trial fit: the [fund_excess] column of the
    table on the rows the trial frame keeps. *)
Lemma trial_dependent_values (df : DataFrame) (trial : list string) (s : list float) :
  get_col df "fund_excess" = Some s ->
  series_values (dropna (select df ("fund_excess"%string :: trial))) "fund_excess"
  = dropna_values
      (take_rows (kept_index (select df ("fund_excess"%string :: trial))) s).
Proof.
  intros Hs. unfold series_values, get_col, dropna.
  rewrite (Q1Facts.lookup_row_map
             (take_rows (kept_index (select df ("fund_excess"%string :: trial))))).
  rewrite Q1Facts.lookup_row_select. cbn [existsb].
  rewrite String.eqb_refl. cbn [orb]. rewrite Hs. reflexivity.
Qed.

(** C10.  The [fund_excess] argument is never read: the result is the
    same for any two series passed as it.  The dependent variable of
    every trial fit is the [fund_excess] column of the table, on the
    rows that are complete in it and in the trial columns. *)
Theorem pick_best_model_ignores_fund_excess :
  (forall (s1 s2 : list float) (df : DataFrame) (all_candidates : list string)
          (min_obs min_factors max_factors : Z),
      _pick_best_model s1 df all_candidates min_obs min_factors max_factors
      = _pick_best_model s2 df all_candidates min_obs min_factors max_factors)
  /\ (forall (df : DataFrame) (min_obs : Z) (chosen : list string) (c : string)
             (a : R) (s : list float),
        get_col df "fund_excess" = Some s ->
        scored df min_obs chosen c a ->
        rsquared_adj
          (dropna_values
             (take_rows (kept_index (select df ("fund_excess"%string
                                                  :: chosen ++ [c]))) s))
          (map (series_values
                  (dropna (select df ("fund_excess"%string :: chosen ++ [c]))))
               (chosen ++ [c]))
        = Some a).
Proof.
  split; [reflexivity|].
  intros df min_obs chosen c a s Hcol Hs.
  unfold scored, try_candidate in Hs.
  destruct (existsb (String.eqb c) chosen); [discriminate Hs|].
  unfold trial_frame in Hs. cbv zeta in Hs.
  destruct (forallb _ _); [|discriminate Hs]. cbn [bind] in Hs.
  destruct (_ <? min_obs); [discriminate Hs|].
  injection Hs as Hs. unfold fit_trial in Hs.
  rewrite <- (trial_dependent_values df (chosen ++ [c]) s Hcol). exact Hs.
Qed.

End Selector.

(** *** Two runs *)

(** Two regression routines return the same adjusted R2 on every trial
    frame of the table. *)
Definition same_fits (f1 f2 : list R -> list (list R) -> float)
           (df : DataFrame) : Prop :=
  forall trial,
    fit_trial f1 (dropna (select df ("fund_excess"%string :: trial))) trial
    = fit_trial f2 (dropna (select df ("fund_excess"%string :: trial))) trial.

Lemma try_candidate_same_fits (f1 f2 : list R -> list (list R) -> float)
      (df : DataFrame) (min_obs : Z) (chosen : list string) (c : string) :
  same_fits f1 f2 df ->
  try_candidate f1 df min_obs chosen c = try_candidate f2 df min_obs chosen c.
Proof.
  intros H. unfold try_candidate, trial_frame.
  destruct (existsb (String.eqb c) chosen); [reflexivity|]. cbv zeta.
  destruct (forallb _ _); [|reflexivity]. cbn [bind].
  destruct (_ <? min_obs); [reflexivity|]. rewrite (H (chosen ++ [c])).
  reflexivity.
Qed.

Lemma scan_same_fits (f1 f2 : list R -> list (list R) -> float)
      (df : DataFrame) (min_obs : Z) (chosen cands : list string)
      (b0 : BestR2) (c0 : option string) :
  same_fits f1 f2 df ->
  scan f1 df min_obs chosen cands b0 c0 = scan f2 df min_obs chosen cands b0 c0.
Proof.
  intros H. revert b0 c0. induction cands as [|c rest IH]; intros b0 c0;
    cbn [scan]; [reflexivity|].
  rewrite (try_candidate_same_fits f1 f2 df min_obs chosen c H).
  destruct (try_candidate f2 df min_obs chosen c) as [o|e]; [|reflexivity].
  cbn [bind]. destruct o as [[a|]|]; [|apply IH..].
  destruct (float_gt (Some a) b0); apply IH.
Qed.

Lemma rounds_same_fits (f1 f2 : list R -> list (list R) -> float)
      (df : DataFrame) (min_obs : Z) (avail : list string) (n : nat)
      (chosen : list string) :
  same_fits f1 f2 df ->
  rounds f1 df min_obs avail n chosen = rounds f2 df min_obs avail n chosen.
Proof.
  intros H. revert chosen. induction n as [|n IH]; intros chosen;
    cbn [rounds]; [reflexivity|].
  rewrite (scan_same_fits f1 f2 df min_obs chosen avail NegInf None H).
  destruct (scan f2 df min_obs chosen avail NegInf None) as [[b cb]|e];
    [|reflexivity].
  cbn [bind snd]. destruct cb as [c|]; [apply IH|reflexivity].
Qed.

(** C2.  What [_pick_best_model] returns is fixed by the selection rule:
    its greedy list [chosen] obeys the rule, no other list does, and
    the result is [chosen] or the fallback for it.  Every factor of
    [chosen] stands, in the round that added it, at a place of the
    candidate order where every earlier candidate that was scored has a
    strictly smaller adjusted R2 and every later one at most the same:
    of candidates with equal adjusted R2 the first encountered is
    retained.  A second run on the same table, candidates, thresholds
    and caps, in which the regression returns the same adjusted R2 on
    the same trial frames, gives the same outcome, the same list in
    the same order.  With a [fund_excess] column in the table the
    function returns. *)
Theorem selection_deterministic_first_wins
        (rsquared_adj : list R -> list (list R) -> float)
        (fund_excess : list float) (df : DataFrame)
        (all_candidates : list string) (min_obs min_factors max_factors : Z) :
  (forall res,
      _pick_best_model rsquared_adj fund_excess df all_candidates
                       min_obs min_factors max_factors = Ok res ->
      exists chosen,
        res = at_least min_factors (available df all_candidates min_obs) chosen
        /\ greedy rsquared_adj df min_obs (available df all_candidates min_obs)
                  (Z.to_nat max_factors) [] chosen
        /\ (forall chosen',
              greedy rsquared_adj df min_obs
                     (available df all_candidates min_obs)
                     (Z.to_nat max_factors) [] chosen' ->
              chosen' = chosen)
        /\ (forall ch c rest,
              chosen = ch ++ c :: rest ->
              exists a pre post,
                available df all_candidates min_obs = pre ++ c :: post /\
                scored rsquared_adj df min_obs ch c a /\
                (forall c' a', In c' pre ->
                               scored rsquared_adj df min_obs ch c' a' ->
                               (a' < a)%R) /\
                (forall c' a', In c' post ->
                               scored rsquared_adj df min_obs ch c' a' ->
                               (a' <= a)%R)))
  /\ (forall rsquared_adj' : list R -> list (list R) -> float,
        same_fits rsquared_adj' rsquared_adj df ->
        _pick_best_model rsquared_adj' fund_excess df all_candidates
                         min_obs min_factors max_factors
        = _pick_best_model rsquared_adj fund_excess df all_candidates
                           min_obs min_factors max_factors)
  /\ (in_columns "fund_excess" df = true ->
      exists res,
        _pick_best_model rsquared_adj fund_excess df all_candidates
                         min_obs min_factors max_factors = Ok res).
Proof.
  set (avail := available df all_candidates min_obs).
  split; [|split].
  - intros res Hres. unfold _pick_best_model in Hres. fold avail in Hres.
    destruct (rounds rsquared_adj df min_obs avail (Z.to_nat max_factors) [])
      as [chosen|e] eqn:Hr; [|discriminate Hres].
    cbn [bind] in Hres. injection Hres as <-.
    destruct (rounds_greedy _ _ _ _ _ _ _ Hr) as [Hg _].
    exists chosen. split; [reflexivity|]. split; [exact Hg|]. split.
    + intros chosen' Hg'.
      apply (greedy_functional rsquared_adj df min_obs avail
                               (Z.to_nat max_factors) []); assumption.
    + intros ch c rest E.
      destruct (greedy_steps _ _ _ _ _ _ _ Hg) as [added [Hfinal Hsteps]].
      cbn [app] in Hfinal. subst added.
      destruct (Hsteps ch c rest E) as [a [pre [post H]]].
      exists a, pre, post. exact H.
  - intros rsquared_adj' Hsame. unfold _pick_best_model. fold avail.
    rewrite (rounds_same_fits rsquared_adj' rsquared_adj df min_obs avail
                              (Z.to_nat max_factors) [] Hsame).
    reflexivity.
  - intros Hfe.
    destruct (rounds_ok rsquared_adj df min_obs avail (Z.to_nat max_factors) []
                        Hfe) as [chosen Hr].
    + intros x Hx. apply (available_in_columns df all_candidates min_obs x Hx).
    + intros x [].
    + eexists. unfold _pick_best_model. fold avail. rewrite Hr. reflexivity.
Qed.

(** *** An instance of the fit, and sample tables *)

(** Adjusted R2 of the regression of [y] on a constant and one regressor,
    in exact arithmetic; NaN stands for the degenerate cases and for
    more regressors, which the sample tables do not reach. *)
Definition ols1_rsquared_adj (y : list R) (x : list (list R)) : float :=
  match x with
  | [x1] =>
      let n := INR (length y) in
      let my := (sum y / n)%R in
      let mx := (sum x1 / n)%R in
      let syy := sum (map (fun v => (v - my) * (v - my))%R y) in
      let sxx := sum (map (fun v => (v - mx) * (v - mx))%R x1) in
      let sxy := sum (map (fun p => (fst p - my) * (snd p - mx))%R (combine y x1)) in
      if (length y <=? 2)%nat then NaN
      else if Req_EM_T syy 0 then NaN
      else if Req_EM_T sxx 0 then NaN
      else Some (1 - (1 - sxy * sxy / (sxx * syy)) * (n - 1) / (n - 2))%R
  | _ => NaN
  end.

(** Three candidates, each observed four times; the dependent variable
    is observed only where [d] is. *)
Definition df_disjoint : DataFrame :=
  [("fund_excess"%string,
    [NaN; NaN; NaN; NaN; Some 0.01; Some 0.03; Some 0.02; Some 0.05]%R);
   ("a"%string, [Some 0.1; Some 0.2; Some 0.3; Some 0.4; NaN; NaN; NaN; NaN]%R);
   ("b"%string, [Some 0.4; Some 0.1; Some 0.3; Some 0.2; NaN; NaN; NaN; NaN]%R);
   ("d"%string, [NaN; NaN; NaN; NaN; Some 1; Some 2; Some 3; Some 5]%R)].

(** Two candidates with the same values. *)
Definition df_tie : DataFrame :=
  [("fund_excess"%string, [Some 0.01; Some 0.03; Some 0.02; Some 0.05]%R);
   ("x1"%string, [Some 1; Some 2; Some 3; Some 5]%R);
   ("x2"%string, [Some 1; Some 2; Some 3; Some 5]%R)].

Definition abd : list string := ["a"; "b"; "d"]%string.

(** *** The sample tables, evaluated *)

Lemma ols1_sample :
  exists a, ols1_rsquared_adj [0.01; 0.03; 0.02; 0.05]%R [[1; 2; 3; 5]%R] = Some a.
Proof.
  unfold ols1_rsquared_adj.
  cbn [length Nat.leb map combine sum fold_right fst snd].
  destruct (Req_EM_T _ 0) as [E|_]; [exfalso; simpl INR in E; lra|].
  destruct (Req_EM_T _ 0) as [E|_]; [exfalso; simpl INR in E; lra|].
  eexists. reflexivity.
Qed.

Lemma disjoint_round1 :
  exists a, scan ols1_rsquared_adj df_disjoint 3 [] abd NegInf None
            = Ok (Best a, Some "d"%string).
Proof.
  destruct ols1_sample as [a Ha]. exists a.
  unfold abd. cbn [scan].
  replace (try_candidate ols1_rsquared_adj df_disjoint 3 [] "a")
    with (@Ok (option float) None) by reflexivity.
  cbn [bind].
  replace (try_candidate ols1_rsquared_adj df_disjoint 3 [] "b")
    with (@Ok (option float) None) by reflexivity.
  cbn [bind].
  replace (try_candidate ols1_rsquared_adj df_disjoint 3 [] "d")
    with (Ok (Some (ols1_rsquared_adj [0.01; 0.03; 0.02; 0.05]%R [[1; 2; 3; 5]%R])))
    by reflexivity.
  rewrite Ha. reflexivity.
Qed.

Lemma disjoint_round2 :
  scan ols1_rsquared_adj df_disjoint 3 ["d"%string] abd NegInf None
  = Ok (NegInf, None).
Proof.
  apply scan_all_skipped. intros c [<-|[<-|[<-|[]]]]; reflexivity.
Qed.

Lemma disjoint_rounds :
  rounds ols1_rsquared_adj df_disjoint 3 abd (Z.to_nat 5) [] = Ok ["d"%string].
Proof.
  destruct disjoint_round1 as [a Ha].
  change (Z.to_nat 5) with 5%nat. cbn [rounds].
  rewrite Ha. cbn [bind snd app].
  rewrite disjoint_round2. reflexivity.
Qed.



Lemma tie_round1 :
  exists a, scan ols1_rsquared_adj df_tie 3 [] ["x1"; "x2"]%string NegInf None
            = Ok (Best a, Some "x1"%string).
Proof.
  destruct ols1_sample as [a Ha]. exists a.
  cbn [scan].
  replace (try_candidate ols1_rsquared_adj df_tie 3 [] "x1")
    with (Ok (Some (ols1_rsquared_adj [0.01; 0.03; 0.02; 0.05]%R [[1; 2; 3; 5]%R])))
    by reflexivity.
  rewrite Ha. cbn [bind float_gt].
  replace (try_candidate ols1_rsquared_adj df_tie 3 [] "x2")
    with (Ok (Some (ols1_rsquared_adj [0.01; 0.03; 0.02; 0.05]%R [[1; 2; 3; 5]%R])))
    by reflexivity.
  rewrite Ha. cbn [bind float_gt].
  destruct (Rlt_dec a a) as [H|_]; [exfalso; lra|reflexivity].
Qed.

Lemma pick_best_model_ignores_fund_excess_witness :
  exists a,
    ols1_rsquared_adj
      (dropna_values
         (take_rows (kept_index (select df_tie ["fund_excess"; "x1"]%string))
                    [Some 0.01; Some 0.03; Some 0.02; Some 0.05]%R))
      (map (series_values (dropna (select df_tie ["fund_excess"; "x1"]%string)))
           ["x1"%string])
    = Some a.
Proof.
  destruct ols1_sample as [a Ha]. exists a.
  apply (proj2 (pick_best_model_ignores_fund_excess ols1_rsquared_adj)
               df_tie 3 [] "x1"%string a
               [Some 0.01; Some 0.03; Some 0.02; Some 0.05]%R eq_refl).
  unfold scored. rewrite <- Ha. reflexivity.
Defined.

Lemma tie_rounds :
  rounds ols1_rsquared_adj df_tie 3 ["x1"; "x2"]%string 1 [] = Ok ["x1"%string].
Proof.
  destruct tie_round1 as [a Ha]. cbn [rounds]. rewrite Ha. reflexivity.
Qed.

Lemma tie_pick :
  _pick_best_model ols1_rsquared_adj [] df_tie ["x1"; "x2"]%string 3 1 1
  = Ok ["x1"%string].
Proof.
  unfold _pick_best_model.
  replace (available df_tie ["x1"; "x2"]%string 3) with ["x1"; "x2"]%string
    by reflexivity.
  change (Z.to_nat 1) with 1%nat. rewrite tie_rounds. reflexivity.
Qed.

(** Two candidates with the same values, hence the same adjusted R2:
    with one factor to select, the selector returns the first one, and
    the second, which comes later, scores no more. *)
Lemma selection_deterministic_first_wins_witness :
  exists a pre post,
    ["x1"; "x2"]%string = pre ++ "x1"%string :: post /\
    scored ols1_rsquared_adj df_tie 3 [] "x1" a /\
    (forall c' a', In c' post ->
                   scored ols1_rsquared_adj df_tie 3 [] c' a' -> (a' <= a)%R).
Proof.
  destruct (proj1 (selection_deterministic_first_wins
                     ols1_rsquared_adj [] df_tie ["x1"; "x2"]%string 3 1 1)
                  ["x1"%string] tie_pick)
    as [chosen [_ [_ [Huniq Hfirst]]]].
  assert (Hg : greedy ols1_rsquared_adj df_tie 3
                      (available df_tie ["x1"; "x2"]%string 3)
                      (Z.to_nat 1) [] ["x1"%string]).
  { apply (rounds_greedy ols1_rsquared_adj df_tie 3 _ _ [] _ tie_rounds). }
  destruct (Hfirst [] "x1"%string [] (eq_sym (Huniq _ Hg)))
    as [a [pre [post [E [Hs [_ Hpost]]]]]].
  exists a, pre, post. split; [exact E|]. split; [exact Hs|exact Hpost].
Defined.

End RunAnalysis.

(** ** run_analysis.py: more on the two factor lists *)

Module RunAnalysisMore.

Import Q1 RunAnalysis.
Local Open Scope Z_scope.

Definition ECON_PRIORITY : list string :=
  ["mkt_rf"; "tsmom"; "val_everywhere"; "hy_oas_chg"; "usd_ret";
   "dgs10_chg"; "mom_everywhere"; "cmdty_ret"]%string.

(** [main], lines 124-126: the economist's factors. *)
Definition econ_factors (macro : DataFrame) : list string :=
  let econ_avail := available macro ECON_PRIORITY 60 in
  if (5 <=? length econ_avail)%nat then firstn 5 econ_avail
  else firstn (Nat.max 3 (length econ_avail)) econ_avail.

(** A table without a [fund_excess] column. *)
Definition df_no_excess : DataFrame :=
  [("a"%string, [Some 0.1; Some 0.2; Some 0.3; Some 0.4]%R)].

Lemma NoDup_snoc {A : Type} (l : list A) (c : A) :
  List.NoDup l -> ~ In c l -> List.NoDup (l ++ [c]).
Proof.
  induction 1 as [|x l Hx Hl IH]; intros Hc; simpl.
  - constructor; [intros []|constructor].
  - constructor.
    + intros Hin. apply in_app_or in Hin. destruct Hin as [Hin|[<-|[]]].
      * apply Hx, Hin.
      * apply Hc. left. reflexivity.
    + apply IH. intros Hin. apply Hc. right. exact Hin.
Qed.

Lemma firstn_incl {A : Type} (n : nat) (l : list A) : incl (firstn n l) l.
Proof.
  revert n. induction l as [|x l IH]; intros n y Hy.
  - destruct n; destruct Hy.
  - destruct n as [|n]; [destruct Hy|].
    destruct Hy as [<-|Hy]; [left; reflexivity|right; apply (IH n), Hy].
Qed.

Lemma NoDup_firstn {A : Type} (n : nat) (l : list A) :
  List.NoDup l -> List.NoDup (firstn n l).
Proof.
  intros H. revert n. induction H as [|x l Hx Hl IH]; intros [|n]; simpl;
    try constructor.
  - intros Hin. apply Hx. apply (firstn_incl n l), Hin.
  - apply IH.
Qed.

Section SelectorFacts.

Variable rsquared_adj : list R -> list (list R) -> float.

Lemma scored_not_chosen (df : DataFrame) (min_obs : Z) (chosen : list string)
      (c : string) (a : R) :
  scored rsquared_adj df min_obs chosen c a -> ~ In c chosen.
Proof.
  unfold scored, try_candidate.
  destruct (existsb (String.eqb c) chosen) eqn:Hex; [discriminate|].
  intros _. apply existsb_eqb_In, Hex.
Qed.

Lemma rounds_NoDup (df : DataFrame) (min_obs : Z) (avail : list string)
      (n : nat) (chosen final : list string) :
  List.NoDup chosen ->
  rounds rsquared_adj df min_obs avail n chosen = Ok final ->
  List.NoDup final.
Proof.
  revert chosen. induction n as [|n IH]; intros chosen Hnd H; cbn [rounds] in H.
  - injection H as <-. exact Hnd.
  - destruct (scan rsquared_adj df min_obs chosen avail NegInf None)
      as [[b cb]|e] eqn:Hscan; [|discriminate H].
    cbn [bind snd] in H.
    pose proof (scan_first_best _ _ _ _ _ _ _ Hscan) as Hfb.
    destruct cb as [c|]; [|injection H as <-; exact Hnd].
    destruct Hfb as [a [_ [pre [post [_ [Hs _]]]]]].
    apply (IH (chosen ++ [c])); [|exact H].
    apply NoDup_snoc; [exact Hnd|]. apply (scored_not_chosen _ _ _ _ _ Hs).
Qed.

Lemma rounds_stuck (df : DataFrame) (min_obs : Z) (avail : list string)
      (n : nat) (chosen final : list string) :
  rounds rsquared_adj df min_obs avail n chosen = Ok final ->
  (length final < length chosen + n)%nat ->
  none_scored rsquared_adj df min_obs avail final.
Proof.
  revert chosen. induction n as [|n IH]; intros chosen H Hlen; cbn [rounds] in H.
  - injection H as <-. lia.
  - destruct (scan rsquared_adj df min_obs chosen avail NegInf None)
      as [[b cb]|e] eqn:Hscan; [|discriminate H].
    cbn [bind snd] in H.
    pose proof (scan_first_best _ _ _ _ _ _ _ Hscan) as Hfb.
    destruct cb as [c|]; [|injection H as <-; exact Hfb].
    apply (IH (chosen ++ [c])); [exact H|].
    rewrite length_app. simpl. lia.
Qed.

Lemma pick_best_model_inv (fund_excess : list float) (df : DataFrame)
      (all_candidates : list string) (min_obs min_factors max_factors : Z)
      (res : list string) :
  _pick_best_model rsquared_adj fund_excess df all_candidates
                   min_obs min_factors max_factors = Ok res ->
  exists chosen,
    rounds rsquared_adj df min_obs (available df all_candidates min_obs)
           (Z.to_nat max_factors) [] = Ok chosen
    /\ res = at_least min_factors (available df all_candidates min_obs) chosen.
Proof.
  unfold _pick_best_model. cbv zeta.
  destruct (rounds _ _ _ _ _ _) as [chosen|e]; [|discriminate].
  cbn [bind]. intros H. injection H as <-. exists chosen. split; reflexivity.
Qed.

Lemma pick_best_model_incl (fund_excess : list float) (df : DataFrame)
      (all_candidates : list string) (min_obs min_factors max_factors : Z)
      (res : list string) :
  _pick_best_model rsquared_adj fund_excess df all_candidates
                   min_obs min_factors max_factors = Ok res ->
  incl res (available df all_candidates min_obs).
Proof.
  intros H.
  destruct (pick_best_model_inv _ _ _ _ _ _ _ H) as [chosen [Hr ->]].
  destruct (rounds_greedy _ _ _ _ _ _ _ Hr) as [_ [_ Hin]].
  unfold at_least.
  destruct (_ <? min_factors); [destruct (min_factors <=? _)|].
  - apply firstn_incl.
  - apply incl_refl.
  - intros c Hc. destruct (Hin c Hc) as [[]|Hav]. exact Hav.
Qed.

(** X15.  Whatever the fit, a list returned by [_pick_best_model]
    consists of available candidates, has no repetition when the
    candidate list has none, has at most [max(max_factors,
    min_factors)] entries and at least [min_factors] when that many
    candidates are available; with fewer available candidates it is
    the list of all of them. *)
Theorem pick_best_model_result_shape
        (fund_excess : list float) (df : DataFrame)
        (all_candidates : list string) (min_obs min_factors max_factors : Z)
        (res : list string) :
  _pick_best_model rsquared_adj fund_excess df all_candidates
                   min_obs min_factors max_factors = Ok res ->
  let avail := available df all_candidates min_obs in
  incl res avail
  /\ (List.NoDup all_candidates -> List.NoDup res)
  /\ (length res <= Nat.max (Z.to_nat max_factors) (Z.to_nat min_factors))%nat
  /\ (min_factors <= Z.of_nat (length avail) ->
      min_factors <= Z.of_nat (length res))
  /\ (Z.of_nat (length avail) < min_factors -> res = avail).
Proof.
  intros H avail.
  destruct (pick_best_model_inv _ _ _ _ _ _ _ H) as [chosen [Hr ->]].
  fold avail in Hr |- *.
  destruct (rounds_greedy _ _ _ _ _ _ _ Hr) as [_ [Hlen Hin]].
  cbn [length Nat.add] in Hlen.
  assert (Hincl : incl chosen avail).
  { intros c Hc. destruct (Hin c Hc) as [[]|Hav]. exact Hav. }
  assert (Hnd : List.NoDup chosen).
  { apply (rounds_NoDup _ _ _ _ _ _ (List.NoDup_nil _) Hr). }
  unfold at_least.
  destruct (Z.of_nat (length chosen) <? min_factors) eqn:Hshort.
  - apply Z.ltb_lt in Hshort.
    destruct (min_factors <=? Z.of_nat (length avail)) eqn:Hmany.
    + apply Z.leb_le in Hmany.
      assert (Hfl : length (firstn (Z.to_nat min_factors) avail)
                    = Z.to_nat min_factors).
      { apply firstn_length_le. lia. }
      split; [apply firstn_incl|].
      split; [intros Hc; apply NoDup_firstn, List.NoDup_filter, Hc|].
      split; [lia|]. split; [lia|lia].
    + apply Z.leb_gt in Hmany.
      split; [apply incl_refl|].
      split; [intros Hc; apply List.NoDup_filter, Hc|].
      split; [lia|]. split; [lia|reflexivity].
  - apply Z.ltb_ge in Hshort.
    split; [exact Hincl|]. split; [intros _; exact Hnd|].
    split; [lia|]. split; [lia|].
    intros Hfew. pose proof (NoDup_incl_length Hnd Hincl). lia.
Qed.

(** X16.  The selector reads the dependent variable from the column
    [fund_excess] of the candidate table: without that column it
    raises [KeyError] as soon as it tries a candidate, that is when a
    candidate is available and [max_factors] is positive; otherwise it
    returns without a single fit. *)
Theorem pick_best_model_needs_fund_excess_column
        (fund_excess : list float) (df : DataFrame)
        (all_candidates : list string) (min_obs min_factors max_factors : Z) :
  in_columns "fund_excess" df = false ->
  let avail := available df all_candidates min_obs in
  (avail <> [] -> 0 < max_factors ->
   _pick_best_model rsquared_adj fund_excess df all_candidates
                    min_obs min_factors max_factors = Raise KeyError)
  /\ (avail = [] \/ max_factors <= 0 ->
      _pick_best_model rsquared_adj fund_excess df all_candidates
                       min_obs min_factors max_factors
      = Ok (at_least min_factors avail [])).
Proof.
  intros Hfe avail. unfold _pick_best_model. fold avail. split.
  - intros Hne Hpos.
    destruct (Z.to_nat max_factors) as [|n] eqn:Hn; [lia|].
    destruct avail as [|c rest]; [congruence|].
    cbn [rounds scan]. unfold try_candidate. cbn [existsb app].
    unfold trial_frame. cbn [forallb]. rewrite Hfe. reflexivity.
  - intros [Hnil|Hmax].
    + rewrite Hnil. destruct (Z.to_nat max_factors); reflexivity.
    + replace (Z.to_nat max_factors) with O by lia. reflexivity.
Qed.

(** X17.  The selection ends before [max_factors] rounds only when it
    is stuck: if fewer factors were chosen than rounds allowed, no
    available candidate can be scored on top of the chosen ones. *)
Theorem selection_stops_early_only_when_stuck
        (df : DataFrame) (all_candidates : list string)
        (min_obs max_factors : Z) (chosen : list string) :
  let avail := available df all_candidates min_obs in
  rounds rsquared_adj df min_obs avail (Z.to_nat max_factors) [] = Ok chosen ->
  Z.of_nat (length chosen) < max_factors ->
  none_scored rsquared_adj df min_obs avail chosen.
Proof.
  intros avail Hr Hlen. apply (rounds_stuck _ _ _ _ _ _ Hr).
  cbn [length Nat.add]. lia.
Qed.

End SelectorFacts.

Lemma disjoint_pick :
  _pick_best_model ols1_rsquared_adj [] df_disjoint abd 3 2 5
  = Ok ["a"%string; "b"%string].
Proof.
  unfold _pick_best_model.
  replace (available df_disjoint abd 3) with abd by reflexivity.
  rewrite disjoint_rounds. reflexivity.
Qed.

Lemma pick_best_model_result_shape_witness :
  incl ["a"%string; "b"%string] (available df_disjoint abd 3)
  /\ (List.NoDup abd -> List.NoDup ["a"%string; "b"%string])
  /\ (length ["a"%string; "b"%string] <= Nat.max (Z.to_nat 5) (Z.to_nat 2))%nat
  /\ (2 <= Z.of_nat (length (available df_disjoint abd 3)) ->
      2 <= Z.of_nat (length ["a"%string; "b"%string]))
  /\ (Z.of_nat (length (available df_disjoint abd 3)) < 2 ->
      ["a"%string; "b"%string] = available df_disjoint abd 3).
Proof.
  apply (pick_best_model_result_shape ols1_rsquared_adj [] df_disjoint abd 3 2 5
           _ disjoint_pick).
Defined.

Lemma pick_best_model_needs_fund_excess_column_witness :
  _pick_best_model ols1_rsquared_adj [] df_no_excess ["a"%string] 3 3 5
  = Raise KeyError.
Proof.
  apply (proj1 (pick_best_model_needs_fund_excess_column
                  ols1_rsquared_adj [] df_no_excess ["a"%string] 3 3 5 eq_refl)).
  - discriminate.
  - lia.
Defined.

Lemma selection_stops_early_only_when_stuck_witness :
  none_scored ols1_rsquared_adj df_disjoint 3 (available df_disjoint abd 3)
              ["d"%string].
Proof.
  apply (selection_stops_early_only_when_stuck ols1_rsquared_adj
           df_disjoint abd 3 5 ["d"%string]).
  - exact disjoint_rounds.
  - simpl. lia.
Defined.

(** X18.  The economist's list is the first five usable factors in
    priority order: the [max(3, .)] of line 126 never adds anything,
    so with fewer than three usable factors the model has fewer than
    three regressors, down to none. *)
Theorem econ_factors_first_five (macro : DataFrame) :
  econ_factors macro = firstn 5 (available macro ECON_PRIORITY 60)
  /\ (length (econ_factors macro) <= 5)%nat
  /\ ((length (available macro ECON_PRIORITY 60) < 5)%nat ->
      econ_factors macro = available macro ECON_PRIORITY 60).
Proof.
  unfold econ_factors. cbv zeta.
  set (econ_avail := available macro ECON_PRIORITY 60).
  destruct (5 <=? length econ_avail)%nat eqn:E.
  - apply Nat.leb_le in E. split; [reflexivity|].
    split; [rewrite length_firstn; lia|]. intros H. lia.
  - apply Nat.leb_gt in E.
    rewrite (firstn_all2 (n := Nat.max 3 (length econ_avail))) by lia.
    split; [rewrite firstn_all2 by lia; reflexivity|].
    split; [lia|]. intros _. reflexivity.
Qed.

End RunAnalysisMore.

(** ** model_utils.py: the factor descriptions of the report *)

Module ModelUtils.

Import Q1 RunAnalysis RunAnalysisMore.
Local Open Scope string_scope.

Definition FACTOR_DESC : list (string * string) :=
  [("tsmom", "AQR Time-Series Momentum (all assets) — trend-following proxy");
   ("val_everywhere", "AQR Value Everywhere (global avg) — cross-asset value premium");
   ("mom_everywhere", "AQR Momentum Everywhere (global avg) — cross-asset momentum premium");
   ("qmj_global", "AQR Quality Minus Junk (global equities) — quality premium");
   ("bab_global", "AQR Betting Against Beta (global equities) — low-risk / leverage premium");
   ("tsmom_eq", "AQR TSMOM sub-asset: Equity indices");
   ("tsmom_fi", "AQR TSMOM sub-asset: Fixed income");
   ("tsmom_fx", "AQR TSMOM sub-asset: Currencies");
   ("tsmom_cm", "AQR TSMOM sub-asset: Commodities");
   ("mkt_rf", "FF market excess return — broad equity risk premium");
   ("usd_ret", "FRED USD index monthly return — FX exposure proxy");
   ("dgs10_chg", "FRED 10Y Treasury yield change — duration / rates proxy");
   ("hy_oas_chg", "FRED HY OAS change — credit risk appetite / stress proxy");
   ("cmdty_ret", "S&P GSCI monthly return — commodity risk proxy")].

(** [FACTOR_DESC.get(f, f)] *)
Definition factor_desc_get (f : string) : string :=
  match lookup_row f FACTOR_DESC with
  | Some d => d
  | None => f
  end.

Definition newline : string := String (Ascii.ascii_of_nat 10) EmptyString.

(** One line of [factor_bullets]. *)
Definition bullet (f : string) : string :=
  "- **`" ++ f ++ "`**: " ++ factor_desc_get f.

Definition factor_bullets (factors : list string) : string :=
  String.concat newline (map bullet factors).

(** The factor has an entry in [FACTOR_DESC], other than its own name. *)
Definition described (f : string) : bool :=
  match lookup_row f FACTOR_DESC with
  | Some d => negb (String.eqb d f)
  | None => false
  end.

Lemma candidates_described :
  forallb described (ALL_CANDIDATES ++ ECON_PRIORITY) = true.
Proof. vm_compute. reflexivity. Qed.

Lemma described_get (f : string) :
  described f = true ->
  lookup_row f FACTOR_DESC = Some (factor_desc_get f) /\ factor_desc_get f <> f.
Proof.
  unfold described, factor_desc_get.
  destruct (lookup_row f FACTOR_DESC) as [d|]; [|discriminate].
  intros H. split; [reflexivity|]. intros ->.
  rewrite String.eqb_refl in H. discriminate H.
Qed.

(** X19.  Both factor lists of the report are fully described: every
    factor the greedy selector returns from [ALL_CANDIDATES], and every
    economist's factor, has an entry in [FACTOR_DESC], so that
    [factor_bullets] never falls back to printing the bare name. *)
Theorem report_factors_are_described
        (rsquared_adj : list R -> list (list R) -> float)
        (fund_excess : list float) (macro : DataFrame)
        (min_obs min_factors max_factors : Z) :
  (forall greedy_factors f,
      _pick_best_model rsquared_adj fund_excess macro ALL_CANDIDATES
                       min_obs min_factors max_factors = Ok greedy_factors ->
      In f greedy_factors ->
      lookup_row f FACTOR_DESC = Some (factor_desc_get f)
      /\ factor_desc_get f <> f)
  /\ (forall f, In f (econ_factors macro) ->
                lookup_row f FACTOR_DESC = Some (factor_desc_get f)
                /\ factor_desc_get f <> f).
Proof.
  pose proof candidates_described as Hall.
  rewrite forallb_forall in Hall. split.
  - intros res f Hres Hf. apply described_get, Hall, in_or_app. left.
    apply (pick_best_model_incl _ _ _ _ _ _ _ _ Hres) in Hf.
    unfold available in Hf. apply List.filter_In in Hf. apply Hf.
  - intros f Hf. apply described_get, Hall, in_or_app. right.
    unfold econ_factors in Hf. cbv zeta in Hf.
    destruct (5 <=? _)%nat; apply firstn_incl in Hf;
      unfold available in Hf; apply List.filter_In in Hf; apply Hf.
Qed.

End ModelUtils.

(** ** model_utils.py: the regression and its diagnostics *)

Module Diagnostics.

Import Q1 Q1Facts Q1More.
Local Open Scope R_scope.











Section Fit.

(** The estimate statsmodels returns for the kept observations. *)
Variable ols_estimate : list R -> list (list R) -> list R.


End Fit.






(** *** Facts *)















(** *** The closed form minimises the sum of squared residuals *)

(** The sum of squared residuals of constant [c0] and slope [c1] over
    the observations [(y, x)]. *)
Definition q (c0 c1 : R) (ps : list (R * R)) : R :=
  sum (map (fun p => (fst p - c0 - c1 * snd p) * (fst p - c0 - c1 * snd p)) ps).













End Diagnostics.
